(** * Optimistic updates and background reconciliation

    A shallow embedding of the realtime core of the resource-planning client:

    - [src/types/index.ts]           the entity interfaces;
    - [AppContext]                   the reducer, the optimistic CRUD flows and
                                     the derived workload;
    - [src/hooks/useRealtimeSync.ts] the event bus and the optimistic-update
                                     tracker;
    - [RealtimeContext]              the provider that instantiates the hook;
    - [BackgroundSyncContext]        the diffing and reconciliation engine;
    - [src/types/errors.ts],
      [src/utils/errorHandler.ts]    the error classes and the error handler
                                     through which the store calls the server.

    JavaScript values are modelled by the TypeScript interfaces that describe
    them; a record that the sync receives from the server carries, next to
    its fields, the text that [JSON.stringify] gives for it, because the diff
    compares these texts.  Code that can throw lives in a small
    state-and-exception monad;
    timers are an explicit queue; everything observable (events handed to the
    bus, listener invocations, console output, compensations run) is appended
    to a trace. *)

From stdpp Require Import gmap strings list fin_maps pretty.

#[local] Set Warnings "-register-all".
Local Open Scope Z_scope.
Local Open Scope string_scope.
Local Open Scope list_scope.

(** ** Entities ([src/types/index.ts]) *)

Inductive Role := role_manager | role_engineer.

Module User.
Record t := mk {
    id : string;
    name : string;
    email : string;
    role : Role;
    avatar : option string
}.
End User.

Inductive SeniorityLevel := junior | mid | senior | lead.
Inductive EmploymentType := full_time | part_time.

Module Engineer.
Record t := mk {
    id : string;
    name : string;
    email : string;
    skills : list string;
    seniorityLevel : SeniorityLevel;
    employmentType : EmploymentType;
    capacity : Z;
    currentAllocation : Z;
    avatar : option string;
    joinDate : string;
    department : option string
}.
End Engineer.

Inductive ProjectStatus := planning | active | completed.
Inductive Priority := low | medium | high.

Module Project.
Record t := mk {
    id : string;
    name : string;
    description : string;
    startDate : string;
    endDate : string;
    requiredTeamSize : Z;
    requiredSkills : list string;
    status : ProjectStatus;
    priority : Priority;
    createdBy : string;
    createdAt : string
}.
End Project.

(** Populated objects from the backend. *)
Module PopulatedEngineer.
Record t := mk { _id : string; name : string; email : string }.
End PopulatedEngineer.

Module PopulatedProject.
Record t := mk { _id : string; name : string }.
End PopulatedProject.

(** [engineerId: string | PopulatedEngineer] *)
Inductive EngineerRef :=
| EngineerIdString (s : string)
| EngineerPopulated (p : PopulatedEngineer.t).

(** [projectId: string | PopulatedProject] *)
Inductive ProjectRef :=
| ProjectIdString (s : string)
| ProjectPopulated (p : PopulatedProject.t).

Module Assignment.
Record t := mk {
    id : string;
    engineerId : EngineerRef;
    projectId : ProjectRef;
    allocationPercentage : Z;
    startDate : string;
    endDate : string;
    role : option string;
    notes : option string;
    createdAt : option string;
    createdBy : option string
}.
End Assignment.

(** [Partial<Engineer>] and [Partial<Project>]: every property may be missing. *)
Module PartialEngineer.
Record t := mk {
    id : option string;
    name : option string;
    email : option string;
    skills : option (list string);
    seniorityLevel : option SeniorityLevel;
    employmentType : option EmploymentType;
    capacity : option Z;
    currentAllocation : option Z;
    avatar : option string;
    joinDate : option string;
    department : option string
}.
End PartialEngineer.

Module PartialProject.
Record t := mk {
    id : option string;
    name : option string;
    description : option string;
    startDate : option string;
    endDate : option string;
    requiredTeamSize : option Z;
    requiredSkills : option (list string);
    status : option ProjectStatus;
    priority : option Priority;
    createdBy : option string;
    createdAt : option string
}.
End PartialProject.

Section Decidable.
#[global] Instance Role_eq_dec : EqDecision Role.
Proof. solve_decision. Defined.
#[global] Instance SeniorityLevel_eq_dec : EqDecision SeniorityLevel.
Proof. solve_decision. Defined.
#[global] Instance EmploymentType_eq_dec : EqDecision EmploymentType.
Proof. solve_decision. Defined.
#[global] Instance ProjectStatus_eq_dec : EqDecision ProjectStatus.
Proof. solve_decision. Defined.
#[global] Instance Priority_eq_dec : EqDecision Priority.
Proof. solve_decision. Defined.
#[global] Instance User_eq_dec : EqDecision User.t.
Proof. solve_decision. Defined.
#[global] Instance Engineer_eq_dec : EqDecision Engineer.t.
Proof. solve_decision. Defined.
#[global] Instance Project_eq_dec : EqDecision Project.t.
Proof. solve_decision. Defined.
#[global] Instance PopulatedEngineer_eq_dec : EqDecision PopulatedEngineer.t.
Proof. solve_decision. Defined.
#[global] Instance PopulatedProject_eq_dec : EqDecision PopulatedProject.t.
Proof. solve_decision. Defined.
#[global] Instance EngineerRef_eq_dec : EqDecision EngineerRef.
Proof. solve_decision. Defined.
#[global] Instance ProjectRef_eq_dec : EqDecision ProjectRef.
Proof. solve_decision. Defined.
#[global] Instance Assignment_eq_dec : EqDecision Assignment.t.
Proof. solve_decision. Defined.
#[global] Instance PartialEngineer_eq_dec : EqDecision PartialEngineer.t.
Proof. solve_decision. Defined.
#[global] Instance PartialProject_eq_dec : EqDecision PartialProject.t.
Proof. solve_decision. Defined.
End Decidable.

(** [{ ...eng, ...patch }]: the properties present in the patch win. *)
Definition spreadEngineer (eng : Engineer.t) (patch : PartialEngineer.t) : Engineer.t :=
  {| Engineer.id := default (Engineer.id eng) (PartialEngineer.id patch);
     Engineer.name := default (Engineer.name eng) (PartialEngineer.name patch);
     Engineer.email := default (Engineer.email eng) (PartialEngineer.email patch);
     Engineer.skills := default (Engineer.skills eng) (PartialEngineer.skills patch);
     Engineer.seniorityLevel :=
       default (Engineer.seniorityLevel eng) (PartialEngineer.seniorityLevel patch);
     Engineer.employmentType :=
       default (Engineer.employmentType eng) (PartialEngineer.employmentType patch);
     Engineer.capacity := default (Engineer.capacity eng) (PartialEngineer.capacity patch);
     Engineer.currentAllocation :=
       default (Engineer.currentAllocation eng) (PartialEngineer.currentAllocation patch);
     Engineer.avatar :=
       match PartialEngineer.avatar patch with
       | Some a => Some a
       | None => Engineer.avatar eng
       end;
     Engineer.joinDate := default (Engineer.joinDate eng) (PartialEngineer.joinDate patch);
     Engineer.department :=
       match PartialEngineer.department patch with
       | Some d => Some d
       | None => Engineer.department eng
       end |}.

Definition spreadProject (proj : Project.t) (patch : PartialProject.t) : Project.t :=
  {| Project.id := default (Project.id proj) (PartialProject.id patch);
     Project.name := default (Project.name proj) (PartialProject.name patch);
     Project.description :=
       default (Project.description proj) (PartialProject.description patch);
     Project.startDate := default (Project.startDate proj) (PartialProject.startDate patch);
     Project.endDate := default (Project.endDate proj) (PartialProject.endDate patch);
     Project.requiredTeamSize :=
       default (Project.requiredTeamSize proj) (PartialProject.requiredTeamSize patch);
     Project.requiredSkills :=
       default (Project.requiredSkills proj) (PartialProject.requiredSkills patch);
     Project.status := default (Project.status proj) (PartialProject.status patch);
     Project.priority := default (Project.priority proj) (PartialProject.priority patch);
     Project.createdBy := default (Project.createdBy proj) (PartialProject.createdBy patch);
     Project.createdAt := default (Project.createdAt proj) (PartialProject.createdAt patch) |}.

(** ** The application store ([AppContext]) *)

(** [AppState & { token: string | null }] *)
Record AppState := mkAppState {
  currentUser : option User.t;
  engineers : list Engineer.t;
  projects : list Project.t;
  assignments : list Assignment.t;
  isLoading : bool;
  token : option string
}.

Definition initialState : AppState :=
  {| currentUser := None; engineers := []; projects := []; assignments := [];
     isLoading := false; token := None |}.

Inductive Action :=
| SET_LOADING (payload : bool)
| LOGIN (user : User.t) (tok : string)
| LOGOUT
| SET_ENGINEERS (payload : list Engineer.t)
| SET_PROJECTS (payload : list Project.t)
| SET_ASSIGNMENTS (payload : list Assignment.t)
| ADD_ENGINEER (payload : Engineer.t)
| UPDATE_ENGINEER (id : string) (patch : PartialEngineer.t)
| ADD_PROJECT (payload : Project.t)
| UPDATE_PROJECT (id : string) (patch : PartialProject.t)
| ADD_ASSIGNMENT (payload : Assignment.t)
| REMOVE_ASSIGNMENT (payload : string).

Definition appReducer (state : AppState) (action : Action) : AppState :=
  match action with
  | SET_LOADING b =>
      {| currentUser := currentUser state; engineers := engineers state;
         projects := projects state; assignments := assignments state;
         isLoading := b; token := token state |}
  | LOGIN user tok =>
      {| currentUser := Some user; engineers := engineers state;
         projects := projects state; assignments := assignments state;
         isLoading := isLoading state; token := Some tok |}
  | LOGOUT =>
      {| currentUser := None; engineers := engineers state;
         projects := projects state; assignments := assignments state;
         isLoading := isLoading state; token := None |}
  | SET_ENGINEERS l =>
      {| currentUser := currentUser state; engineers := l;
         projects := projects state; assignments := assignments state;
         isLoading := isLoading state; token := token state |}
  | SET_PROJECTS l =>
      {| currentUser := currentUser state; engineers := engineers state;
         projects := l; assignments := assignments state;
         isLoading := isLoading state; token := token state |}
  | SET_ASSIGNMENTS l =>
      {| currentUser := currentUser state; engineers := engineers state;
         projects := projects state; assignments := l;
         isLoading := isLoading state; token := token state |}
  | ADD_ENGINEER e =>
      {| currentUser := currentUser state; engineers := engineers state ++ [e];
         projects := projects state; assignments := assignments state;
         isLoading := isLoading state; token := token state |}
  | UPDATE_ENGINEER i patch =>
      {| currentUser := currentUser state;
         engineers :=
           map (fun eng => if String.eqb (Engineer.id eng) i
                           then spreadEngineer eng patch else eng)
               (engineers state);
         projects := projects state; assignments := assignments state;
         isLoading := isLoading state; token := token state |}
  | ADD_PROJECT p =>
      {| currentUser := currentUser state; engineers := engineers state;
         projects := projects state ++ [p]; assignments := assignments state;
         isLoading := isLoading state; token := token state |}
  | UPDATE_PROJECT i patch =>
      {| currentUser := currentUser state; engineers := engineers state;
         projects :=
           map (fun proj => if String.eqb (Project.id proj) i
                            then spreadProject proj patch else proj)
               (projects state);
         assignments := assignments state;
         isLoading := isLoading state; token := token state |}
  | ADD_ASSIGNMENT a =>
      {| currentUser := currentUser state; engineers := engineers state;
         projects := projects state; assignments := assignments state ++ [a];
         isLoading := isLoading state; token := token state |}
  | REMOVE_ASSIGNMENT i =>
      {| currentUser := currentUser state; engineers := engineers state;
         projects := projects state;
         assignments :=
           filter (fun a => Assignment.id a ≠ i) (assignments state);
         isLoading := isLoading state; token := token state |}
  end.

(** [assignment.engineerId === engineerId] with a string on the right: strict
    equality between an object and a string is always [false]. *)
Definition engineerId_strict_eq (r : EngineerRef) (engineerId : string) : bool :=
  match r with
  | EngineerIdString s => String.eqb s engineerId
  | EngineerPopulated _ => false
  end.

Definition projectId_strict_eq (r : ProjectRef) (projectId : string) : bool :=
  match r with
  | ProjectIdString s => String.eqb s projectId
  | ProjectPopulated _ => false
  end.

(** [state.assignments.filter(...).reduce((total, a) => total + a.allocationPercentage, 0)].
    Percentages are taken to be whole numbers; they are summed as the code
    sums them, from the left in the order of the assignments. *)
Definition getEngineerWorkload (state : AppState) (engineerId : string) : Z :=
  fold_left (fun total a => total + Assignment.allocationPercentage a)
    (List.filter (fun a => engineerId_strict_eq (Assignment.engineerId a) engineerId)
       (assignments state))
    0.

Definition getProjectAssignments (state : AppState) (projectId : string)
  : list Assignment.t :=
  List.filter (fun a => projectId_strict_eq (Assignment.projectId a) projectId)
    (assignments state).

(** How the assignments view resolves a reference, whichever form it arrives
    in: the populated object carries the foreign id in [_id]. *)
Definition resolveEngineerId (r : EngineerRef) : string :=
  match r with
  | EngineerIdString s => s
  | EngineerPopulated p => PopulatedEngineer._id p
  end.

(** The derived workload in the spec's words: the sum of [allocationPercentage]
    over all assignments whose [engineerId] resolves to the engineer. *)
Definition derivedWorkload (l : list Assignment.t) (engineerId : string) : Z :=
  foldr Z.add 0
    (map Assignment.allocationPercentage
       (List.filter (fun a => String.eqb (resolveEngineerId (Assignment.engineerId a)) engineerId) l)).

(** ** Events and payloads *)

(** A record as the server sent it.  The sync handles these records as
    [any]: it reads their [id] and compares what [JSON.stringify] gives for
    them.  [value] is the object read through its interface, [text] is its
    [JSON.stringify] output, which also depends on the order of its keys: two
    objects with the same fields can have different texts. *)
Module Received.
Record t (A : Type) := mk {
    value : A;
    text : string
}.
Arguments mk {A} _ _.
Arguments value {A} _.
Arguments text {A} _.
End Received.

(** [record.id] of a record as the server sent it. *)
Definition received_id {A} (id : A -> string) (r : Received.t A) : string :=
  id (Received.value r).

(** What [fetchServerData] returns and [lastSyncDataRef] retains. *)
Module ServerData.
Record t := mk {
    engineers : list (Received.t Engineer.t);
    projects : list (Received.t Project.t);
    assignments : list (Received.t Assignment.t)
}.
End ServerData.

Module Counts.
Record t := mk { engineers : nat; projects : nat; assignments : nat }.
End Counts.

(** The payload of [external:changes-detected]. *)
Record ChangeCounts := mkChangeCounts {
  added : Counts.t;
  removed : Counts.t;
  updated : Counts.t
}.

(** [payload: any].  One constructor per object literal that the core hands
    to [emit]. *)
Inductive Payload :=
| PEmpty                                           (* {} *)
| PEngineer (e : Engineer.t)
| PProject (p : Project.t)
| PAssignment (a : Assignment.t)
| PEngineerJson (e : PartialEngineer.t)            (* an engineer as the server sent it *)
| PProjectJson (p : PartialProject.t)              (* a project as the server sent it *)
| PIdData (id : string) (data : Payload)           (* { id, data } *)
| PError (error : string)                          (* { error } *)
| PEnabled (enabled : bool)                        (* { enabled } *)
| PChanges (c : ChangeCounts)                      (* { added, removed, updated } *)
| PCollections (engineers : list Engineer.t) (projects : list Project.t)
    (assignments : list Assignment.t)              (* { engineers, projects, assignments } *)
| PArray (items : list Payload)                    (* [ ... ] *)
| PConflict (strategy : string) (serverData : ServerData.t) (localData : Payload)
                                                   (* { strategy, serverData, localData } *)
| PData (data : ServerData.t).                     (* { data } *)

(** The payload of an event about a record as the server sent it: the
    record itself. *)
Definition received_payload {A} (wrap : A -> Payload) (r : Received.t A) : Payload :=
  wrap (Received.value r).

Inductive Source := local | server.

Record RealtimeEvent := mkEvent {
  ev_type : string;
  ev_payload : Payload;
  ev_timestamp : Z;
  ev_source : Source
}.

#[global] Instance Source_eq_dec : EqDecision Source.
Proof. solve_decision. Defined.
#[global] Instance Received_eq_dec {A} `{EqDecision A} : EqDecision (Received.t A).
Proof. solve_decision. Defined.
#[global] Instance ServerData_eq_dec : EqDecision ServerData.t.
Proof. solve_decision. Defined.
#[global] Instance Counts_eq_dec : EqDecision Counts.t.
Proof. solve_decision. Defined.
#[global] Instance ChangeCounts_eq_dec : EqDecision ChangeCounts.
Proof. solve_decision. Defined.

(** ** Exceptions *)

(** A thrown JavaScript value: an [Error] with its message, or anything else
    (for which [error instanceof Error] is false). *)
Inductive Thrown :=
| ErrorObject (message : string)
| NonError.

Inductive Result (A : Type) :=
| Ok (a : A)
| Throw (t : Thrown).
Arguments Ok {A} a.
Arguments Throw {A} t.

(** A computation over a state [S] that returns or throws; the effects made
    before a throw stay. *)
Definition M (S A : Type) : Type := S -> S * Result A.

Definition ret {S A} (a : A) : M S A := fun s => (s, Ok a).

Definition bind {S A B} (m : M S A) (k : A -> M S B) : M S B :=
  fun s =>
    match m s with
    | (s', Ok a) => k a s'
    | (s', Throw t) => (s', Throw t)
    end.

Definition throw {S A} (t : Thrown) : M S A := fun s => (s, Throw t).

(** [try { m } catch (error) { h error }] *)
Definition try_catch {S A} (m : M S A) (h : Thrown -> M S A) : M S A :=
  fun s =>
    match m s with
    | (s', Ok a) => (s', Ok a)
    | (s', Throw t) => h t s'
    end.

Definition gets {S A} (f : S -> A) : M S A := fun s => (s, Ok (f s)).
Definition modify {S} (f : S -> S) : M S unit := fun s => (f s, Ok tt).

(** Run a computation on a component of the state. *)
Definition zoom {S T A} (get : S -> T) (set : T -> S -> S) (m : M T A) : M S A :=
  fun s => let (t', r) := m (get s) in (set t' s, r).

Declare Scope js_scope.
Delimit Scope js_scope with js.
Notation "'let*' x ':=' m 'in' k" := (bind m (fun x => k))
  (at level 10, x pattern, m at level 100, k at level 200) : js_scope.
Notation "m ';;' k" := (bind m (fun _ => k))
  (at level 100, k at level 200, right associativity) : js_scope.

(** [xs.forEach(f)]: stops at the first call that throws. *)
Fixpoint forEach {S A} (xs : list A) (f : A -> M S unit) : M S unit :=
  match xs with
  | [] => ret tt
  | x :: xs' => bind (f x) (fun _ => forEach xs' f)
  end.

(** [error instanceof Error ? error.message : fallback] *)
Definition message_or (fallback : string) (t : Thrown) : string :=
  match t with
  | ErrorObject m => m
  | NonError => fallback
  end.

(** ** The realtime hook ([useRealtimeSync]) *)

(** A subscribed function.  JavaScript compares functions by reference, so a
    listener carries its reference; calling it either returns or throws.
    Whatever else a listener does happens in the presentation layer and is
    not visible to the core. *)
Record Listener := mkListener {
  listener_ref : nat;
  listener_call : RealtimeEvent -> option Thrown
}.

(** What the runtime lets an observer see. *)
Inductive Obs :=
| Dispatched (ev : RealtimeEvent)           (* emit built the event *)
| Invoked (l : nat) (ev : RealtimeEvent)    (* listener(event) *)
| ConsoleError (label : string) (t : Thrown)
| ConsoleWarn (msg : string)
| ConsoleLog (msg : string)
| Compensated (id : string)                 (* update.revert() *)
| Uncaught (t : Thrown).                    (* an exception left a timer callback *)

Section Hook.
Context {W : Type}.

(** [() => void]: a closure over the environment [W] it can reach.  It
    returns the environment it leaves behind and the value it threw, if any. *)
Definition Closure : Type := W -> W * option Thrown.

Record OptimisticUpdate := mkUpdate {
  upd_id : string;
  upd_type : string;
  upd_data : Payload;
  upd_timestamp : Z;
  upd_revert : option Closure
}.

(** The refs of one hook instance together with the runtime around it: the
    clock read by [Date.now()], the queue of [setTimeout] callbacks that
    [addOptimisticUpdate] has scheduled (due time and captured id), the
    environment of the closures, and the trace. *)
Record HookState := mkHook {
  listeners : gmap string (list Listener);
  pendingUpdates : gmap string OptimisticUpdate;
  lastSync : Z;
  isOnline : bool;
  timeouts : list (Z * string);
  now : Z;
  env : W;
  trace : list Obs
}.

Definition set_listeners (f : gmap string (list Listener) -> gmap string (list Listener))
  (s : HookState) : HookState :=
  {| listeners := f (listeners s); pendingUpdates := pendingUpdates s;
     lastSync := lastSync s; isOnline := isOnline s; timeouts := timeouts s;
     now := now s; env := env s; trace := trace s |}.

Definition set_pendingUpdates (f : gmap string OptimisticUpdate -> gmap string OptimisticUpdate)
  (s : HookState) : HookState :=
  {| listeners := listeners s; pendingUpdates := f (pendingUpdates s);
     lastSync := lastSync s; isOnline := isOnline s; timeouts := timeouts s;
     now := now s; env := env s; trace := trace s |}.

Definition set_isOnline (b : bool) (s : HookState) : HookState :=
  {| listeners := listeners s; pendingUpdates := pendingUpdates s;
     lastSync := lastSync s; isOnline := b; timeouts := timeouts s;
     now := now s; env := env s; trace := trace s |}.

Definition set_timeouts (f : list (Z * string) -> list (Z * string))
  (s : HookState) : HookState :=
  {| listeners := listeners s; pendingUpdates := pendingUpdates s;
     lastSync := lastSync s; isOnline := isOnline s; timeouts := f (timeouts s);
     now := now s; env := env s; trace := trace s |}.

Definition set_now (t : Z) (s : HookState) : HookState :=
  {| listeners := listeners s; pendingUpdates := pendingUpdates s;
     lastSync := lastSync s; isOnline := isOnline s; timeouts := timeouts s;
     now := t; env := env s; trace := trace s |}.

Definition set_env (w : W) (s : HookState) : HookState :=
  {| listeners := listeners s; pendingUpdates := pendingUpdates s;
     lastSync := lastSync s; isOnline := isOnline s; timeouts := timeouts s;
     now := now s; env := w; trace := trace s |}.

Definition set_trace (f : list Obs -> list Obs) (s : HookState) : HookState :=
  {| listeners := listeners s; pendingUpdates := pendingUpdates s;
     lastSync := lastSync s; isOnline := isOnline s; timeouts := timeouts s;
     now := now s; env := env s; trace := f (trace s) |}.

Definition observe (o : Obs) : M HookState unit :=
  modify (set_trace (fun tr => tr ++ [o])).

(** [listener(event)] *)
Definition call_listener (l : Listener) (event : RealtimeEvent) : M HookState unit :=
  bind (observe (Invoked (listener_ref l) event))
    (fun _ => match listener_call l event with
              | Some t => throw t
              | None => ret tt
              end).

(** [f()] for a closure [f]. *)
Definition call_closure (f : Closure) : M HookState unit :=
  fun s =>
    let (w', r) := f (env s) in
    (set_env w' s, match r with Some t => Throw t | None => Ok tt end).

(** The set of listeners of one type, iterated with the label its [catch]
    block logs. *)
Definition notify (label : string) (set : option (list Listener))
  (event : RealtimeEvent) : M HookState unit :=
  match set with
  | Some ls =>
      forEach ls (fun listener =>
        try_catch (call_listener listener event)
                  (fun error => observe (ConsoleError label error)))
  | None => ret tt
  end.

Section Options.
(** [enableBroadcast], after the default of the options has been applied. *)
Variable enableBroadcast : bool.

Definition emit (type : string) (payload : Payload) (source : Source)
  : M HookState unit :=
  if negb enableBroadcast then ret tt
  else
    (let* t := gets now in
     let event := {| ev_type := type; ev_payload := payload;
                     ev_timestamp := t; ev_source := source |} in
     observe (Dispatched event);;
     (let* typeListeners := gets (fun s => listeners s !! type) in
      notify "Error in realtime event listener:" typeListeners event);;
     (* Emit to global listeners *)
     let* globalListeners := gets (fun s => listeners s !! "*") in
     notify "Error in global realtime event listener:" globalListeners event)%js.

(** [revertOptimisticUpdate] *)
Definition revertOptimisticUpdate (id : string) : M HookState unit :=
  (let* update := gets (fun s => pendingUpdates s !! id) in
   match update with
   | Some update =>
       match upd_revert update with
       | Some revert => (observe (Compensated id);; call_closure revert)
       | None => ret tt
       end;;
       modify (set_pendingUpdates (delete id));;
       emit ("reverted:" +:+ upd_type update)
            (PIdData id (upd_data update)) local
   | None => ret tt
   end)%js.

(** The body of the [setTimeout] callback of [addOptimisticUpdate]. *)
Definition timeoutCallback (id : string) : M HookState unit :=
  (let* has := gets (fun s => bool_decide (is_Some (pendingUpdates s !! id))) in
   if has : bool then
     observe (ConsoleWarn ("Optimistic update " +:+ id +:+ " timed out"));;
     revertOptimisticUpdate id
   else ret tt)%js.

(** [setTimeout(callback, delay)] for the callback above. *)
Definition setTimeout (id : string) (delay : Z) : M HookState unit :=
  modify (fun s => set_timeouts (fun q => q ++ [(now s + delay, id)]) s).

Definition addOptimisticUpdate (id type : string) (data : Payload)
  (revertFn : option Closure) : M HookState unit :=
  (let* t := gets now in
   let update := {| upd_id := id; upd_type := type; upd_data := data;
                    upd_timestamp := t; upd_revert := revertFn |} in
   modify (set_pendingUpdates <[id := update]>);;
   emit ("optimistic:" +:+ type) (PIdData id data) local;;
   (* Auto-remove after timeout if not confirmed *)
   setTimeout id 10000)%js.

Definition confirmOptimisticUpdate (id : string) : M HookState unit :=
  (let* update := gets (fun s => pendingUpdates s !! id) in
   match update with
   | Some update =>
       modify (set_pendingUpdates (delete id));;
       emit ("confirmed:" +:+ upd_type update)
            (PIdData id (upd_data update)) server
   | None => ret tt
   end)%js.

Definition handleOnline : M HookState unit :=
  (modify (set_isOnline true);; emit "network:online" PEmpty local)%js.

Definition handleOffline : M HookState unit :=
  (modify (set_isOnline false);; emit "network:offline" PEmpty local)%js.

(** [visible] is [document.visibilityState === 'visible']. *)
Definition handleVisibilityChange (visible : bool) : M HookState unit :=
  if visible then emit "app:focus" PEmpty local
  else emit "app:blur" PEmpty local.

End Options.

(** [Set.prototype.add]: a function already in the set is not added again. *)
Definition set_add (l : Listener) (ls : list Listener) : list Listener :=
  if existsb (fun l' => Nat.eqb (listener_ref l') (listener_ref l)) ls
  then ls else ls ++ [l].

Definition set_delete (l : Listener) (ls : list Listener) : list Listener :=
  List.filter (fun l' => negb (Nat.eqb (listener_ref l') (listener_ref l))) ls.

Definition subscribe (type : string) (listener : Listener) : M HookState unit :=
  modify (set_listeners (fun m =>
    let m' := match m !! type with
              | Some _ => m
              | None => <[type := []]> m
              end in
    alter (set_add listener) type m')).

(** The function that [subscribe] returns. *)
Definition unsubscribe (type : string) (listener : Listener) : M HookState unit :=
  modify (set_listeners (fun m =>
    match m !! type with
    | Some typeListeners =>
        let typeListeners' := set_delete listener typeListeners in
        if Nat.eqb (length typeListeners') 0 then delete type m
        else <[type := typeListeners']> m
    | None => m
    end)).

(** [Array.from(pendingUpdates.current.values())].  The array comes in key
    order here, not in insertion order; its callers only look at its length. *)
Definition getPendingUpdates (s : HookState) : list OptimisticUpdate :=
  (map_to_list (pendingUpdates s)).*2.

(** *** The timer queue *)

(** A macrotask: an exception that leaves it is reported by the runtime and
    goes nowhere else. *)
Definition run_task (m : M HookState unit) (s : HookState) : HookState :=
  match m s with
  | (s', Ok _) => s'
  | (s', Throw t) => set_trace (fun tr => tr ++ [Uncaught t]) s'
  end.

Definition is_due (t : Z) (entry : Z * string) : bool := Z.leb (fst entry) t.

(** The timers in [due] fire one after the other. *)
Definition fire_all (enableBroadcast : bool) (due : list (Z * string)) (s : HookState)
  : HookState :=
  fold_left (fun st e => run_task (timeoutCallback enableBroadcast (snd e)) st) due s.

(** [dt] milliseconds pass: the clock advances and every timeout that has come
    due fires, in the order in which it was scheduled. *)
Definition elapse (enableBroadcast : bool) (dt : N) (s : HookState) : HookState :=
  let t := now s + Z.of_N dt in
  let due := List.filter (is_due t) (timeouts s) in
  let rest := List.filter (fun e => negb (is_due t e)) (timeouts s) in
  fire_all enableBroadcast due (set_timeouts (fun _ => rest) (set_now t s)).

End Hook.

Arguments Closure W : clear implicits.
Arguments OptimisticUpdate W : clear implicits.
Arguments HookState W : clear implicits.

(** ** The realtime provider ([RealtimeContext]) *)

Record UseRealtimeSyncOptions := mkOptions {
  opt_syncInterval : option Z;
  opt_maxRetries : option Z;
  opt_enableBroadcast : option bool
}.

(** The defaults of the destructured options. *)
Definition syncInterval (o : UseRealtimeSyncOptions) : Z := default 30000 (opt_syncInterval o).
Definition maxRetries (o : UseRealtimeSyncOptions) : Z := default 3 (opt_maxRetries o).
Definition enableBroadcast (o : UseRealtimeSyncOptions) : bool :=
  default true (opt_enableBroadcast o).

(** [useRealtimeSync({ syncInterval: 30000, enableBroadcast: true })] *)
Definition providerOptions : UseRealtimeSyncOptions :=
  {| opt_syncInterval := Some 30000; opt_maxRetries := None;
     opt_enableBroadcast := Some true |}.

(** What [useRealtime()] hands to the application and to the sync provider. *)
Module Realtime.
Definition emit {W} := @emit W (enableBroadcast providerOptions).
Definition addOptimisticUpdate {W} := @addOptimisticUpdate W (enableBroadcast providerOptions).
Definition confirmOptimisticUpdate {W} :=
  @confirmOptimisticUpdate W (enableBroadcast providerOptions).
Definition revertOptimisticUpdate {W} :=
  @revertOptimisticUpdate W (enableBroadcast providerOptions).
Definition elapse {W} := @elapse W (enableBroadcast providerOptions).
End Realtime.

(** ** The optimistic CRUD flows ([AppContext]) *)

(** The store is the environment of the compensating closures. *)
Abbreviation AppWorld := (HookState AppState).

(** [dispatch(action)], applied at once. *)
Definition dispatch (action : Action) : M AppWorld unit :=
  fun s => (set_env (appReducer (env s) action) s, Ok tt).

(** [() => dispatch(action)] *)
Definition dispatch_closure (action : Action) : Closure AppState :=
  fun st => (appReducer st action, None).

(** What an awaited [errorHandler.fetchWithErrorHandling(...)] followed by
    [res.json()] comes back with.  The remote authority is a collaborator:
    its answer is an input. *)
Inductive Awaited (A : Type) :=
| Fulfilled (ok : bool) (json : Thrown + A)
| Rejected (t : Thrown).
Arguments Fulfilled {A} ok json.
Arguments Rejected {A} t.

(** [handleError(error, { context })]: logs; the toast belongs to the
    presentation layer. *)
Definition handleError (error : Thrown) : M AppWorld unit :=
  observe (ConsoleError "Error handled:" error).

Definition await_json {A} (json : Thrown + A) : M AppWorld A :=
  match json with
  | inl t => throw t
  | inr a => ret a
  end.

Definition with_engineer_id (e : Engineer.t) (i : string) : Engineer.t :=
  {| Engineer.id := i; Engineer.name := Engineer.name e;
     Engineer.email := Engineer.email e; Engineer.skills := Engineer.skills e;
     Engineer.seniorityLevel := Engineer.seniorityLevel e;
     Engineer.employmentType := Engineer.employmentType e;
     Engineer.capacity := Engineer.capacity e;
     Engineer.currentAllocation := Engineer.currentAllocation e;
     Engineer.avatar := Engineer.avatar e; Engineer.joinDate := Engineer.joinDate e;
     Engineer.department := Engineer.department e |}.

(** [`temp-${Date.now()}`] *)
Definition temp_id (t : Z) : string := "temp-" +:+ pretty t.

(** [addEngineer], up to its [await].  [state] is the state of the render
    whose closure is running; it is what the compensating closure captures.
    Returns [tempId]. *)
Definition addEngineer_begin (state : AppState) (engineerData : Engineer.t)
  : M AppWorld string :=
  (let* t := gets now in
   let tempId := temp_id t in
   let optimisticEngineer := with_engineer_id engineerData tempId in
   (* Optimistic update *)
   dispatch (ADD_ENGINEER optimisticEngineer);;
   Realtime.addOptimisticUpdate tempId "engineer:add" (PEngineer optimisticEngineer)
     (Some (dispatch_closure
        (SET_ENGINEERS
           (filter (fun e => Engineer.id e ≠ tempId) (engineers state)))));;
   (* Emit real-time event *)
   Realtime.emit "engineer:added" (PEngineer optimisticEngineer) local;;
   ret tempId)%js.

(** [addEngineer], from the point where the awaited call settles. *)
Definition addEngineer_settle (tempId : string) (res : Awaited PartialEngineer.t)
  : M AppWorld unit :=
  try_catch
    (match res with
     | Rejected t => throw t
     | Fulfilled ok json =>
         if ok then
           (let* engineer := await_json json in
            Realtime.confirmOptimisticUpdate tempId;;
            dispatch (UPDATE_ENGINEER tempId engineer);;
            Realtime.emit "engineer:confirmed" (PEngineerJson engineer) local)%js
         else
           (Realtime.revertOptimisticUpdate tempId;;
            throw (ErrorObject "Failed to add engineer"))%js
     end)
    (fun error =>
       (Realtime.revertOptimisticUpdate tempId;;
        Realtime.emit "engineer:error" (PError (message_or "Unknown error" error)) local;;
        throw error)%js).

(** [state.currentUser?.id || ''] *)
Definition currentUserId (state : AppState) : string :=
  match currentUser state with
  | Some u => User.id u
  | None => ""
  end.

(** The project under construction: [id], [createdAt] and [createdBy] are
    filled in by [addProject]. *)
Definition optimisticProject (projectData : Project.t) (tempId isoNow : string)
  (state : AppState) : Project.t :=
  {| Project.id := tempId; Project.name := Project.name projectData;
     Project.description := Project.description projectData;
     Project.startDate := Project.startDate projectData;
     Project.endDate := Project.endDate projectData;
     Project.requiredTeamSize := Project.requiredTeamSize projectData;
     Project.requiredSkills := Project.requiredSkills projectData;
     Project.status := Project.status projectData;
     Project.priority := Project.priority projectData;
     Project.createdBy := currentUserId state;
     Project.createdAt := isoNow |}.

(** [addProject], up to its [await]; [isoNow] is [new Date().toISOString()]. *)
Definition addProject_begin (state : AppState) (projectData : Project.t)
  (isoNow : string) : M AppWorld string :=
  (let* t := gets now in
   let tempId := temp_id t in
   let optimistic := optimisticProject projectData tempId isoNow state in
   dispatch (ADD_PROJECT optimistic);;
   Realtime.addOptimisticUpdate tempId "project:add" (PProject optimistic)
     (Some (dispatch_closure
        (SET_PROJECTS
           (filter (fun p => Project.id p ≠ tempId) (projects state)))));;
   Realtime.emit "project:added" (PProject optimistic) local;;
   ret tempId)%js.

Definition addProject_settle (tempId : string) (res : Awaited PartialProject.t)
  : M AppWorld unit :=
  try_catch
    (match res with
     | Rejected t => throw t
     | Fulfilled _ json =>
         (let* project := await_json json in
          Realtime.confirmOptimisticUpdate tempId;;
          dispatch (UPDATE_PROJECT tempId project);;
          Realtime.emit "project:confirmed" (PProjectJson project) local)%js
     end)
    (fun error =>
       (Realtime.revertOptimisticUpdate tempId;;
        handleError error;;
        Realtime.emit "project:error" (PError (message_or "Unknown error" error)) local;;
        throw error)%js).

Definition optimisticAssignment (assignmentData : Assignment.t) (tempId isoNow : string)
  (state : AppState) : Assignment.t :=
  {| Assignment.id := tempId;
     Assignment.engineerId := Assignment.engineerId assignmentData;
     Assignment.projectId := Assignment.projectId assignmentData;
     Assignment.allocationPercentage := Assignment.allocationPercentage assignmentData;
     Assignment.startDate := Assignment.startDate assignmentData;
     Assignment.endDate := Assignment.endDate assignmentData;
     Assignment.role := Assignment.role assignmentData;
     Assignment.notes := Assignment.notes assignmentData;
     Assignment.createdAt := Some isoNow;
     Assignment.createdBy := Some (currentUserId state) |}.

(** [addAssignment], up to its [await]. *)
Definition addAssignment_begin (state : AppState) (assignmentData : Assignment.t)
  (isoNow : string) : M AppWorld string :=
  (let* t := gets now in
   let tempId := temp_id t in
   let optimistic := optimisticAssignment assignmentData tempId isoNow state in
   dispatch (ADD_ASSIGNMENT optimistic);;
   Realtime.addOptimisticUpdate tempId "assignment:add" (PAssignment optimistic)
     (Some (dispatch_closure (REMOVE_ASSIGNMENT tempId)));;
   Realtime.emit "assignment:added" (PAssignment optimistic) local;;
   ret tempId)%js.

Definition addAssignment_settle (tempId : string) (res : Awaited Assignment.t)
  : M AppWorld unit :=
  try_catch
    (match res with
     | Rejected t => throw t
     | Fulfilled _ json =>
         (let* assignment := await_json json in
          Realtime.confirmOptimisticUpdate tempId;;
          dispatch (REMOVE_ASSIGNMENT tempId);;
          dispatch (ADD_ASSIGNMENT assignment);;
          Realtime.emit "assignment:confirmed" (PAssignment assignment) local)%js
     end)
    (fun error =>
       (Realtime.revertOptimisticUpdate tempId;;
        handleError error;;
        Realtime.emit "assignment:error" (PError (message_or "Unknown error" error)) local;;
        throw error)%js).

(** ** The reconciliation engine ([BackgroundSyncContext]) *)

(** The refs of the sync provider next to the realtime hook it uses. *)
Record SyncState := mkSync {
  hook : AppWorld;
  lastSyncDataRef : option ServerData.t;
  isAutoSyncEnabledRef : bool
}.

Definition set_hook (h : AppWorld) (s : SyncState) : SyncState :=
  {| hook := h; lastSyncDataRef := lastSyncDataRef s;
     isAutoSyncEnabledRef := isAutoSyncEnabledRef s |}.

Definition set_lastSyncDataRef (d : option ServerData.t) (s : SyncState) : SyncState :=
  {| hook := hook s; lastSyncDataRef := d;
     isAutoSyncEnabledRef := isAutoSyncEnabledRef s |}.

(** A hook or store operation run from the sync provider. *)
Definition in_hook {A} (m : M AppWorld A) : M SyncState A := zoom hook set_hook m.

(** One [fetch(...)] followed by [.json()]: the promise rejects, or resolves
    to a response with its [ok] flag and the outcome of parsing its body. *)
Inductive Fetched (A : Type) :=
| FetchRejected (t : Thrown)
| FetchResponse (ok : bool) (json : Thrown + A).
Arguments FetchRejected {A} t.
Arguments FetchResponse {A} ok json.

(** The answers of the remote authority to one round of three requests. *)
Record Network := mkNetwork {
  net_engineers : Fetched (list (Received.t Engineer.t));
  net_projects : Fetched (list (Received.t Project.t));
  net_assignments : Fetched (list (Received.t Assignment.t))
}.

Definition rejection {A} (f : Fetched A) : option Thrown :=
  match f with
  | FetchRejected t => Some t
  | FetchResponse _ _ => None
  end.

Definition response_ok {A} (f : Fetched A) : bool :=
  match f with
  | FetchRejected _ => false
  | FetchResponse ok _ => ok
  end.

Definition response_json {A} (f : Fetched A) : Thrown + A :=
  match f with
  | FetchRejected t => inl t
  | FetchResponse _ json => json
  end.

(** [!value] for a [string | null]: null and the empty string are falsy. *)
Definition falsy_string (o : option string) : bool :=
  match o with
  | Some s => String.eqb s ""
  | None => true
  end.

(** [fetchServerData].  [Promise.all] rejects with the reason of the promise
    that rejects first; the requests are taken to settle in the order in which
    they were issued. *)
Definition fetchServerData (app : AppState) (net : Network) : Thrown + ServerData.t :=
  if falsy_string (token app) then inl (ErrorObject "No authentication token")
  else
    match rejection (net_engineers net), rejection (net_projects net),
          rejection (net_assignments net) with
    | Some t, _, _ | None, Some t, _ | None, None, Some t => inl t
    | None, None, None =>
        if negb (response_ok (net_engineers net))
           || negb (response_ok (net_projects net))
           || negb (response_ok (net_assignments net))
        then inl (ErrorObject "Failed to fetch server data")
        else
          match response_json (net_engineers net), response_json (net_projects net),
                response_json (net_assignments net) with
          | inl t, _, _ | inr _, inl t, _ | inr _, inr _, inl t => inl t
          | inr es, inr ps, inr asg =>
              inr {| ServerData.engineers := es; ServerData.projects := ps;
                     ServerData.assignments := asg |}
          end
    end.

(** [resolveConflicts]: server wins.  [emit] is called without a source. *)
Definition resolveConflicts (serverData : ServerData.t) (localData : Payload)
  : M SyncState ServerData.t :=
  (in_hook (observe (ConsoleLog "🔄 Resolving conflicts between server and local data"));;
   in_hook (Realtime.emit "sync:conflict-resolved"
              (PConflict "server-wins" serverData localData) local);;
   ret serverData)%js.

(** The three classifications of [checkForChanges], for one collection with
    its [id] accessor and with what [JSON.stringify] gives for its records. *)
Section Diff.
Context {A : Type} (id : A -> string) (stringify : A -> string).

Definition find_by_id (i : string) (l : list A) : option A :=
  List.find (fun x => String.eqb (id x) i) l.

(** [newItems.filter(e => !oldItems.find(old => old.id === e.id))] *)
Definition newItems (newL oldL : list A) : list A :=
  List.filter (fun e => negb (bool_decide (is_Some (find_by_id (id e) oldL)))) newL.

(** [oldItems.filter(e => !newItems.find(new_ => new_.id === e.id))] *)
Definition removedItems (newL oldL : list A) : list A :=
  List.filter (fun e => negb (bool_decide (is_Some (find_by_id (id e) newL)))) oldL.

(** [newItems.filter(e => { const old = ...find(...); return old && stringify(old) !== stringify(e) })] *)
Definition updatedItems (newL oldL : list A) : list A :=
  List.filter (fun e =>
    match find_by_id (id e) oldL with
    | Some old => negb (String.eqb (stringify old) (stringify e))
    | None => false
    end) newL.
End Diff.

Definition emit_each {A} (type : string) (wrap : A -> Payload) (l : list A)
  : M SyncState unit :=
  forEach l (fun x => in_hook (Realtime.emit type (wrap x) server)).

Definition nonzero (n : nat) : bool := negb (Nat.eqb n 0).

(** [checkForChanges(newData, oldData)] *)
Definition checkForChanges (newData : ServerData.t) (oldData : option ServerData.t)
  : M SyncState unit :=
  match oldData with
  | None => ret tt
  | Some oldData =>
      (* Check for new items *)
      let newEngineers :=
        newItems (received_id Engineer.id) (ServerData.engineers newData)
          (ServerData.engineers oldData) in
      let newProjects :=
        newItems (received_id Project.id) (ServerData.projects newData)
          (ServerData.projects oldData) in
      let newAssignments :=
        newItems (received_id Assignment.id) (ServerData.assignments newData)
          (ServerData.assignments oldData) in
      (* Check for removed items *)
      let removedEngineers :=
        removedItems (received_id Engineer.id) (ServerData.engineers newData)
          (ServerData.engineers oldData) in
      let removedProjects :=
        removedItems (received_id Project.id) (ServerData.projects newData)
          (ServerData.projects oldData) in
      let removedAssignments :=
        removedItems (received_id Assignment.id) (ServerData.assignments newData)
          (ServerData.assignments oldData) in
      (* Check for updated items *)
      let updatedEngineers :=
        updatedItems (received_id Engineer.id) Received.text (ServerData.engineers newData)
          (ServerData.engineers oldData) in
      let updatedProjects :=
        updatedItems (received_id Project.id) Received.text (ServerData.projects newData)
          (ServerData.projects oldData) in
      let updatedAssignments :=
        updatedItems (received_id Assignment.id) Received.text (ServerData.assignments newData)
          (ServerData.assignments oldData) in
      (* Emit events for external changes (from other users) *)
      (emit_each "external:engineer:added" (received_payload PEngineer) newEngineers;;
       emit_each "external:project:added" (received_payload PProject) newProjects;;
       emit_each "external:assignment:added" (received_payload PAssignment) newAssignments;;
       emit_each "external:engineer:removed" (received_payload PEngineer) removedEngineers;;
       emit_each "external:project:removed" (received_payload PProject) removedProjects;;
       emit_each "external:assignment:removed" (received_payload PAssignment) removedAssignments;;
       emit_each "external:engineer:updated" (received_payload PEngineer) updatedEngineers;;
       emit_each "external:project:updated" (received_payload PProject) updatedProjects;;
       emit_each "external:assignment:updated" (received_payload PAssignment) updatedAssignments;;
       if nonzero (length newEngineers) || nonzero (length newProjects)
          || nonzero (length newAssignments)
          || nonzero (length removedEngineers) || nonzero (length removedProjects)
          || nonzero (length removedAssignments)
          || nonzero (length updatedEngineers) || nonzero (length updatedProjects)
          || nonzero (length updatedAssignments)
       then
         in_hook (Realtime.emit "external:changes-detected"
           (PChanges
              {| added :=
                   {| Counts.engineers := length newEngineers;
                      Counts.projects := length newProjects;
                      Counts.assignments := length newAssignments |};
                 removed :=
                   {| Counts.engineers := length removedEngineers;
                      Counts.projects := length removedProjects;
                      Counts.assignments := length removedAssignments |};
                 updated :=
                   {| Counts.engineers := length updatedEngineers;
                      Counts.projects := length updatedProjects;
                      Counts.assignments := length updatedAssignments |} |})
           server)
       else ret tt)%js
  end.

(** [{ engineers: app.engineers, projects: app.projects, assignments: app.assignments }] *)
Definition currentData (app : AppState) : Payload :=
  PCollections (engineers app) (projects app) (assignments app).

Definition commit (data : ServerData.t) : M SyncState unit :=
  (in_hook (dispatch (SET_ENGINEERS (map Received.value (ServerData.engineers data))));;
   in_hook (dispatch (SET_PROJECTS (map Received.value (ServerData.projects data))));;
   in_hook (dispatch (SET_ASSIGNMENTS
                        (map Received.value (ServerData.assignments data)))))%js.

(** [performSync].  [app] is the value of [useApp()] in the render whose
    closure is running; [net] is what the remote authority answers.  The
    [await] resumes at once: nothing else runs between [sync:start] and the
    rest of the sync. *)
Definition performSync (app : AppState) (net : Network) : M SyncState unit :=
  if negb (bool_decide (is_Some (currentUser app))) || falsy_string (token app)
  then ret tt
  else
    try_catch
      (in_hook (Realtime.emit "sync:start" PEmpty local);;
       let* serverData :=
         match fetchServerData app net with
         | inl t => throw t
         | inr d => ret d
         end in
       let currentData := currentData app in
       (* Check for external changes *)
       (let* last := gets lastSyncDataRef in
        match last with
        | Some _ => checkForChanges serverData last
        | None => ret tt
        end);;
       (* Check for conflicts with pending optimistic updates *)
       let* pendingUpdates := gets (fun s => getPendingUpdates (hook s)) in
       (if nonzero (length pendingUpdates) then
          let* resolvedData := resolveConflicts serverData currentData in
          (* Update app state with resolved data *)
          commit resolvedData
        else
          (* No conflicts, just update with server data *)
          commit serverData);;
       (* Store current data for next comparison *)
       modify (set_lastSyncDataRef (Some serverData));;
       in_hook (Realtime.emit "sync:complete" (PData serverData) server))%js
      (fun error =>
         (in_hook (observe (ConsoleError "Background sync failed:" error));;
          in_hook (Realtime.emit "sync:error"
                     (PError (message_or "Unknown sync error" error)) local))%js).

(** [forceSync] *)
Definition forceSync (app : AppState) (net : Network) : M SyncState unit :=
  performSync app net.

(** ** Sequences of operations on one hook instance *)

Inductive Op (W : Type) :=
| OpEmit (type : string) (payload : Payload) (source : Source)
| OpSubscribe (type : string) (listener : Listener)
| OpUnsubscribe (type : string) (listener : Listener)
| OpAdd (id type : string) (data : Payload) (revertFn : option (Closure W))
| OpConfirm (id : string)
| OpRevert (id : string)
| OpElapse (dt : N).
Arguments OpEmit {W}.
Arguments OpSubscribe {W}.
Arguments OpUnsubscribe {W}.
Arguments OpAdd {W}.
Arguments OpConfirm {W}.
Arguments OpRevert {W}.
Arguments OpElapse {W}.

(** One operation, as its caller leaves the hook: an exception goes to the
    caller, the effects made before it stay. *)
Definition run_op {W} (eb : bool) (op : Op W) (s : HookState W) : HookState W :=
  match op with
  | OpEmit type payload source => fst (emit eb type payload source s)
  | OpSubscribe type l => fst (subscribe type l s)
  | OpUnsubscribe type l => fst (unsubscribe type l s)
  | OpAdd id type data revertFn => fst (addOptimisticUpdate eb id type data revertFn s)
  | OpConfirm id => fst (confirmOptimisticUpdate eb id s)
  | OpRevert id => fst (revertOptimisticUpdate eb id s)
  | OpElapse dt => elapse eb dt s
  end.

Definition run_ops {W} (eb : bool) (ops : list (Op W)) (s : HookState W) : HookState W :=
  fold_left (fun st op => run_op eb op st) ops s.

(** The operation is not a registration, confirmation or revert of [id]. *)
Definition foreign {W} (id : string) (op : Op W) : bool :=
  match op with
  | OpAdd i _ _ _ | OpConfirm i | OpRevert i => negb (String.eqb i id)
  | _ => true
  end.

Definition elapsed {W} (ops : list (Op W)) : Z :=
  foldr (fun op acc => match op with OpElapse dt => Z.of_N dt + acc | _ => acc end) 0 ops.

(** A fresh hook instance: empty refs, no timer, an empty trace. *)
Definition freshHook {W} (w : W) (t : Z) (online : bool) : HookState W :=
  {| listeners := ∅; pendingUpdates := ∅; lastSync := t; isOnline := online;
     timeouts := []; now := t; env := w; trace := [] |}.

(** ** Reading the trace *)

Definition add_trace {W} (os : list Obs) (s : HookState W) : HookState W :=
  set_trace (fun tr => tr ++ os) s.

(** The events that [emit] built, oldest first. *)
Definition events (tr : list Obs) : list RealtimeEvent :=
  omap (fun o => match o with Dispatched ev => Some ev | _ => None end) tr.

(** The listener invocations, oldest first. *)
Definition invocations (tr : list Obs) : list (nat * RealtimeEvent) :=
  omap (fun o => match o with Invoked l ev => Some (l, ev) | _ => None end) tr.

(** How often the compensation of [id] was called. *)
Definition compensations (id : string) (tr : list Obs) : nat :=
  length (List.filter
            (fun o => match o with Compensated i => String.eqb i id | _ => false end) tr).

Definition events_of_type (type : string) (evs : list RealtimeEvent) : list RealtimeEvent :=
  List.filter (fun ev => String.eqb (ev_type ev) type) evs.

(** What one listener set adds to the trace for one event: every listener is
    invoked, and a listener that throws is followed by the logged error. *)
Definition notify_obs (label : string) (ls : list Listener) (event : RealtimeEvent)
  : list Obs :=
  flat_map (fun l =>
    Invoked (listener_ref l) event ::
    match listener_call l event with
    | Some t => [ConsoleError label t]
    | None => []
    end) ls.

(** What one broadcast adds to the trace. *)
Definition emit_obs {W} (type : string) (payload : Payload) (source : Source)
  (s : HookState W) : list Obs :=
  let event := {| ev_type := type; ev_payload := payload;
                  ev_timestamp := now s; ev_source := source |} in
  Dispatched event
  :: notify_obs "Error in realtime event listener:" (default [] (listeners s !! type)) event
  ++ notify_obs "Error in global realtime event listener:"
       (default [] (listeners s !! "*")) event.

(** The closure returns normally from every environment. *)
Definition returns_normally {W} (revertFn : option (Closure W)) : Prop :=
  match revertFn with
  | Some f => forall w, snd (f w) = None
  | None => True
  end.

(** How many calls of its compensation a revert of the entry makes. *)
Definition compensation_due {W} (revertFn : option (Closure W)) : nat :=
  match revertFn with
  | Some _ => 1
  | None => 0
  end.

Definition names (id : string) (e : Z * string) : bool := String.eqb (snd e) id.

(** ** Collections keyed by id *)

Definition keyed_by_id (d : ServerData.t) : Prop :=
  NoDup (map (received_id Engineer.id) (ServerData.engineers d))
  /\ NoDup (map (received_id Project.id) (ServerData.projects d))
  /\ NoDup (map (received_id Assignment.id) (ServerData.assignments d)).

Definition zero_counts : Counts.t :=
  {| Counts.engineers := 0; Counts.projects := 0; Counts.assignments := 0 |}.

(** ** Observations of the bus and of the tracker *)

(** The errors that were logged, oldest first. *)
Definition logged (tr : list Obs) : list Thrown :=
  omap (fun o => match o with ConsoleError _ t => Some t | _ => None end) tr.

(** What the bus itself puts on the trace. *)
Definition bus_obs (o : Obs) : bool :=
  match o with
  | Dispatched _ | Invoked _ _ | ConsoleError _ _ => true
  | _ => false
  end.

(** The trace without what the bus put on it, and the part the bus put on it. *)
Definition quiet (tr : list Obs) : list Obs := List.filter (fun o => negb (bus_obs o)) tr.
Definition loud (tr : list Obs) : list Obs := List.filter bus_obs tr.

(** Two hook states that differ at most in what the bus put on the trace. *)
Definition same_but_bus {W} (a b : HookState W) : Prop :=
  listeners a = listeners b /\ pendingUpdates a = pendingUpdates b
  /\ lastSync a = lastSync b /\ isOnline a = isOnline b
  /\ timeouts a = timeouts b /\ now a = now b /\ env a = env b
  /\ quiet (trace a) = quiet (trace b).

(** Every entry is stored under its own id. *)
Definition keyed {W} (m : gmap string (OptimisticUpdate W)) : Prop :=
  forall k u, m !! k = Some u -> upd_id u = k.

(** ** Statements about the tracker and the bus *)

(** Registering an id that is already tracked changes nothing. *)
Definition add_is_noop_when_present : Prop :=
  forall (W : Type) (eb : bool) (s : HookState W) id type data revertFn,
    is_Some (pendingUpdates s !! id) ->
    addOptimisticUpdate eb id type data revertFn s = (s, Ok tt).

(** What ten seconds without confirmation or revert lead to, for the entry
    registered in [s]. *)
Definition expired_once {W} (eb : bool) (s : HookState W) (id type : string)
  (data : Payload) (revertFn : option (Closure W)) (ops : list (Op W)) : Prop :=
  let s2 := run_ops eb ops (run_op eb (OpAdd id type data revertFn) s) in
  pendingUpdates s2 !! id = None
  /\ compensations id (trace s2)
     = (compensations id (trace s) + compensation_due revertFn)%nat
  /\ confirmOptimisticUpdate eb id s2 = (s2, Ok tt)
  /\ revertOptimisticUpdate eb id s2 = (s2, Ok tt)
  /\ timeoutCallback eb id s2 = (s2, Ok tt).

(** Every entry left alone for ten seconds is reverted exactly once. *)
Definition every_entry_expires_once : Prop :=
  forall (W : Type) (eb : bool) (s : HookState W) id type data revertFn ops,
    forallb (foreign id) ops = true ->
    10000 <= elapsed ops ->
    expired_once eb s id type data revertFn ops.

(** The [reverted:<kind>] event of an entry, built at time [t]. *)
Definition reverted_event {W} (u : OptimisticUpdate W) (id : string) (t : Z)
  : RealtimeEvent :=
  {| ev_type := "reverted:" +:+ upd_type u; ev_payload := PIdData id (upd_data u);
     ev_timestamp := t; ev_source := local |}.

(** A throwing compensation is contained: the revert returns, the error is
    logged, the entry is removed and the event is emitted. *)
Definition compensation_errors_contained : Prop :=
  forall (W : Type) (s : HookState W) id u f t,
    pendingUpdates s !! id = Some u ->
    upd_revert u = Some f ->
    snd (f (env s)) = Some t ->
    let r := revertOptimisticUpdate true id s in
    snd r = Ok tt
    /\ t ∈ logged (trace (fst r))
    /\ pendingUpdates (fst r) !! id = None
    /\ events (trace (fst r)) = events (trace s) ++ [reverted_event u id (now s)].

(** The listeners that an event of [type] is meant for: those of the exact
    type, then those of the wildcard. *)
Definition audience {W} (s : HookState W) (type : string) : list Listener :=
  default [] (listeners s !! type) ++ default [] (listeners s !! "*").

(** What [emit] owes its listeners, for a hook built with [eb]. *)
Definition delivers {W} (eb : bool) (s : HookState W) (type : string)
  (payload : Payload) (source : Source) : Prop :=
  let event := {| ev_type := type; ev_payload := payload;
                  ev_timestamp := now s; ev_source := source |} in
  let r := emit eb type payload source s in
  snd r = Ok tt
  /\ invocations (trace (fst r))
     = invocations (trace s) ++ map (fun l => (listener_ref l, event)) (audience s type)
  /\ logged (trace (fst r))
     = logged (trace s) ++ omap (fun l => listener_call l event) (audience s type).

(** Every [emit] reaches every listener. *)
Definition every_emit_delivers : Prop :=
  forall (W : Type) (eb : bool) (s : HookState W) type payload source,
    delivers eb s type payload source.

(** ** Observations of the reconciliation engine *)

Definition sync_add (os : list Obs) (s : SyncState) : SyncState :=
  set_hook (add_trace os (hook s)) s.

(** One event of [type] per record, all built at time [t] with source
    [server]. *)
Definition record_events {A} (t : Z) (type : string) (wrap : A -> Payload) (l : list A)
  : list RealtimeEvent :=
  map (fun x => {| ev_type := type; ev_payload := wrap x;
                   ev_timestamp := t; ev_source := server |}) l.

(** The number of records in each of the nine classifications. *)
Definition change_counts (newData oldData : ServerData.t) : ChangeCounts :=
  {| added :=
       {| Counts.engineers :=
            length (newItems (received_id Engineer.id) (ServerData.engineers newData)
                      (ServerData.engineers oldData));
          Counts.projects :=
            length (newItems (received_id Project.id) (ServerData.projects newData)
                      (ServerData.projects oldData));
          Counts.assignments :=
            length (newItems (received_id Assignment.id) (ServerData.assignments newData)
                      (ServerData.assignments oldData)) |};
     removed :=
       {| Counts.engineers :=
            length (removedItems (received_id Engineer.id) (ServerData.engineers newData)
                      (ServerData.engineers oldData));
          Counts.projects :=
            length (removedItems (received_id Project.id) (ServerData.projects newData)
                      (ServerData.projects oldData));
          Counts.assignments :=
            length (removedItems (received_id Assignment.id) (ServerData.assignments newData)
                      (ServerData.assignments oldData)) |};
     updated :=
       {| Counts.engineers :=
            length (updatedItems (received_id Engineer.id) Received.text
              (ServerData.engineers newData)
                      (ServerData.engineers oldData));
          Counts.projects :=
            length (updatedItems (received_id Project.id) Received.text
              (ServerData.projects newData)
                      (ServerData.projects oldData));
          Counts.assignments :=
            length (updatedItems (received_id Assignment.id) Received.text
              (ServerData.assignments newData)
                      (ServerData.assignments oldData)) |} |}.

Definition any_change (c : ChangeCounts) : bool :=
  nonzero (Counts.engineers (added c)) || nonzero (Counts.projects (added c))
  || nonzero (Counts.assignments (added c))
  || nonzero (Counts.engineers (removed c)) || nonzero (Counts.projects (removed c))
  || nonzero (Counts.assignments (removed c))
  || nonzero (Counts.engineers (updated c)) || nonzero (Counts.projects (updated c))
  || nonzero (Counts.assignments (updated c)).

Definition aggregate_event (t : Z) (c : ChangeCounts) : RealtimeEvent :=
  {| ev_type := "external:changes-detected"; ev_payload := PChanges c;
     ev_timestamp := t; ev_source := server |}.

(** The per-record events of a diff, in the order in which they are emitted. *)
Definition per_record_events (t : Z) (newData oldData : ServerData.t)
  : list RealtimeEvent :=
  record_events t "external:engineer:added" (received_payload PEngineer)
    (newItems (received_id Engineer.id) (ServerData.engineers newData)
      (ServerData.engineers oldData))
  ++ record_events t "external:project:added" (received_payload PProject)
       (newItems (received_id Project.id) (ServerData.projects newData)
         (ServerData.projects oldData))
  ++ record_events t "external:assignment:added" (received_payload PAssignment)
       (newItems (received_id Assignment.id) (ServerData.assignments newData)
          (ServerData.assignments oldData))
  ++ record_events t "external:engineer:removed" (received_payload PEngineer)
       (removedItems (received_id Engineer.id) (ServerData.engineers newData)
          (ServerData.engineers oldData))
  ++ record_events t "external:project:removed" (received_payload PProject)
       (removedItems (received_id Project.id) (ServerData.projects newData)
          (ServerData.projects oldData))
  ++ record_events t "external:assignment:removed" (received_payload PAssignment)
       (removedItems (received_id Assignment.id) (ServerData.assignments newData)
          (ServerData.assignments oldData))
  ++ record_events t "external:engineer:updated" (received_payload PEngineer)
       (updatedItems (received_id Engineer.id) Received.text (ServerData.engineers newData)
          (ServerData.engineers oldData))
  ++ record_events t "external:project:updated" (received_payload PProject)
       (updatedItems (received_id Project.id) Received.text (ServerData.projects newData)
          (ServerData.projects oldData))
  ++ record_events t "external:assignment:updated" (received_payload PAssignment)
       (updatedItems (received_id Assignment.id) Received.text (ServerData.assignments newData)
          (ServerData.assignments oldData)).

(** The events of a diff: the per-record events, then the aggregate if
    anything was classified. *)
Definition diff_events (t : Z) (newData oldData : ServerData.t) : list RealtimeEvent :=
  per_record_events t newData oldData
  ++ (if any_change (change_counts newData oldData)
      then [aggregate_event t (change_counts newData oldData)] else []).

(** The events of a sync that has a previous snapshot to diff against. *)
Definition external_events (t : Z) (newData : ServerData.t) (last : option ServerData.t)
  : list RealtimeEvent :=
  match last with
  | Some oldData => diff_events t newData oldData
  | None => []
  end.

(** There is a session to sync for. *)
Definition session_active (app : AppState) : Prop :=
  is_Some (currentUser app) /\ falsy_string (token app) = false.

Definition conflict_event (t : Z) (serverData : ServerData.t) (localData : Payload)
  : RealtimeEvent :=
  {| ev_type := "sync:conflict-resolved";
     ev_payload := PConflict "server-wins" serverData localData;
     ev_timestamp := t; ev_source := local |}.

(** The store after the three collections have been replaced. *)
Definition with_collections (st : AppState) (d : ServerData.t) : AppState :=
  {| currentUser := currentUser st;
     engineers := map Received.value (ServerData.engineers d);
     projects := map Received.value (ServerData.projects d);
     assignments := map Received.value (ServerData.assignments d);
     isLoading := isLoading st; token := token st |}.

Definition sync_start_event (t : Z) : RealtimeEvent :=
  {| ev_type := "sync:start"; ev_payload := PEmpty; ev_timestamp := t; ev_source := local |}.

Definition sync_complete_event (t : Z) (serverData : ServerData.t) : RealtimeEvent :=
  {| ev_type := "sync:complete"; ev_payload := PData serverData;
     ev_timestamp := t; ev_source := server |}.

Definition sync_error_event (t : Z) (error : Thrown) : RealtimeEvent :=
  {| ev_type := "sync:error"; ev_payload := PError (message_or "Unknown sync error" error);
     ev_timestamp := t; ev_source := local |}.

(** The events built between two traces of one run. *)
Definition events_since (before after : list Obs) : list RealtimeEvent :=
  drop (length (events before)) (events after).

(** The event reports an external change. *)
Definition external (ev : RealtimeEvent) : bool := String.prefix "external:" (ev_type ev).

(** What the diff step of a sync owes, for the events [evs] of the sync:
    the external events are those of the diff, each count of the aggregate is
    the number of per-record events of its category, and the aggregate is
    there exactly when something was classified. *)
Definition diff_step_sound (t : Z) (newData oldData : ServerData.t)
  (evs : list RealtimeEvent) : Prop :=
  let c := change_counts newData oldData in
  List.filter external evs = diff_events t newData oldData
  /\ length (events_of_type "external:engineer:added" evs) = Counts.engineers (added c)
  /\ length (events_of_type "external:project:added" evs) = Counts.projects (added c)
  /\ length (events_of_type "external:assignment:added" evs) = Counts.assignments (added c)
  /\ length (events_of_type "external:engineer:removed" evs) = Counts.engineers (removed c)
  /\ length (events_of_type "external:project:removed" evs) = Counts.projects (removed c)
  /\ length (events_of_type "external:assignment:removed" evs)
     = Counts.assignments (removed c)
  /\ length (events_of_type "external:engineer:updated" evs) = Counts.engineers (updated c)
  /\ length (events_of_type "external:project:updated" evs) = Counts.projects (updated c)
  /\ length (events_of_type "external:assignment:updated" evs)
     = Counts.assignments (updated c)
  /\ events_of_type "external:changes-detected" evs
     = (if any_change c then [aggregate_event t c] else []).

(** [newData] is [oldData] with the one record [e] put into [engineers]:
    the other records are there as they were sent before. *)
Definition one_new_engineer (e : Received.t Engineer.t) (newData oldData : ServerData.t)
  : Prop :=
  exists l1 l2,
    ServerData.engineers oldData = l1 ++ l2
    /\ ServerData.engineers newData = l1 ++ e :: l2
    /\ (received_id Engineer.id e
        ∉ map (received_id Engineer.id) (ServerData.engineers oldData))
    /\ ServerData.projects newData = ServerData.projects oldData
    /\ ServerData.assignments newData = ServerData.assignments oldData.

Definition one_added : ChangeCounts :=
  {| added := {| Counts.engineers := 1; Counts.projects := 0; Counts.assignments := 0 |};
     removed := zero_counts; updated := zero_counts |}.

(** The events of one successful sync over the answers [net]. *)
Definition sync_events (app : AppState) (net : Network) (s : SyncState)
  : list RealtimeEvent :=
  events_since (trace (hook s)) (trace (hook (fst (performSync app net s)))).

(** The diff of two snapshots that differ by one new engineer emits exactly
    one event named [external:engineers:added]. *)
Definition one_new_engineer_emits_plural : Prop :=
  forall app net s newData oldData e,
    session_active app ->
    fetchServerData app net = inr newData ->
    lastSyncDataRef s = Some oldData ->
    keyed_by_id oldData ->
    one_new_engineer e newData oldData ->
    events_of_type "external:engineers:added" (sync_events app net s)
    = [ {| ev_type := "external:engineers:added";
           ev_payload := PEngineer (Received.value e);
           ev_timestamp := now (hook s); ev_source := server |} ].

(** The conflict event carries the pending entries of the tracker, in some
    rendering of an entry as a payload. *)
Definition conflict_reports_pending_entries : Prop :=
  forall app net s serverData,
    session_active app ->
    fetchServerData app net = inr serverData ->
    getPendingUpdates (hook s) ≠ [] ->
    exists render : OptimisticUpdate AppState -> Payload,
      events_of_type "sync:conflict-resolved" (sync_events app net s)
      = [conflict_event (now (hook s)) serverData
           (PArray (map render (getPendingUpdates (hook s))))].

(** What a sync whose fetch fails with [t] leaves behind. *)
Definition failed_sync_keeps_state (app : AppState) (net : Network) (s : SyncState)
  (t : Thrown) : Prop :=
  let r := forceSync app net s in
  r = performSync app net s
  /\ snd r = Ok tt
  /\ env (hook (fst r)) = env (hook s)
  /\ lastSyncDataRef (fst r) = lastSyncDataRef s
  /\ pendingUpdates (hook (fst r)) = pendingUpdates (hook s)
  /\ timeouts (hook (fst r)) = timeouts (hook s)
  /\ sync_events app net s
     = [sync_start_event (now (hook s)); sync_error_event (now (hook s)) t].

(** What a successful sync does when the tracker has pending entries. *)
Definition server_wins (app : AppState) (net : Network) (s : SyncState)
  (serverData : ServerData.t) : Prop :=
  let r := performSync app net s in
  snd r = Ok tt
  /\ env (hook (fst r)) = with_collections (env (hook s)) serverData
  /\ lastSyncDataRef (fst r) = Some serverData
  /\ events_of_type "sync:conflict-resolved" (sync_events app net s)
     = [conflict_event (now (hook s)) serverData (currentData app)].

(** ** Sample values *)

(** A compensation that throws. *)
Definition failing_compensation {W} : Closure W :=
  fun w => (w, Some (ErrorObject "compensation failed")).

(** A listener that throws. *)
Definition failing_listener (ref : nat) : Listener :=
  {| listener_ref := ref; listener_call := fun _ => Some (ErrorObject "listener failed") |}.

Definition quiet_listener (ref : nat) : Listener :=
  {| listener_ref := ref; listener_call := fun _ => None |}.

Definition sample_user : User.t :=
  {| User.id := "m1"; User.name := "Mia"; User.email := "mia@example.com";
     User.role := role_manager; User.avatar := None |}.

Definition sample_engineer (id name : string) : Engineer.t :=
  {| Engineer.id := id; Engineer.name := name; Engineer.email := "eng@example.com";
     Engineer.skills := ["React"]; Engineer.seniorityLevel := senior;
     Engineer.employmentType := full_time; Engineer.capacity := 100;
     Engineer.currentAllocation := 0; Engineer.avatar := None;
     Engineer.joinDate := "2024-01-01"; Engineer.department := None |}.

Definition sample_assignment (id : string) (engineerId : EngineerRef) (percent : Z)
  : Assignment.t :=
  {| Assignment.id := id; Assignment.engineerId := engineerId;
     Assignment.projectId := ProjectIdString "p1";
     Assignment.allocationPercentage := percent;
     Assignment.startDate := "2024-01-01"; Assignment.endDate := "2024-06-30";
     Assignment.role := None; Assignment.notes := None;
     Assignment.createdAt := None; Assignment.createdBy := None |}.

(** A store with a session and the given engineers. *)
Definition sample_store (es : list Engineer.t) : AppState :=
  {| currentUser := Some sample_user; engineers := es; projects := [];
     assignments := []; isLoading := false; token := Some "jwt" |}.

(** Sample records as the server sends them.  The text stands for the JSON
    text: sample records that differ have different texts. *)
Definition sent_assignment (a : Assignment.t) : Received.t Assignment.t :=
  {| Received.value := a; Received.text := "assignment " +:+ Assignment.id a |}.

Definition sent_engineer (e : Engineer.t) : Received.t Engineer.t :=
  {| Received.value := e;
     Received.text := "engineer " +:+ Engineer.id e +:+ " " +:+ Engineer.name e |}.

(** The remote authority answers with the given engineers. *)
Definition answers (es : list Engineer.t) : Network :=
  {| net_engineers := FetchResponse true (inr (map sent_engineer es));
     net_projects := FetchResponse true (inr []);
     net_assignments := FetchResponse true (inr []) |}.

(** The remote authority cannot be reached. *)
Definition unreachable : Network :=
  {| net_engineers := FetchRejected (ErrorObject "Failed to fetch");
     net_projects := FetchRejected (ErrorObject "Failed to fetch");
     net_assignments := FetchRejected (ErrorObject "Failed to fetch") |}.

Definition snapshot (es : list Engineer.t) : ServerData.t :=
  {| ServerData.engineers := map sent_engineer es; ServerData.projects := [];
     ServerData.assignments := [] |}.

(** A sync provider over the hook [h], with [last] as its retained snapshot. *)
Definition sample_sync (h : AppWorld) (last : option ServerData.t) : SyncState :=
  {| hook := h; lastSyncDataRef := last; isAutoSyncEnabledRef := true |}.

(** A hook, offline or online, over a store with engineer [e1]. *)
Definition sample_hook (online : bool) : AppWorld :=
  freshHook (sample_store [sample_engineer "e1" "Ada"]) 0 online.

(** The same hook with one optimistic entry pending. *)
Definition sample_hook_pending : AppWorld :=
  run_op true
    (OpAdd "temp-0" "engineer:add" (PEngineer (sample_engineer "temp-0" "Bob")) None)
    (sample_hook true).

(** A store in which engineer [e1] has one assignment that refers to it by a
    populated object (40%) and one that refers to it by its bare id (70%). *)
Definition sample_workload_store : AppState :=
  {| currentUser := Some sample_user; engineers := [sample_engineer "e1" "Ada"];
     projects := [];
     assignments :=
       [ sample_assignment "a1"
           (EngineerPopulated {| PopulatedEngineer._id := "e1";
                                 PopulatedEngineer.name := "Ada";
                                 PopulatedEngineer.email := "eng@example.com" |}) 40;
         sample_assignment "a2" (EngineerIdString "e1") 70 ];
     isLoading := false; token := Some "jwt" |}.

(** An optimistic add of an engineer, then a second engineer arriving in the
    store, seen from the render in which the store held [e1] only. *)
Definition sample_add_then_other : AppWorld :=
  let store := sample_store [sample_engineer "e1" "Ada"] in
  let w1 := fst (addEngineer_begin store (sample_engineer "" "Bob")
                   (freshHook store 1000 true)) in
  fst (dispatch (ADD_ENGINEER (sample_engineer "e2" "Eve")) w1).

Definition sample_project (id name : string) : Project.t :=
  {| Project.id := id; Project.name := name; Project.description := "";
     Project.startDate := "2024-01-01"; Project.endDate := "2024-12-31";
     Project.requiredTeamSize := 3; Project.requiredSkills := ["React"];
     Project.status := active; Project.priority := high;
     Project.createdBy := "m1"; Project.createdAt := "2024-01-01T00:00:00.000Z" |}.

(** The same for a project, in a store without projects. *)
Definition sample_project_then_other : AppWorld :=
  let store := sample_store [sample_engineer "e1" "Ada"] in
  let w1 := fst (addProject_begin store (sample_project "" "Atlas")
                   "2024-01-01T00:00:00.000Z" (freshHook store 1000 true)) in
  fst (dispatch (ADD_PROJECT (sample_project "p2" "Borealis")) w1).

(** The same for an assignment. *)
Definition sample_assign_then_other : AppWorld :=
  let store := sample_store [sample_engineer "e1" "Ada"] in
  let w1 := fst (addAssignment_begin store
                   (sample_assignment "" (EngineerIdString "e1") 60)
                   "2024-01-01T00:00:00.000Z" (freshHook store 1000 true)) in
  fst (dispatch (ADD_ASSIGNMENT (sample_assignment "a2" (EngineerIdString "e1") 50)) w1).

(** ** The listener registry *)

(** The function of [l] is in the set [ls]. *)
Definition registered (l : Listener) (ls : list Listener) : Prop :=
  listener_ref l ∈ map listener_ref ls.

(** No type is mapped to an empty set, and no set holds a function twice. *)
Definition registry_ok {W} (s : HookState W) : Prop :=
  forall type ls,
    listeners s !! type = Some ls -> ls ≠ [] /\ NoDup (map listener_ref ls).

(** ** More of the optimistic CRUD flows ([AppContext]) *)

(** An [Engineer] passed where a [Partial<Engineer>] is expected: every
    property the record has is present. *)
Definition asPartialEngineer (e : Engineer.t) : PartialEngineer.t :=
  {| PartialEngineer.id := Some (Engineer.id e);
     PartialEngineer.name := Some (Engineer.name e);
     PartialEngineer.email := Some (Engineer.email e);
     PartialEngineer.skills := Some (Engineer.skills e);
     PartialEngineer.seniorityLevel := Some (Engineer.seniorityLevel e);
     PartialEngineer.employmentType := Some (Engineer.employmentType e);
     PartialEngineer.capacity := Some (Engineer.capacity e);
     PartialEngineer.currentAllocation := Some (Engineer.currentAllocation e);
     PartialEngineer.avatar := Engineer.avatar e;
     PartialEngineer.joinDate := Some (Engineer.joinDate e);
     PartialEngineer.department := Engineer.department e |}.

(** [`update-${id}-${Date.now()}`] *)
Definition update_id (id : string) (t : Z) : string :=
  "update-" +:+ id +:+ "-" +:+ pretty t.

(** [updateEngineer], up to its [await].  Returns [updateId], or nothing when
    the state of the render holds no engineer with the id. *)
Definition updateEngineer_begin (state : AppState) (id : string)
  (engineerData : PartialEngineer.t) : M AppWorld (option string) :=
  match List.find (fun e => String.eqb (Engineer.id e) id) (engineers state) with
  | None => ret None
  | Some currentEngineer =>
      (let* t := gets now in
       let updateId := update_id id t in
       (* Optimistic update *)
       dispatch (UPDATE_ENGINEER id engineerData);;
       Realtime.addOptimisticUpdate updateId "engineer:update"
         (PIdData id (PEngineerJson engineerData))
         (Some (dispatch_closure
            (UPDATE_ENGINEER id (asPartialEngineer currentEngineer))));;
       (* Emit real-time event *)
       Realtime.emit "engineer:updated" (PIdData id (PEngineerJson engineerData)) local;;
       ret (Some updateId))%js
  end.

(** [updateEngineer], from the point where the awaited call settles. *)
Definition updateEngineer_settle (id updateId : string) (res : Awaited PartialEngineer.t)
  : M AppWorld unit :=
  try_catch
    (match res with
     | Rejected t => throw t
     | Fulfilled _ json =>
         (let* updated := await_json json in
          Realtime.confirmOptimisticUpdate updateId;;
          dispatch (UPDATE_ENGINEER id updated);;
          Realtime.emit "engineer:confirmed" (PEngineerJson updated) local)%js
     end)
    (fun error =>
       (Realtime.revertOptimisticUpdate updateId;;
        handleError error;;
        Realtime.emit "engineer:error" (PError (message_or "Unknown error" error)) local;;
        throw error)%js).

(** [updateProject], from the point where the awaited call settles: there is
    no optimistic step before it. *)
Definition updateProject (id : string) (res : Awaited PartialProject.t) : M AppWorld unit :=
  try_catch
    (match res with
     | Rejected t => throw t
     | Fulfilled _ json =>
         (let* updated := await_json json in
          dispatch (UPDATE_PROJECT id updated))%js
     end)
    (fun error => (handleError error;; throw error)%js).

(** The error with which [addEngineer] ends, by what the awaited call came
    back with: a rejection, a response that is not ok, or a body that cannot
    be read. *)
Definition addEngineer_failure {A} (res : Awaited A) : option Thrown :=
  match res with
  | Rejected t => Some t
  | Fulfilled false _ => Some (ErrorObject "Failed to add engineer")
  | Fulfilled true (inl t) => Some t
  | Fulfilled true (inr _) => None
  end.

(** The error with which [addProject], [addAssignment] and [updateEngineer]
    end: a rejection or a body that cannot be read; the [ok] flag is not
    looked at. *)
Definition await_failure {A} (res : Awaited A) : option Thrown :=
  match res with
  | Rejected t => Some t
  | Fulfilled _ (inl t) => Some t
  | Fulfilled _ (inr _) => None
  end.

(** ** Error classes and the error handler ([types/errors.ts], [utils/errorHandler.ts]) *)

Module ErrorHandling.

(** The class of an [ApplicationError] object: the base class or one of its
    three subclasses. *)
Inductive ErrorClass :=
| ApplicationErrorClass
| NetworkErrorClass
| AuthenticationErrorClass
| ValidationErrorClass.

(** An instance of [ApplicationError]; [details] is kept as it was read. *)
Record ApplicationError := mkApplicationError {
  cls : ErrorClass;
  message : string;
  code : option string;
  statusCode : option Z;
  details : option string
}.

(** [new NetworkError(message)] *)
Definition NetworkError (message : string) : ApplicationError :=
  {| cls := NetworkErrorClass; message := message; code := Some "NETWORK_ERROR";
     statusCode := None; details := None |}.

(** [new AuthenticationError(message)] *)
Definition AuthenticationError (message : string) : ApplicationError :=
  {| cls := AuthenticationErrorClass; message := message; code := Some "AUTH_ERROR";
     statusCode := Some 401; details := None |}.

(** [new ValidationError(message)] *)
Definition ValidationError (message : string) : ApplicationError :=
  {| cls := ValidationErrorClass; message := message; code := Some "VALIDATION_ERROR";
     statusCode := Some 400; details := None |}.

Inductive ErrorSeverity := LOW | MEDIUM | HIGH | CRITICAL.

(** A caught value ([unknown]): an [ApplicationError], another [Error]
    (which may be a [TypeError]), a string, or anything else, of which only
    [String(error)] is looked at. *)
Inductive Caught :=
| IsApplicationError (e : ApplicationError)
| IsError (isTypeError : bool) (name message : string)
| IsString (s : string)
| IsOther (shown : string).

(** [errorUtils.getUserMessage] *)
Definition getUserMessage (error : Caught) : string :=
  match error with
  | IsApplicationError e => message e
  | IsError _ _ m => m
  | IsString s => s
  | IsOther _ => "An unexpected error occurred. Please try again."
  end.

(** [errorUtils.getSeverity] *)
Definition getSeverity (error : Caught) : ErrorSeverity :=
  match error with
  | IsApplicationError e =>
      match cls e with
      | AuthenticationErrorClass => HIGH
      | NetworkErrorClass => MEDIUM
      | ValidationErrorClass => LOW
      | ApplicationErrorClass => MEDIUM
      end
  | _ => MEDIUM
  end.

(** [errorUtils.isRetryable] *)
Definition isRetryable (error : Caught) : bool :=
  match error with
  | IsApplicationError e =>
      match cls e with
      | NetworkErrorClass => true
      | _ =>
          match statusCode e with
          | None => true
          | Some c => Z.leb 500 c
          end
      end
  | _ => false
  end.

(** The body of an error response, read as an [ApiError].  A [message] that
    is missing or empty is falsy. *)
Record ApiError := mkApiError {
  api_message : option string;
  api_code : option string;
  api_details : option string
}.

(** A [Response]: its status, its [ok] flag, and what [response.json()]
    gives, read as the record the caller expects and, for [parseApiError],
    as the body of an error: the promise rejects, or the body is [null]
    ([None]), or it is another JSON value, read as an [ApiError] (a value
    that is not an object has none of the three fields). *)
Record Response (A : Type) := mkResponse {
  status : Z;
  ok : bool;
  json : Thrown + A;
  errorData : Thrown + option ApiError
}.
Arguments status {A} r.
Arguments ok {A} r.
Arguments json {A} r.
Arguments errorData {A} r.

(** The error that the [switch] of [parseApiError] builds from the status
    and the body it read. *)
Definition apiError (status : Z) (errorData : ApiError) : ApplicationError :=
  let fallback := "Request failed with status " +:+ pretty status in
  let message :=
    if falsy_string (api_message errorData) then fallback
    else default fallback (api_message errorData) in
  if Z.eqb status 401 then AuthenticationError message
  else if Z.eqb status 422 || Z.eqb status 400
  then ValidationError message
  else if Z.eqb status 429
  then {| cls := ApplicationErrorClass;
          message := "Too many requests. Please try again later.";
          code := Some "RATE_LIMIT"; statusCode := Some 429; details := None |}
  else if Z.eqb status 500 || Z.eqb status 502 || Z.eqb status 503 || Z.eqb status 504
  then {| cls := ApplicationErrorClass;
          message := "Server error. Please try again later.";
          code := Some "SERVER_ERROR"; statusCode := Some status;
          details := None |}
  else {| cls := ApplicationErrorClass; message := message;
          code := api_code errorData; statusCode := Some status;
          details := api_details errorData |}.

(** [ErrorHandler.parseApiError].  Only [response.json()] is inside the
    [try]: when the body is [null], reading [errorData.message] throws a
    [TypeError], whose message [nullMessage] is worded by the engine, and no
    error is built. *)
Definition parseApiError {A} (nullMessage : string) (response : Response A)
  : Caught + ApplicationError :=
  match errorData response with
  | inl _ =>
      inr (apiError (status response)
             {| api_message :=
                  Some ("Request failed with status " +:+ pretty (status response));
                api_code := None; api_details := None |})
  | inr None => inl (IsError true "TypeError" nullMessage)
  | inr (Some errorData) => inr (apiError (status response) errorData)
  end.

(** [ErrorHandlerOptions]; of [retryAction] only its presence matters. *)
Record ErrorHandlerOptions := mkOptions {
  showToast : option bool;
  logError : option bool;
  context : option string;
  retryAction : bool
}.

(** What the handler does to the world outside. *)
Inductive Effect :=
| ConsoleErrorLogged (severity : ErrorSeverity) (component message : string)
| Toast (title description variant : string) (retry : bool)
| TokenRemoved
| LogoutDispatched.

(** [ErrorHandler.getErrorTitle] *)
Definition getErrorTitle (severity : ErrorSeverity) : string :=
  match severity with
  | CRITICAL => "Critical Error"
  | HIGH => "Error"
  | MEDIUM => "Warning"
  | LOW => "Notice"
  end.

(** [String(error)], the message that [formatForLogging] records. *)
Definition loggedMessage (error : Caught) : string :=
  match error with
  | IsApplicationError e => message e
  | IsError _ _ m => m
  | IsString s => s
  | IsOther shown => shown
  end.

(** [ErrorHandler.showErrorToast] *)
Definition showErrorToast (error : Caught) (retryAction : bool) : list Effect :=
  let message := getUserMessage error in
  let severity := getSeverity error in
  let isRetryable := isRetryable error in
  [Toast (getErrorTitle severity) message
     (match severity with LOW => "default" | _ => "destructive" end)
     (retryAction && isRetryable)].

(** [ErrorHandler.handleAuthError] *)
Definition handleAuthError : list Effect := [TokenRemoved; LogoutDispatched].

(** [ErrorHandler.handle] *)
Definition handle (error : Caught) (options : ErrorHandlerOptions) : list Effect :=
  let showToast := default true (showToast options) in
  let logError := default true (logError options) in
  let context := default "Unknown" (context options) in
  (if logError
   then [ConsoleErrorLogged (getSeverity error) context (loggedMessage error)]
   else [])
  ++ (if showToast then showErrorToast error (retryAction options) else [])
  ++ match error with
     | IsApplicationError e =>
         match cls e with
         | AuthenticationErrorClass => handleAuthError
         | _ => []
         end
     | _ => []
     end.

(** [message.includes(sub)] *)
Fixpoint includes (sub s : string) : bool :=
  String.prefix sub s
  || match s with
     | EmptyString => false
     | String _ s' => includes sub s'
     end.

(** What [fetch] comes back with. *)
Inductive FetchOutcome (A : Type) :=
| FetchThrows (error : Caught)
| FetchReturns (response : Response A).
Arguments FetchThrows {A} error.
Arguments FetchReturns {A} response.

(** [ErrorHandler.fetchWithErrorHandling]: the effects, and the value thrown
    or the response returned.  What is thrown inside the [try], by [fetch], by
    [parseApiError] or by the [throw error] after it, is caught by the one
    [catch]. *)
Definition fetchWithErrorHandling {A} (nullMessage : string) (fetched : FetchOutcome A)
  (errorOptions : ErrorHandlerOptions) : list Effect * (Caught + Response A) :=
  let caught (before : list Effect) (error : Caught) :=
    match error with
    | IsError true _ m =>
        if includes "fetch" m then
          let networkError :=
            IsApplicationError
              (NetworkError
                 "Unable to connect to server. Please check your internet connection.") in
          (before ++ handle networkError errorOptions, inl networkError)
        else (before ++ handle error errorOptions, inl error)
    | IsApplicationError _ => (before, inl error)
    | _ => (before ++ handle error errorOptions, inl error)
    end in
  match fetched with
  | FetchThrows error => caught [] error
  | FetchReturns response =>
      if negb (ok response) then
        match parseApiError nullMessage response with
        | inr e =>
            let error := IsApplicationError e in
            caught (handle error errorOptions) error
        | inl thrown => caught [] thrown
        end
      else ([], inr response)
  end.

(** What a caller's [catch (error)] sees of a caught value: its message if
    it is an [Error]. *)
Definition thrown (error : Caught) : Thrown :=
  match error with
  | IsApplicationError e => ErrorObject (message e)
  | IsError _ _ m => ErrorObject m
  | IsString _ | IsOther _ => NonError
  end.

(** [await errorHandler.fetchWithErrorHandling(...)] as the optimistic
    operations of the store see it. *)
Definition awaited {A} (result : Caught + Response A) : Awaited A :=
  match result with
  | inl error => Rejected (thrown error)
  | inr response => Fulfilled (ok response) (json response)
  end.

End ErrorHandling.

(** * Properties *)

(** Project a field out of a chain of field updates. *)
Ltac fields :=
  cbn [now timeouts listeners pendingUpdates env trace lastSync isOnline
       add_trace set_trace set_env set_pendingUpdates set_timeouts set_now
       set_listeners set_isOnline fst snd].

(** ** The event bus *)

Section BusFacts.
Context {W : Type}.
Implicit Types (s : HookState W) (os : list Obs).

Lemma add_trace_nil s : add_trace [] s = s.
Proof. destruct s; unfold add_trace, set_trace; simpl. by rewrite app_nil_r. Qed.

Lemma add_trace_app os1 os2 s :
  add_trace os2 (add_trace os1 s) = add_trace (os1 ++ os2) s.
Proof. unfold add_trace, set_trace; simpl. by rewrite app_assoc. Qed.

Lemma call_listener_caught label l event s :
  try_catch (call_listener l event)
    (fun error => observe (ConsoleError label error)) s
  = (add_trace (notify_obs label [l] event) s, Ok tt).
Proof.
  unfold try_catch, call_listener, bind, observe, modify, throw, ret, notify_obs.
  simpl. destruct (listener_call l event) as [t|]; simpl.
  - unfold add_trace, set_trace; simpl. by rewrite <- app_assoc.
  - reflexivity.
Qed.

Lemma notify_eq label set event s :
  notify label set event s
  = (add_trace (notify_obs label (default [] set) event) s, Ok tt).
Proof.
  destruct set as [ls|]; simpl; [|by rewrite add_trace_nil].
  revert s. induction ls as [|l ls IH]; intros s.
  - simpl. by rewrite add_trace_nil.
  - cbn [forEach]. unfold bind at 1.
    rewrite (call_listener_caught label l event s), IH, add_trace_app.
    unfold notify_obs; simpl. rewrite app_nil_r. reflexivity.
Qed.

Lemma emit_true_eq type payload source s :
  emit true type payload source s = (add_trace (emit_obs type payload source s) s, Ok tt).
Proof.
  unfold emit. cbn [negb]. unfold bind, gets, observe, modify.
  rewrite !notify_eq. unfold emit_obs. cbn [listeners add_trace set_trace].
  f_equal. change (set_trace (fun tr => tr ++ ?os) ?x) with (add_trace os x).
  rewrite !add_trace_app. reflexivity.
Qed.

Lemma emit_false_eq type payload source s :
  emit false type payload source s = (s, Ok tt).
Proof. reflexivity. Qed.

Lemma emit_eq eb type payload source s :
  emit eb type payload source s
  = (add_trace (if eb then emit_obs type payload source s else []) s, Ok tt).
Proof.
  destruct eb; [apply emit_true_eq|]. by rewrite add_trace_nil.
Qed.

Lemma compensations_app id os1 os2 :
  compensations id (os1 ++ os2) = (compensations id os1 + compensations id os2)%nat.
Proof. unfold compensations. by rewrite List.filter_app, length_app. Qed.

Lemma notify_obs_cons label l ls event :
  notify_obs label (l :: ls) event
  = notify_obs label [l] event ++ notify_obs label ls event.
Proof. unfold notify_obs; simpl. by rewrite app_nil_r. Qed.

Lemma compensations_notify_obs id label ls event :
  compensations id (notify_obs label ls event) = 0%nat.
Proof.
  induction ls as [|l ls IH]; [done|].
  rewrite notify_obs_cons, compensations_app, IH.
  unfold notify_obs; simpl. by destruct (listener_call l event).
Qed.

Lemma compensations_emit_obs id (eb : bool) type payload source s :
  compensations id (if eb then emit_obs type payload source s else []) = 0%nat.
Proof.
  destruct eb; [|done]. unfold emit_obs.
  change (Dispatched ?e :: ?l) with ([Dispatched e] ++ l).
  by rewrite !compensations_app, !compensations_notify_obs.
Qed.

Lemma events_app os1 os2 : events (os1 ++ os2) = events os1 ++ events os2.
Proof. unfold events. apply omap_app. Qed.

Lemma events_notify_obs label ls event : events (notify_obs label ls event) = [].
Proof.
  induction ls as [|l ls IH]; [done|].
  rewrite notify_obs_cons, events_app, IH.
  unfold notify_obs; simpl. by destruct (listener_call l event).
Qed.

Lemma events_emit_obs type payload source s :
  events (emit_obs type payload source s)
  = [ {| ev_type := type; ev_payload := payload;
         ev_timestamp := now s; ev_source := source |} ].
Proof.
  unfold emit_obs.
  change (Dispatched ?e :: ?l) with ([Dispatched e] ++ l).
  by rewrite !events_app, !events_notify_obs.
Qed.

End BusFacts.

(** ** The optimistic-update tracker *)

Section TrackerFacts.
Context {W : Type}.
Implicit Types (s : HookState W) (u : OptimisticUpdate W) (f : Closure W).

Lemma add_eq eb id type data revertFn s :
  addOptimisticUpdate eb id type data revertFn s
  = let u := {| upd_id := id; upd_type := type; upd_data := data;
                upd_timestamp := now s; upd_revert := revertFn |} in
    let s1 := set_pendingUpdates <[id := u]> s in
    (set_timeouts (fun q => q ++ [(now s + 10000, id)])
       (add_trace (if eb then emit_obs ("optimistic:" +:+ type) (PIdData id data) local s1
                   else []) s1),
     Ok tt).
Proof.
  unfold addOptimisticUpdate, bind, gets, modify, setTimeout.
  rewrite emit_eq. reflexivity.
Qed.

Lemma confirm_eq eb id s :
  confirmOptimisticUpdate eb id s
  = match pendingUpdates s !! id with
    | Some u =>
        let s1 := set_pendingUpdates (delete id) s in
        (add_trace (if eb then emit_obs ("confirmed:" +:+ upd_type u)
                                  (PIdData id (upd_data u)) server s1
                    else []) s1, Ok tt)
    | None => (s, Ok tt)
    end.
Proof.
  unfold confirmOptimisticUpdate, bind, gets, modify.
  destruct (pendingUpdates s !! id) as [u|]; [|done].
  by rewrite emit_eq.
Qed.

Lemma revert_eq eb id s :
  revertOptimisticUpdate eb id s
  = match pendingUpdates s !! id with
    | Some u =>
        match upd_revert u with
        | Some f =>
            let s0 := set_env (fst (f (env s))) (add_trace [Compensated id] s) in
            match snd (f (env s)) with
            | Some t => (s0, Throw t)
            | None =>
                let s1 := set_pendingUpdates (delete id) s0 in
                (add_trace (if eb then emit_obs ("reverted:" +:+ upd_type u)
                                          (PIdData id (upd_data u)) local s1
                            else []) s1, Ok tt)
            end
        | None =>
            let s1 := set_pendingUpdates (delete id) s in
            (add_trace (if eb then emit_obs ("reverted:" +:+ upd_type u)
                                      (PIdData id (upd_data u)) local s1
                        else []) s1, Ok tt)
        end
    | None => (s, Ok tt)
    end.
Proof.
  unfold revertOptimisticUpdate, bind, gets, modify, observe, call_closure, ret.
  destruct (pendingUpdates s !! id) as [u|]; [|done].
  destruct (upd_revert u) as [f|]; simpl.
  - destruct (f (env s)) as [w' [t|]]; simpl; [done|].
    by rewrite emit_eq.
  - by rewrite emit_eq.
Qed.

Lemma timeoutCallback_eq eb id s :
  timeoutCallback eb id s
  = match pendingUpdates s !! id with
    | Some _ =>
        revertOptimisticUpdate eb id
          (add_trace [ConsoleWarn ("Optimistic update " +:+ id +:+ " timed out")] s)
    | None => (s, Ok tt)
    end.
Proof.
  unfold timeoutCallback, bind, gets, observe, modify.
  destruct (pendingUpdates s !! id) as [u|]; reflexivity.
Qed.

Lemma compensations_single id i :
  compensations id [Compensated i] = if String.eqb i id then 1%nat else 0%nat.
Proof. unfold compensations; simpl. by destruct (String.eqb i id). Qed.

(** One timer fires. *)
Lemma fire_fields eb i s :
  let s' := run_task (timeoutCallback eb i) s in
  now s' = now s /\ timeouts s' = timeouts s /\ listeners s' = listeners s.
Proof.
  unfold run_task. rewrite timeoutCallback_eq.
  destruct (pendingUpdates s !! i) as [u|] eqn:Hi; [|done].
  rewrite revert_eq. fields. rewrite Hi.
  destruct (upd_revert u) as [f|]; [|by fields].
  fields. by destruct (snd (f (env s))); fields.
Qed.

Lemma fire_other eb i id s :
  i ≠ id ->
  let s' := run_task (timeoutCallback eb i) s in
  pendingUpdates s' !! id = pendingUpdates s !! id
  /\ compensations id (trace s') = compensations id (trace s).
Proof.
  intros Hne. unfold run_task. rewrite timeoutCallback_eq.
  destruct (pendingUpdates s !! i) as [u|] eqn:Hi; [|done].
  rewrite revert_eq. fields. rewrite Hi.
  assert (String.eqb i id = false) as Hb by by apply String.eqb_neq.
  destruct (upd_revert u) as [f|]; fields.
  - destruct (snd (f (env s))); fields;
      rewrite ?lookup_delete_ne by done;
      rewrite ?compensations_app, ?compensations_emit_obs, ?compensations_single, ?Hb;
      split; try done; cbn; lia.
  - rewrite lookup_delete_ne by done.
    rewrite ?compensations_app, ?compensations_emit_obs. split; [done|cbn; lia].
Qed.

Lemma fire_absent eb id s :
  pendingUpdates s !! id = None -> run_task (timeoutCallback eb id) s = s.
Proof. intros Hi. unfold run_task. by rewrite timeoutCallback_eq, Hi. Qed.

Lemma fire_present eb id u s :
  pendingUpdates s !! id = Some u ->
  returns_normally (upd_revert u) ->
  let s' := run_task (timeoutCallback eb id) s in
  pendingUpdates s' !! id = None
  /\ compensations id (trace s')
     = (compensations id (trace s) + compensation_due (upd_revert u))%nat.
Proof.
  intros Hi Hok. unfold run_task. rewrite timeoutCallback_eq, Hi.
  rewrite revert_eq. fields. rewrite Hi.
  destruct (upd_revert u) as [f|]; fields.
  - simpl in Hok. rewrite Hok. fields. rewrite lookup_delete_eq.
    rewrite ?compensations_app, ?compensations_emit_obs, ?compensations_single.
    rewrite String.eqb_refl. split; [done|cbn; lia].
  - rewrite lookup_delete_eq.
    rewrite ?compensations_app, ?compensations_emit_obs. split; [done|cbn; lia].
Qed.

(** All due timers fire. *)
Lemma fire_all_cons eb e due s :
  fire_all eb (e :: due) s = fire_all eb due (run_task (timeoutCallback eb e.2) s).
Proof. reflexivity. Qed.

Lemma fire_all_fields eb due s :
  now (fire_all eb due s) = now s /\ timeouts (fire_all eb due s) = timeouts s.
Proof.
  revert s. induction due as [|e due IH]; intros s; [done|].
  rewrite fire_all_cons. destruct (IH (run_task (timeoutCallback eb e.2) s)) as [-> ->].
  by destruct (fire_fields eb e.2 s) as (-> & -> & _).
Qed.

Lemma fire_all_absent eb id due s :
  pendingUpdates s !! id = None ->
  pendingUpdates (fire_all eb due s) !! id = None
  /\ compensations id (trace (fire_all eb due s)) = compensations id (trace s).
Proof.
  revert s. induction due as [|e due IH]; intros s Hs; [done|].
  rewrite fire_all_cons. destruct (decide (e.2 = id)) as [->|Hne].
  - rewrite fire_absent by done. by apply IH.
  - destruct (fire_other eb e.2 id s Hne) as [Hp Hc].
    destruct (IH (run_task (timeoutCallback eb e.2) s)) as [-> ->]; [congruence|].
    by rewrite Hc.
Qed.

Lemma fire_all_present eb id u due s :
  pendingUpdates s !! id = Some u ->
  returns_normally (upd_revert u) ->
  if existsb (names id) due
  then pendingUpdates (fire_all eb due s) !! id = None
       /\ compensations id (trace (fire_all eb due s))
          = (compensations id (trace s) + compensation_due (upd_revert u))%nat
  else pendingUpdates (fire_all eb due s) !! id = Some u
       /\ compensations id (trace (fire_all eb due s)) = compensations id (trace s).
Proof.
  revert s. induction due as [|e due IH]; intros s Hs Hok; [done|].
  rewrite fire_all_cons. cbn [existsb]. unfold names at 1.
  destruct (String.eqb_spec e.2 id) as [->|Hne]; cbn [orb].
  - destruct (fire_present eb id u s Hs Hok) as [Hp Hc].
    destruct (fire_all_absent eb id due _ Hp) as [-> ->]. by rewrite Hc.
  - destruct (fire_other eb e.2 id s Hne) as [Hp Hc].
    specialize (IH (run_task (timeoutCallback eb e.2) s)).
    rewrite Hp, Hc in IH. by apply IH.
Qed.

Lemma elapse_eq eb dt s :
  elapse eb dt s
  = fire_all eb (List.filter (is_due (now s + Z.of_N dt)) (timeouts s))
      (set_timeouts
         (fun _ => List.filter (fun e => negb (is_due (now s + Z.of_N dt) e)) (timeouts s))
         (set_now (now s + Z.of_N dt) s)).
Proof. reflexivity. Qed.

Lemma elapse_fields eb dt s :
  now (elapse eb dt s) = now s + Z.of_N dt
  /\ timeouts (elapse eb dt s)
     = List.filter (fun e => negb (is_due (now s + Z.of_N dt) e)) (timeouts s).
Proof. rewrite elapse_eq. by destruct (fire_all_fields eb
  (List.filter (is_due (now s + Z.of_N dt)) (timeouts s))
  (set_timeouts
     (fun _ => List.filter (fun e => negb (is_due (now s + Z.of_N dt) e)) (timeouts s))
     (set_now (now s + Z.of_N dt) s))) as [-> ->]. Qed.

Lemma elapse_absent eb id dt s :
  pendingUpdates s !! id = None ->
  pendingUpdates (elapse eb dt s) !! id = None
  /\ compensations id (trace (elapse eb dt s)) = compensations id (trace s).
Proof.
  intros Hs. unfold elapse.
  exact (fire_all_absent eb id _ (set_timeouts _ (set_now _ s)) Hs).
Qed.

Lemma elapse_present eb id u dt s :
  pendingUpdates s !! id = Some u ->
  returns_normally (upd_revert u) ->
  if existsb (names id) (List.filter (is_due (now s + Z.of_N dt)) (timeouts s))
  then pendingUpdates (elapse eb dt s) !! id = None
       /\ compensations id (trace (elapse eb dt s))
          = (compensations id (trace s) + compensation_due (upd_revert u))%nat
  else pendingUpdates (elapse eb dt s) !! id = Some u
       /\ compensations id (trace (elapse eb dt s)) = compensations id (trace s).
Proof.
  intros Hs Hok. unfold elapse.
  exact (fire_all_present eb id u _ (set_timeouts _ (set_now _ s)) Hs Hok).
Qed.

(** An operation on another id, other than the passing of time, leaves the
    entry of [id], its compensation count, the clock and the scheduled timers
    alone. *)
Lemma run_op_foreign eb id (op : Op W) s :
  foreign id op = true ->
  (forall dt, op ≠ OpElapse dt) ->
  pendingUpdates (run_op eb op s) !! id = pendingUpdates s !! id
  /\ compensations id (trace (run_op eb op s)) = compensations id (trace s)
  /\ now (run_op eb op s) = now s
  /\ (forall e, e ∈ timeouts s -> e ∈ timeouts (run_op eb op s)).
Proof.
  intros Hf Hne. destruct op as [ty p src|ty l|ty l|i ty d rv|i|i|dt]; cbn [run_op].
  - rewrite emit_eq. fields.
    by rewrite compensations_app, compensations_emit_obs, Nat.add_0_r.
  - done.
  - done.
  - cbn in Hf. apply negb_true_iff, String.eqb_neq in Hf.
    rewrite add_eq. fields. rewrite lookup_insert_ne by done.
    rewrite compensations_app, compensations_emit_obs, Nat.add_0_r.
    repeat split; try done. intros e He. apply elem_of_app. by left.
  - cbn in Hf. apply negb_true_iff, String.eqb_neq in Hf.
    rewrite confirm_eq. destruct (pendingUpdates s !! i); [|done]. fields.
    rewrite lookup_delete_ne by done.
    by rewrite compensations_app, compensations_emit_obs, Nat.add_0_r.
  - cbn in Hf. apply negb_true_iff in Hf. pose proof Hf as Hb.
    apply String.eqb_neq in Hf.
    rewrite revert_eq. destruct (pendingUpdates s !! i) as [u|]; [|done].
    destruct (upd_revert u) as [f|]; fields.
    + destruct (snd (f (env s))); fields;
        rewrite ?lookup_delete_ne by done;
        rewrite ?compensations_app, ?compensations_emit_obs, ?compensations_single, ?Hb;
        repeat split; try done; lia.
    + rewrite lookup_delete_ne by done.
      by rewrite compensations_app, compensations_emit_obs, Nat.add_0_r.
  - by destruct (Hne dt).
Qed.

Lemma run_ops_cons eb (op : Op W) ops s :
  run_ops eb (op :: ops) s = run_ops eb ops (run_op eb op s).
Proof. reflexivity. Qed.

Lemma is_elapse_dec (op : Op W) : {dt | op = OpElapse dt} + {forall dt, op ≠ OpElapse dt}.
Proof. destruct op; try (right; intros; discriminate). left; eauto. Qed.

(** Once the entry is gone, operations on other ids do not bring it back. *)
Lemma run_ops_absent eb id (ops : list (Op W)) s :
  pendingUpdates s !! id = None ->
  forallb (foreign id) ops = true ->
  pendingUpdates (run_ops eb ops s) !! id = None
  /\ compensations id (trace (run_ops eb ops s)) = compensations id (trace s).
Proof.
  revert s. induction ops as [|op ops IH]; intros s Hs Hf; [done|].
  cbn [forallb] in Hf. apply andb_true_iff in Hf as [Hop Hf].
  rewrite run_ops_cons.
  destruct (is_elapse_dec op) as [[dt ->]|Hne].
  - destruct (elapse_absent eb id dt s Hs) as [Hp Hc].
    destruct (IH (run_op eb (OpElapse dt) s)) as [-> ->]; done.
  - destruct (run_op_foreign eb id op s Hop Hne) as (Hp & Hc & _).
    destruct (IH (run_op eb op s)) as [-> ->]; [congruence|done|done].
Qed.

Lemma not_due_when_unnamed id t T (q : list (Z * string)) :
  existsb (names id) (List.filter (is_due t) q) = false ->
  (T, id) ∈ q ->
  is_due t (T, id) = false.
Proof.
  intros Hex Hin. destruct (is_due t (T, id)) eqn:Hd; [|done].
  assert (existsb (names id) (List.filter (is_due t) q) = true) as Ht; [|congruence].
  apply existsb_exists. exists (T, id). split.
  - apply filter_In. split; [by apply list_elem_of_In|done].
  - unfold names; simpl. apply String.eqb_refl.
Qed.

(** While the entry of [id] is tracked and its timer is pending, operations on
    other ids and the passing of time end with the entry reverted, once. *)
Lemma run_ops_armed eb id u (ops : list (Op W)) s T :
  pendingUpdates s !! id = Some u ->
  returns_normally (upd_revert u) ->
  (T, id) ∈ timeouts s ->
  now s < T ->
  forallb (foreign id) ops = true ->
  T <= now s + elapsed ops ->
  pendingUpdates (run_ops eb ops s) !! id = None
  /\ compensations id (trace (run_ops eb ops s))
     = (compensations id (trace s) + compensation_due (upd_revert u))%nat.
Proof.
  revert s. induction ops as [|op ops IH]; intros s Hs Hok Hin Hlt Hf Hle.
  { cbn in Hle. lia. }
  cbn [forallb] in Hf. apply andb_true_iff in Hf as [Hop Hf].
  rewrite run_ops_cons.
  destruct (is_elapse_dec op) as [[dt ->]|Hne].
  - change (run_op eb (OpElapse dt) s) with (elapse eb dt s).
    pose proof (elapse_present eb id u dt s Hs Hok) as He.
    destruct (existsb (names id) (List.filter (is_due (now s + Z.of_N dt)) (timeouts s)))
      eqn:Hex.
    + destruct He as [Hp Hc].
      destruct (run_ops_absent eb id ops _ Hp Hf) as [-> ->]. by rewrite Hc.
    + destruct He as [Hp Hc].
      pose proof (not_due_when_unnamed id _ T _ Hex Hin) as Hnd.
      destruct (elapse_fields eb dt s) as [Hnow Hq].
      destruct (IH (elapse eb dt s)) as [-> ->]; try done.
      * rewrite Hq. apply list_elem_of_In, filter_In. split; [by apply list_elem_of_In|].
        by rewrite Hnd.
      * rewrite Hnow. unfold is_due in Hnd; simpl in Hnd. lia.
      * rewrite Hnow.
        change (elapsed (OpElapse dt :: ops)) with (Z.of_N dt + elapsed ops) in Hle. lia.
      * by rewrite Hc.
  - destruct (run_op_foreign eb id op s Hop Hne) as (Hp & Hc & Hnow & Hq).
    destruct (IH (run_op eb op s)) as [-> ->]; try done.
    + congruence.
    + by apply Hq.
    + lia.
    + rewrite Hnow.
      destruct op; try (change (elapsed (_ :: ops)) with (elapsed ops) in Hle; lia).
      by destruct (Hne dt).
    + by rewrite Hc.
Qed.

End TrackerFacts.

(** ** Expiry of optimistic entries *)

Section Expiry.
Context {W : Type}.
Implicit Types (s : HookState W).

Lemma absent_is_noop eb id s :
  pendingUpdates s !! id = None ->
  confirmOptimisticUpdate eb id s = (s, Ok tt)
  /\ revertOptimisticUpdate eb id s = (s, Ok tt)
  /\ timeoutCallback eb id s = (s, Ok tt).
Proof.
  intros Hs. by rewrite confirm_eq, revert_eq, timeoutCallback_eq, Hs.
Qed.

Lemma add_arms eb id type data revertFn s :
  let s1 := run_op eb (OpAdd id type data revertFn) s in
  pendingUpdates s1 !! id
  = Some {| upd_id := id; upd_type := type; upd_data := data;
            upd_timestamp := now s; upd_revert := revertFn |}
  /\ (now s + 10000, id) ∈ timeouts s1
  /\ now s1 = now s
  /\ compensations id (trace s1) = compensations id (trace s).
Proof.
  cbn [run_op]. rewrite add_eq. fields. rewrite lookup_insert_eq.
  rewrite compensations_app, compensations_emit_obs, Nat.add_0_r.
  repeat split; try done. apply elem_of_app. right. by apply list_elem_of_singleton.
Qed.

End Expiry.

(** C5 (amended).  An optimistic entry whose compensation returns normally
    (or that has none), and that is neither confirmed, reverted nor registered
    again while ten seconds pass, is reverted by a timer: at the end it is no
    longer tracked and its compensation has been called exactly once.  From
    then on, and in any state in which the id is not tracked, a confirm, a
    revert and a fired expiry timer for that id change nothing and emit
    nothing. *)
Theorem expiry_reverts_exactly_once :
  forall (W : Type) (eb : bool) (s : HookState W) id type data revertFn ops,
    returns_normally revertFn ->
    forallb (foreign id) ops = true ->
    10000 <= elapsed ops ->
    expired_once eb s id type data revertFn ops
    /\ (forall s' : HookState W,
          pendingUpdates s' !! id = None ->
          confirmOptimisticUpdate eb id s' = (s', Ok tt)
          /\ revertOptimisticUpdate eb id s' = (s', Ok tt)
          /\ timeoutCallback eb id s' = (s', Ok tt)).
Proof.
  intros W eb s id type data revertFn ops Hok Hf Hle.
  split; [|intros s' Hs'; by apply absent_is_noop].
  unfold expired_once.
  destruct (add_arms eb id type data revertFn s) as (Hp & Hin & Hnow & Hc).
  destruct (run_ops_armed eb id _ ops _ (now s + 10000) Hp Hok Hin) as [Hgone Hcount];
    [lia|done|lia|].
  split; [done|]. split; [by rewrite Hcount, Hc|].
  by apply absent_is_noop.
Qed.

Lemma expiry_reverts_exactly_once_witness :
  expired_once true (freshHook initialState 0 true) "temp-0" "assignment:add" PEmpty
    (Some (dispatch_closure (REMOVE_ASSIGNMENT "temp-0")))
    [OpSubscribe "*" (failing_listener 1); OpElapse 4000; OpConfirm "temp-1";
     OpElapse 6000].
Proof.
  apply (expiry_reverts_exactly_once AppState true (freshHook initialState 0 true)
           "temp-0" "assignment:add" PEmpty
           (Some (dispatch_closure (REMOVE_ASSIGNMENT "temp-0")))).
  - intros w. reflexivity.
  - reflexivity.
  - vm_compute. discriminate.
Defined.

(** C5, as the specification states it, fails for an entry whose compensation
    throws: after its timer has fired the entry is still tracked. *)
Lemma every_entry_expires_once_fails : ~ every_entry_expires_once.
Proof.
  intros H.
  destruct (H unit true (freshHook tt 0 true) "u1" "engineer:add" PEmpty
              (Some failing_compensation) [OpElapse 10000]) as [Hgone _].
  - reflexivity.
  - vm_compute. discriminate.
  - vm_compute in Hgone. discriminate.
Qed.

(** ** Uniqueness of ids in the tracker *)

Section Keyed.
Context {W : Type}.
Implicit Types (s : HookState W) (m : gmap string (OptimisticUpdate W)).

Lemma keyed_empty : keyed (∅ : gmap string (OptimisticUpdate W)).
Proof. intros k u Hk. by rewrite lookup_empty in Hk. Qed.

Lemma keyed_insert m id u : keyed m -> upd_id u = id -> keyed (<[id := u]> m).
Proof.
  intros Hm Hu k v Hk. destruct (decide (id = k)) as [->|Hne].
  - rewrite lookup_insert_eq in Hk. congruence.
  - rewrite lookup_insert_ne in Hk by done. by apply Hm.
Qed.

Lemma keyed_delete m id : keyed m -> keyed (delete id m).
Proof.
  intros Hm k v Hk. apply lookup_delete_Some in Hk as [_ Hk]. by apply Hm.
Qed.

Lemma keyed_revert eb id s :
  keyed (pendingUpdates s) -> keyed (pendingUpdates (fst (revertOptimisticUpdate eb id s))).
Proof.
  intros Hs. rewrite revert_eq. destruct (pendingUpdates s !! id) as [u|]; [|done].
  destruct (upd_revert u) as [f|]; fields.
  - destruct (snd (f (env s))); fields; [done|by apply keyed_delete].
  - by apply keyed_delete.
Qed.

Lemma keyed_fire eb id s :
  keyed (pendingUpdates s) -> keyed (pendingUpdates (run_task (timeoutCallback eb id) s)).
Proof.
  intros Hs. unfold run_task. rewrite timeoutCallback_eq.
  destruct (pendingUpdates s !! id) as [u|]; [|done].
  pose proof (keyed_revert eb id
    (add_trace [ConsoleWarn ("Optimistic update " +:+ id +:+ " timed out")] s) Hs) as Hk.
  by destruct (revertOptimisticUpdate eb id _) as [s' [[]|t]].
Qed.

Lemma keyed_fire_all eb due s :
  keyed (pendingUpdates s) -> keyed (pendingUpdates (fire_all eb due s)).
Proof.
  revert s. induction due as [|e due IH]; intros s Hs; [done|].
  rewrite fire_all_cons. by apply IH, keyed_fire.
Qed.

Lemma keyed_run_op eb (op : Op W) s :
  keyed (pendingUpdates s) -> keyed (pendingUpdates (run_op eb op s)).
Proof.
  intros Hs. destruct op as [ty p src|ty l|ty l|i ty d rv|i|i|dt]; cbn [run_op].
  - by rewrite emit_eq.
  - done.
  - done.
  - rewrite add_eq. fields. by apply keyed_insert.
  - rewrite confirm_eq. destruct (pendingUpdates s !! i); [|done]. fields.
    by apply keyed_delete.
  - by apply keyed_revert.
  - unfold elapse.
    exact (keyed_fire_all eb _ (set_timeouts _ (set_now _ s)) Hs).
Qed.

Lemma keyed_run_ops eb (ops : list (Op W)) s :
  keyed (pendingUpdates s) -> keyed (pendingUpdates (run_ops eb ops s)).
Proof.
  revert s. induction ops as [|op ops IH]; intros s Hs; [done|].
  rewrite run_ops_cons. by apply IH, keyed_run_op.
Qed.

Lemma keyed_NoDup s :
  keyed (pendingUpdates s) -> NoDup (map upd_id (getPendingUpdates s)).
Proof.
  intros Hs. unfold getPendingUpdates.
  assert (map upd_id (map_to_list (pendingUpdates s)).*2
          = (map_to_list (pendingUpdates s)).*1) as ->.
  { rewrite <- list_fmap_compose. apply list_fmap_ext.
    intros i [k u] Hi. simpl. apply Hs.
    apply elem_of_map_to_list. by apply list_elem_of_lookup_2 in Hi. }
  apply NoDup_fst_map_to_list.
Qed.

End Keyed.

(** C2 (amended).  [addOptimisticUpdate] does not look whether its id is
    already tracked: it always returns normally, stores the new registration
    under the id (replacing the one that was there), emits [optimistic:<kind>]
    when broadcasting is enabled and schedules one more expiry.  The entries
    are kept in a map keyed by id, so after every sequence of operations on a
    fresh hook the tracked entries have pairwise distinct ids. *)
Theorem addOptimisticUpdate_replaces :
  forall (W : Type) (eb : bool) (s : HookState W) id type data revertFn,
    let u := {| upd_id := id; upd_type := type; upd_data := data;
                upd_timestamp := now s; upd_revert := revertFn |} in
    let r := addOptimisticUpdate eb id type data revertFn s in
    snd r = Ok tt
    /\ pendingUpdates (fst r) = <[id := u]> (pendingUpdates s)
    /\ timeouts (fst r) = timeouts s ++ [(now s + 10000, id)]
    /\ events (trace (fst r))
       = events (trace s)
         ++ (if eb then [ {| ev_type := "optimistic:" +:+ type;
                             ev_payload := PIdData id data;
                             ev_timestamp := now s; ev_source := local |} ]
             else [])
    /\ (forall (ops : list (Op W)) (w : W) (t : Z) (online : bool),
          NoDup (map upd_id (getPendingUpdates (run_ops eb ops (freshHook w t online))))).
Proof.
  intros W eb s id type data revertFn u r. subst u r.
  rewrite add_eq. fields. repeat split.
  - rewrite events_app. f_equal. destruct eb; [|done]. by rewrite events_emit_obs.
  - intros ops w t online. apply keyed_NoDup, keyed_run_ops. apply keyed_empty.
Qed.

(** C2, as the specification states it, fails: registering a tracked id again
    replaces the stored payload. *)
Lemma add_is_noop_when_present_fails : ~ add_is_noop_when_present.
Proof.
  intros H.
  pose (s := run_op false (OpAdd "u1" "engineer:add" PEmpty None) (freshHook tt 0 true)).
  specialize (H unit false s "u1" "engineer:update" (PError "changed") None).
  assert (is_Some (pendingUpdates s !! "u1")) as Hp by (vm_compute; eauto).
  specialize (H Hp).
  apply (f_equal (fun r => upd_data <$> pendingUpdates (fst r) !! "u1")) in H.
  vm_compute in H. discriminate.
Qed.

(** ** Compensations that throw *)

Lemma logged_app os1 os2 : logged (os1 ++ os2) = logged os1 ++ logged os2.
Proof. unfold logged. apply omap_app. Qed.

Lemma invocations_app os1 os2 :
  invocations (os1 ++ os2) = invocations os1 ++ invocations os2.
Proof. unfold invocations. apply omap_app. Qed.

(** C6 (amended).  [revertOptimisticUpdate] does not contain the errors of a
    compensation.  On a tracked entry whose compensation throws, the exception
    reaches the caller, nothing is logged, the entry stays tracked and no
    [reverted:<kind>] event is emitted; all that has happened is the call of
    the compensation. *)
Theorem revert_propagates_compensation_error :
  forall (W : Type) (eb : bool) (s : HookState W) id u f t,
    pendingUpdates s !! id = Some u ->
    upd_revert u = Some f ->
    snd (f (env s)) = Some t ->
    let r := revertOptimisticUpdate eb id s in
    snd r = Throw t
    /\ pendingUpdates (fst r) = pendingUpdates s
    /\ trace (fst r) = trace s ++ [Compensated id]
    /\ events (trace (fst r)) = events (trace s)
    /\ logged (trace (fst r)) = logged (trace s)
    /\ env (fst r) = fst (f (env s)).
Proof.
  intros W eb s id u f t Hs Hf Ht r. subst r.
  rewrite revert_eq, Hs, Hf. fields. rewrite Ht. fields.
  rewrite events_app, logged_app, !app_nil_r. done.
Qed.

Lemma revert_propagates_compensation_error_witness :
  let s := run_op true (OpAdd "u1" "engineer:add" PEmpty (Some failing_compensation))
             (freshHook tt 0 true) in
  let r := revertOptimisticUpdate true "u1" s in
  snd r = Throw (ErrorObject "compensation failed")
  /\ pendingUpdates (fst r) = pendingUpdates s
  /\ trace (fst r) = trace s ++ [Compensated "u1"]
  /\ events (trace (fst r)) = events (trace s)
  /\ logged (trace (fst r)) = logged (trace s)
  /\ env (fst r) = tt.
Proof.
  intros s.
  apply (revert_propagates_compensation_error unit true s "u1"
           {| upd_id := "u1"; upd_type := "engineer:add"; upd_data := PEmpty;
              upd_timestamp := 0; upd_revert := Some failing_compensation |}
           failing_compensation (ErrorObject "compensation failed")).
  - reflexivity.
  - reflexivity.
  - reflexivity.
Defined.

(** C6, as the specification states it, fails: the exception of the
    compensation leaves [revertOptimisticUpdate]. *)
Lemma compensation_errors_contained_fails : ~ compensation_errors_contained.
Proof.
  intros H.
  pose (s := run_op true (OpAdd "u1" "engineer:add" PEmpty (Some failing_compensation))
               (freshHook tt 0 true)).
  destruct (H unit s "u1"
              {| upd_id := "u1"; upd_type := "engineer:add"; upd_data := PEmpty;
                 upd_timestamp := 0; upd_revert := Some failing_compensation |}
              failing_compensation (ErrorObject "compensation failed")
              eq_refl eq_refl eq_refl) as [Hr _].
  vm_compute in Hr. discriminate.
Qed.

(** ** Delivery to listeners *)

Lemma invocations_notify_obs label ls event :
  invocations (notify_obs label ls event) = map (fun l => (listener_ref l, event)) ls.
Proof.
  induction ls as [|l ls IH]; [done|].
  rewrite notify_obs_cons, invocations_app, IH.
  unfold notify_obs; simpl. by destruct (listener_call l event).
Qed.

Lemma logged_notify_obs label ls event :
  logged (notify_obs label ls event) = omap (fun l => listener_call l event) ls.
Proof.
  induction ls as [|l ls IH]; [done|].
  rewrite notify_obs_cons, logged_app, IH.
  unfold notify_obs; simpl. by destruct (listener_call l event).
Qed.

(** C9 (amended).  On a hook built with broadcasting enabled (the default),
    [emit] invokes every listener registered for the exact type and then every
    listener registered for the wildcard, each with the event; a listener
    that throws does not keep the later ones from being invoked; every thrown
    error is logged; and [emit] returns normally to its caller. *)
Theorem emit_delivers_when_broadcasting :
  forall (W : Type) (s : HookState W) type payload source,
    delivers true s type payload source.
Proof.
  intros W s type payload source. unfold delivers.
  rewrite emit_true_eq. fields. unfold emit_obs, audience.
  change (Dispatched ?e :: ?l) with ([Dispatched e] ++ l).
  rewrite !invocations_app, !logged_app, !invocations_notify_obs, !logged_notify_obs.
  rewrite map_app, omap_app. done.
Qed.

(** C9, as the specification states it, fails on a hook built with
    [enableBroadcast: false]: a registered listener is not invoked. *)
Lemma every_emit_delivers_fails : ~ every_emit_delivers.
Proof.
  intros H.
  pose (s := run_op false (OpSubscribe "engineer:added" (quiet_listener 1))
               (freshHook tt 0 true)).
  destruct (H unit false s "engineer:added" PEmpty local) as (_ & Hinv & _).
  vm_compute in Hinv. discriminate.
Qed.

(** ** A hook built with broadcasting disabled *)

Section Silent.
Context {W : Type}.
Implicit Types (s a b : HookState W).

Lemma quiet_app os1 os2 : quiet (os1 ++ os2) = quiet os1 ++ quiet os2.
Proof. apply List.filter_app. Qed.

Lemma loud_app os1 os2 : loud (os1 ++ os2) = loud os1 ++ loud os2.
Proof. apply List.filter_app. Qed.

Lemma quiet_notify_obs label ls event : quiet (notify_obs label ls event) = [].
Proof.
  induction ls as [|l ls IH]; [done|].
  rewrite notify_obs_cons, quiet_app, IH.
  unfold notify_obs; simpl. by destruct (listener_call l event).
Qed.

Lemma quiet_emit_obs (eb : bool) type payload source s :
  quiet (if eb then emit_obs type payload source s else []) = [].
Proof.
  destruct eb; [|done]. unfold emit_obs.
  change (Dispatched ?e :: ?l) with ([Dispatched e] ++ l).
  by rewrite !quiet_app, !quiet_notify_obs.
Qed.

Lemma quiet_emit_obs_on type payload source s :
  quiet (emit_obs type payload source s) = [].
Proof. apply (quiet_emit_obs true). Qed.

(** Close a [same_but_bus] goal between two chains of updates of one state. *)
Ltac same_but_bus_tac H :=
  repeat split; fields;
  rewrite ?quiet_app, ?quiet_emit_obs_on, ?app_nil_r;
  try done; try (by rewrite H).

Lemma same_but_bus_refl s : same_but_bus s s.
Proof. by repeat split. Qed.

(** Related states have the same fields and traces with the same quiet part. *)
Lemma same_but_bus_inv a b :
  same_but_bus a b ->
  exists tr, quiet tr = quiet (trace a) /\ b = set_trace (fun _ => tr) a.
Proof.
  destruct a, b. unfold same_but_bus; simpl.
  intros (-> & -> & -> & -> & -> & -> & -> & Hq). eexists; split; [|reflexivity]. done.
Qed.

Lemma same_but_bus_intro a tr :
  quiet tr = quiet (trace a) -> same_but_bus a (set_trace (fun _ => tr) a).
Proof. intros Hq. by repeat split. Qed.

Lemma revert_same_but_bus id a b :
  same_but_bus a b ->
  same_but_bus (fst (revertOptimisticUpdate false id a))
               (fst (revertOptimisticUpdate true id b))
  /\ snd (revertOptimisticUpdate false id a) = snd (revertOptimisticUpdate true id b).
Proof.
  intros (tr & Hq & ->)%same_but_bus_inv. rewrite !revert_eq. fields.
  destruct (pendingUpdates a !! id) as [u|]; [|split; [by apply same_but_bus_intro|done]].
  destruct (upd_revert u) as [f|]; fields.
  - destruct (snd (f (env a))); fields; (split; [|done]); same_but_bus_tac Hq.
  - split; [|done]. same_but_bus_tac Hq.
Qed.

Lemma confirm_same_but_bus id a b :
  same_but_bus a b ->
  same_but_bus (fst (confirmOptimisticUpdate false id a))
               (fst (confirmOptimisticUpdate true id b))
  /\ snd (confirmOptimisticUpdate false id a) = snd (confirmOptimisticUpdate true id b).
Proof.
  intros (tr & Hq & ->)%same_but_bus_inv. rewrite !confirm_eq. fields.
  destruct (pendingUpdates a !! id) as [u|]; [|split; [by apply same_but_bus_intro|done]].
  split; [|done]. same_but_bus_tac Hq.
Qed.

Lemma add_same_but_bus id type data revertFn a b :
  same_but_bus a b ->
  same_but_bus (fst (addOptimisticUpdate false id type data revertFn a))
               (fst (addOptimisticUpdate true id type data revertFn b))
  /\ snd (addOptimisticUpdate false id type data revertFn a)
     = snd (addOptimisticUpdate true id type data revertFn b).
Proof.
  intros (tr & Hq & ->)%same_but_bus_inv. rewrite !add_eq. fields.
  split; [|done]. same_but_bus_tac Hq.
Qed.

Lemma fire_same_but_bus id a b :
  same_but_bus a b ->
  same_but_bus (run_task (timeoutCallback false id) a)
               (run_task (timeoutCallback true id) b).
Proof.
  intros Hab. pose proof Hab as (tr & Hq & Hb)%same_but_bus_inv.
  unfold run_task. rewrite !timeoutCallback_eq.
  replace (pendingUpdates b !! id) with (pendingUpdates a !! id) by by rewrite Hb.
  destruct (pendingUpdates a !! id) as [u|]; [|done].
  set (warn := ConsoleWarn ("Optimistic update " +:+ id +:+ " timed out")).
  assert (same_but_bus (add_trace [warn] a) (add_trace [warn] b)) as Hw.
  { rewrite Hb. repeat split; fields; try done. by rewrite !quiet_app, Hq. }
  destruct (revert_same_but_bus id _ _ Hw) as [Hs Hr].
  destruct (revertOptimisticUpdate false id _) as [a' ra],
           (revertOptimisticUpdate true id _) as [b' rb]; simpl in *.
  subst rb. destruct ra as [[]|t]; [done|].
  destruct Hs as (? & ? & ? & ? & ? & ? & ? & Hq').
  repeat split; fields; try done. by rewrite !quiet_app, Hq'.
Qed.

Lemma fire_all_same_but_bus due a b :
  same_but_bus a b -> same_but_bus (fire_all false due a) (fire_all true due b).
Proof.
  revert a b. induction due as [|e due IH]; intros a b Hab; [done|].
  rewrite !fire_all_cons. by apply IH, fire_same_but_bus.
Qed.

Lemma run_op_same_but_bus (op : Op W) a b :
  same_but_bus a b -> same_but_bus (run_op false op a) (run_op true op b).
Proof.
  intros Hab. destruct op as [ty p src|ty l|ty l|i ty d rv|i|i|dt]; cbn [run_op].
  - apply same_but_bus_inv in Hab as (tr & Hq & ->). rewrite emit_true_eq. fields.
    same_but_bus_tac Hq.
  - apply same_but_bus_inv in Hab as (tr & Hq & ->). by repeat split.
  - apply same_but_bus_inv in Hab as (tr & Hq & ->). by repeat split.
  - by apply add_same_but_bus.
  - by apply confirm_same_but_bus.
  - by apply revert_same_but_bus.
  - apply same_but_bus_inv in Hab as (tr & Hq & ->). unfold elapse. fields.
    apply fire_all_same_but_bus. by repeat split.
Qed.

Lemma run_ops_same_but_bus (ops : list (Op W)) a b :
  same_but_bus a b -> same_but_bus (run_ops false ops a) (run_ops true ops b).
Proof.
  revert a b. induction ops as [|op ops IH]; intros a b Hab; [done|].
  rewrite !run_ops_cons. by apply IH, run_op_same_but_bus.
Qed.

(** With broadcasting disabled the bus puts nothing on the trace. *)
Lemma revert_silent id s :
  loud (trace (fst (revertOptimisticUpdate false id s))) = loud (trace s).
Proof.
  rewrite revert_eq. destruct (pendingUpdates s !! id) as [u|]; [|done].
  destruct (upd_revert u) as [f|]; fields.
  - destruct (snd (f (env s))); fields; rewrite !loud_app, ?app_nil_r; done.
  - by rewrite app_nil_r.
Qed.

Lemma fire_silent id s :
  loud (trace (run_task (timeoutCallback false id) s)) = loud (trace s).
Proof.
  unfold run_task. rewrite timeoutCallback_eq.
  destruct (pendingUpdates s !! id) as [u|]; [|done].
  pose proof (revert_silent id
    (add_trace [ConsoleWarn ("Optimistic update " +:+ id +:+ " timed out")] s)) as Hr.
  destruct (revertOptimisticUpdate false id _) as [s' [[]|t]]; fields; simpl in Hr.
  - rewrite Hr, loud_app. simpl. by rewrite app_nil_r.
  - rewrite loud_app, Hr, loud_app. simpl. by rewrite !app_nil_r.
Qed.

Lemma fire_all_silent due s :
  loud (trace (fire_all false due s)) = loud (trace s).
Proof.
  revert s. induction due as [|e due IH]; intros s; [done|].
  by rewrite fire_all_cons, IH, fire_silent.
Qed.

Lemma run_op_silent (op : Op W) s :
  loud (trace (run_op false op s)) = loud (trace s).
Proof.
  destruct op as [ty p src|ty l|ty l|i ty d rv|i|i|dt]; cbn [run_op].
  - done.
  - done.
  - done.
  - rewrite add_eq. fields. by rewrite app_nil_r.
  - rewrite confirm_eq. destruct (pendingUpdates s !! i); [|done]. fields.
    by rewrite app_nil_r.
  - apply revert_silent.
  - unfold elapse. by rewrite fire_all_silent.
Qed.

Lemma run_ops_silent (ops : list (Op W)) s :
  loud (trace (run_ops false ops s)) = loud (trace s).
Proof.
  revert s. induction ops as [|op ops IH]; intros s; [done|].
  by rewrite run_ops_cons, IH, run_op_silent.
Qed.

End Silent.

Lemma events_loud tr : events (loud tr) = events tr.
Proof.
  induction tr as [|o tr IH]; [done|].
  destruct o; simpl; rewrite ?IH; try done; unfold events in *; simpl; by rewrite IH.
Qed.

Lemma invocations_loud tr : invocations (loud tr) = invocations tr.
Proof.
  induction tr as [|o tr IH]; [done|].
  destruct o; simpl; rewrite ?IH; try done; unfold invocations in *; simpl; by rewrite IH.
Qed.

Lemma compensations_quiet id tr : compensations id (quiet tr) = compensations id tr.
Proof.
  induction tr as [|o tr IH]; [done|].
  unfold compensations in *. destruct o; simpl; try done;
    try (destruct (String.eqb id0 id); simpl; by rewrite IH).
Qed.

(** C10.  On a hook built with [enableBroadcast: false], [emit] does nothing
    at all, whatever the type and the payload; the tracker operations still
    change the pending map, the timer queue and the environment of the
    compensations, return or throw, and call compensations exactly as on a
    hook that broadcasts; and over any sequence of operations no event is
    built and no listener is invoked.  What the tracker does without the bus
    is stated outright as well: a registration tracks the entry and queues
    its timer; a confirm of a tracked id removes the entry and does nothing
    else; a revert of a tracked id calls the compensation once in the
    environment, and then removes the entry if the compensation returned and
    keeps it and throws the error if it threw; and an entry whose
    compensation returns normally and that is left alone for ten seconds is
    reverted by its timer, once. *)
Theorem broadcast_disabled_silences_events :
  forall (W : Type) (s : HookState W) (interval retries : option Z),
    let off := enableBroadcast {| opt_syncInterval := interval; opt_maxRetries := retries;
                                  opt_enableBroadcast := Some false |} in
    (forall type payload source, emit off type payload source s = (s, Ok tt))
    /\ (forall id type data revertFn,
          let a := addOptimisticUpdate off id type data revertFn s in
          let b := addOptimisticUpdate true id type data revertFn s in
          same_but_bus (fst a) (fst b) /\ snd a = snd b
          /\ pendingUpdates (fst a) !! id
             = Some {| upd_id := id; upd_type := type; upd_data := data;
                       upd_timestamp := now s; upd_revert := revertFn |}
          /\ timeouts (fst a) = timeouts s ++ [(now s + 10000, id)])
    /\ (forall id,
          let a := confirmOptimisticUpdate off id s in
          let b := confirmOptimisticUpdate true id s in
          same_but_bus (fst a) (fst b) /\ snd a = snd b)
    /\ (forall id,
          let a := revertOptimisticUpdate off id s in
          let b := revertOptimisticUpdate true id s in
          same_but_bus (fst a) (fst b) /\ snd a = snd b)
    /\ (forall ops : list (Op W),
          let a := run_ops off ops s in
          let b := run_ops true ops s in
          same_but_bus a b
          /\ (forall id, compensations id (trace a) = compensations id (trace b))
          /\ events (trace a) = events (trace s)
          /\ invocations (trace a) = invocations (trace s))
    /\ (forall id u,
          pendingUpdates s !! id = Some u ->
          confirmOptimisticUpdate off id s = (set_pendingUpdates (delete id) s, Ok tt))
    /\ (forall id u,
          pendingUpdates s !! id = Some u ->
          revertOptimisticUpdate off id s
          = match upd_revert u with
            | Some f =>
                let s0 := set_env (fst (f (env s))) (add_trace [Compensated id] s) in
                match snd (f (env s)) with
                | Some t => (s0, Throw t)
                | None => (set_pendingUpdates (delete id) s0, Ok tt)
                end
            | None => (set_pendingUpdates (delete id) s, Ok tt)
            end)
    /\ (forall id type data revertFn (ops : list (Op W)),
          returns_normally revertFn ->
          forallb (foreign id) ops = true ->
          10000 <= elapsed ops ->
          expired_once off s id type data revertFn ops).
Proof.
  intros W s interval retries off. subst off. cbn [enableBroadcast opt_enableBroadcast default].
  split; [done|]. split; [|split; [|split; [|split; [|split; [|split]]]]].
  5: { intros id u Hu. rewrite confirm_eq, Hu. cbv zeta. by rewrite add_trace_nil. }
  5: { intros id u Hu. rewrite revert_eq, Hu. cbv zeta.
       destruct (upd_revert u) as [f|]; [|by rewrite add_trace_nil].
       destruct (snd (f (env s))); [done|]. by rewrite add_trace_nil. }
  5: { intros id type data revertFn ops Hok Hf Hle. unfold expired_once.
       change (Datatypes.id false) with false.
       destruct (add_arms false id type data revertFn s) as (Hp & Hin & Hnow & Hc).
       destruct (run_ops_armed false id _ ops _ (now s + 10000) Hp Hok Hin)
         as [Hgone Hcount]; [lia|done|lia|].
       split; [done|]. split; [by rewrite Hcount, Hc|].
       by apply absent_is_noop. }
  - intros id type data revertFn. cbv zeta.
    destruct (add_same_but_bus id type data revertFn s s (same_but_bus_refl s)) as [Hs Hr].
    repeat split; try apply Hs; try done.
    rewrite add_eq. fields. by rewrite lookup_insert_eq.
  - intros id. by apply confirm_same_but_bus, same_but_bus_refl.
  - intros id. by apply revert_same_but_bus, same_but_bus_refl.
  - intros ops. cbv zeta.
    pose proof (run_ops_same_but_bus ops s s (same_but_bus_refl s)) as Hs.
    split; [done|]. split; [|split].
    + intros id. destruct Hs as (_ & _ & _ & _ & _ & _ & _ & Hq).
      transitivity (compensations id (quiet (trace (run_ops false ops s))));
        [by rewrite compensations_quiet|].
      rewrite Hq. apply compensations_quiet.
    + transitivity (events (loud (trace (run_ops false ops s))));
        [by rewrite events_loud|].
      rewrite run_ops_silent. apply events_loud.
    + transitivity (invocations (loud (trace (run_ops false ops s))));
        [by rewrite invocations_loud|].
      rewrite run_ops_silent. apply invocations_loud.
Qed.

Lemma broadcast_disabled_silences_events_witness :
  let s := run_op false
             (OpAdd "temp-0" "assignment:add" PEmpty
                (Some (dispatch_closure (REMOVE_ASSIGNMENT "temp-0"))))
             (freshHook (appReducer initialState
                           (ADD_ASSIGNMENT (sample_assignment "temp-0"
                                              (EngineerIdString "e1") 60))) 0 true) in
  pendingUpdates (fst (confirmOptimisticUpdate false "temp-0" s)) !! "temp-0" = None
  /\ pendingUpdates (fst (revertOptimisticUpdate false "temp-0" s)) !! "temp-0" = None
  /\ assignments (env (fst (revertOptimisticUpdate false "temp-0" s))) = []
  /\ compensations "temp-0" (trace (fst (revertOptimisticUpdate false "temp-0" s))) = 1%nat
  /\ expired_once false s "temp-1" "assignment:add" PEmpty
       (Some (dispatch_closure (REMOVE_ASSIGNMENT "temp-1")))
       [OpElapse 4000; OpConfirm "temp-0"; OpElapse 6000].
Proof.
  intros s.
  destruct (broadcast_disabled_silences_events AppState s None None)
    as (_ & _ & _ & _ & _ & Hconfirm & Hrevert & Hexpire).
  pose (u := {| upd_id := "temp-0"; upd_type := "assignment:add"; upd_data := PEmpty;
                upd_timestamp := 0;
                upd_revert := Some (dispatch_closure (REMOVE_ASSIGNMENT "temp-0")) |}).
  cbn [enableBroadcast opt_enableBroadcast default] in Hconfirm, Hrevert, Hexpire.
  change (Datatypes.id false) with false in Hconfirm, Hrevert, Hexpire.
  rewrite (Hconfirm "temp-0" u), (Hrevert "temp-0" u) by reflexivity.
  split; [reflexivity|]. split; [reflexivity|]. split; [reflexivity|].
  split; [reflexivity|].
  apply Hexpire; [intros w; reflexivity|reflexivity|]. vm_compute. discriminate.
Defined.

(** ** The reconciliation engine *)

Section SyncFacts.
Implicit Types (s : SyncState) (os : list Obs).

Lemma sync_add_nil s : sync_add [] s = s.
Proof. destruct s. unfold sync_add, set_hook; simpl. by rewrite add_trace_nil. Qed.

Lemma sync_add_app os1 os2 s : sync_add os2 (sync_add os1 s) = sync_add (os1 ++ os2) s.
Proof. unfold sync_add, set_hook; simpl. by rewrite add_trace_app. Qed.

Lemma in_hook_emit_eq type payload source s :
  in_hook (Realtime.emit type payload source) s
  = (sync_add (emit_obs type payload source (hook s)) s, Ok tt).
Proof.
  unfold in_hook, zoom, Realtime.emit.
  change (enableBroadcast providerOptions) with true. by rewrite emit_true_eq.
Qed.

Lemma emit_each_eq {A} type (wrap : A -> Payload) (l : list A) s :
  emit_each type wrap l s
  = (sync_add (flat_map (fun x => emit_obs type (wrap x) server (hook s)) l) s, Ok tt).
Proof.
  unfold emit_each. revert s. induction l as [|x l IH]; intros s.
  - simpl. by rewrite sync_add_nil.
  - cbn [forEach flat_map]. unfold bind at 1. rewrite in_hook_emit_eq, IH, sync_add_app.
    reflexivity.
Qed.

Lemma events_each {A} type (wrap : A -> Payload) (l : list A) (h : AppWorld) :
  events (flat_map (fun x => emit_obs type (wrap x) server h) l)
  = record_events (now h) type wrap l.
Proof.
  induction l as [|x l IH]; [done|].
  cbn [flat_map]. rewrite events_app, events_emit_obs, IH. reflexivity.
Qed.

Lemma checkForChanges_eq newData oldData s :
  exists os,
    checkForChanges newData (Some oldData) s = (sync_add os s, Ok tt)
    /\ events os = diff_events (now (hook s)) newData oldData.
Proof.
  unfold checkForChanges, bind.
  repeat (rewrite emit_each_eq; cbv iota beta).
  change (nonzero _ || _ || _ || _ || _ || _ || _ || _ || _)
    with (any_change (change_counts newData oldData)).
  destruct (any_change (change_counts newData oldData)) eqn:Hany.
  - rewrite in_hook_emit_eq, !sync_add_app. eexists. split; [reflexivity|].
    rewrite !events_app, !events_each, events_emit_obs.
    unfold diff_events, per_record_events. rewrite Hany, <- !app_assoc. reflexivity.
  - unfold ret. rewrite !sync_add_app. eexists. split; [reflexivity|].
    rewrite !events_app, !events_each.
    unfold diff_events, per_record_events. rewrite Hany, app_nil_r, <- !app_assoc.
    reflexivity.
Qed.

Lemma in_hook_observe_eq o s : in_hook (observe o) s = (sync_add [o] s, Ok tt).
Proof. reflexivity. Qed.

Lemma in_hook_dispatch_eq action s :
  in_hook (dispatch action) s
  = (set_hook (set_env (appReducer (env (hook s)) action) (hook s)) s, Ok tt).
Proof. reflexivity. Qed.

(** Run the hook and store operations at the head of a sync computation. *)
Ltac sync_steps :=
  repeat (first [rewrite in_hook_emit_eq | rewrite in_hook_observe_eq
                | rewrite in_hook_dispatch_eq]; cbv beta iota).

Lemma performSync_success app net s sd :
  session_active app ->
  fetchServerData app net = inr sd ->
  exists s',
    performSync app net s = (s', Ok tt)
    /\ env (hook s') = with_collections (env (hook s)) sd
    /\ lastSyncDataRef s' = Some sd
    /\ pendingUpdates (hook s') = pendingUpdates (hook s)
    /\ timeouts (hook s') = timeouts (hook s)
    /\ events (trace (hook s'))
       = events (trace (hook s))
         ++ [sync_start_event (now (hook s))]
         ++ external_events (now (hook s)) sd (lastSyncDataRef s)
         ++ (if nonzero (length (getPendingUpdates (hook s)))
             then [conflict_event (now (hook s)) sd (currentData app)] else [])
         ++ [sync_complete_event (now (hook s)) sd].
Proof.
  intros [Huser Htok] Hfetch. unfold performSync.
  rewrite bool_decide_true, Htok by done. cbn [negb orb].
  unfold try_catch, bind at 1. rewrite in_hook_emit_eq.
  unfold bind at 1. rewrite Hfetch. unfold ret at 1.
  unfold bind at 1. unfold bind at 1. unfold gets at 1.
  assert (exists os,
    (match lastSyncDataRef (sync_add (emit_obs "sync:start" PEmpty local (hook s)) s) with
     | Some _ => checkForChanges sd (lastSyncDataRef (sync_add (emit_obs "sync:start" PEmpty local (hook s)) s))
     | None => ret tt
     end) (sync_add (emit_obs "sync:start" PEmpty local (hook s)) s)
    = (sync_add os (sync_add (emit_obs "sync:start" PEmpty local (hook s)) s), Ok tt)
    /\ events os = external_events (now (hook s)) sd (lastSyncDataRef s)) as (os & -> & Hos).
  { cbn [lastSyncDataRef sync_add set_hook]. destruct (lastSyncDataRef s) as [old|].
    - destruct (checkForChanges_eq sd old (sync_add (emit_obs "sync:start" PEmpty local (hook s)) s))
        as (os & Heq & Hev).
      exists os. split; [exact Heq|exact Hev].
    - exists []. by rewrite sync_add_nil. }
  rewrite sync_add_app.
  unfold bind at 1. unfold gets at 1. unfold bind at 1.
  change (getPendingUpdates (hook (sync_add ?o s))) with (getPendingUpdates (hook s)).
  destruct (nonzero (length (getPendingUpdates (hook s)))).
  - unfold resolveConflicts, commit, bind, modify, ret.
    sync_steps.
    eexists. split; [reflexivity|].
    cbn [hook sync_add set_hook set_lastSyncDataRef lastSyncDataRef]. fields.
    repeat split.
    rewrite <- !app_assoc, !events_app, !events_emit_obs, Hos. reflexivity.
  - unfold commit, bind, modify, ret.
    sync_steps.
    eexists. split; [reflexivity|].
    cbn [hook sync_add set_hook set_lastSyncDataRef lastSyncDataRef]. fields.
    repeat split.
    rewrite <- !app_assoc, !events_app, !events_emit_obs, Hos. reflexivity.
Qed.

Lemma performSync_failure app net s t :
  session_active app ->
  fetchServerData app net = inl t ->
  performSync app net s
  = (sync_add (emit_obs "sync:start" PEmpty local (hook s)
               ++ [ConsoleError "Background sync failed:" t]
               ++ emit_obs "sync:error" (PError (message_or "Unknown sync error" t))
                    local (hook s)) s,
     Ok tt).
Proof.
  intros [Huser Htok] Hfetch. unfold performSync.
  rewrite bool_decide_true, Htok by done. cbn [negb orb].
  unfold try_catch, bind at 1. rewrite in_hook_emit_eq.
  unfold bind at 1. rewrite Hfetch. unfold throw, bind.
  sync_steps. rewrite !sync_add_app. reflexivity.
Qed.

Lemma events_since_app before after new :
  events after = events before ++ new -> events_since before after = new.
Proof. intros H. unfold events_since. rewrite H. apply drop_app_length. Qed.

End SyncFacts.

(** ** Diffing two collections *)

Section DiffFacts.
Context {A : Type} (id : A -> string) (stringify : A -> string).
Implicit Types (x e : A) (l : list A).

Lemma filter_none (f : A -> bool) l :
  (forall x, x ∈ l -> f x = false) -> List.filter f l = [].
Proof.
  induction l as [|x l IH]; intros Hf; [done|]. simpl.
  rewrite (Hf x) by apply list_elem_of_here. apply IH.
  intros y Hy. apply Hf. by apply list_elem_of_further.
Qed.

Lemma find_by_id_None i l : i ∉ map id l -> find_by_id id i l = None.
Proof.
  induction l as [|x l IH]; intros Hi; [done|]. unfold find_by_id in *. simpl.
  destruct (String.eqb_spec (id x) i) as [<-|Hne].
  - exfalso. apply Hi. simpl. apply list_elem_of_here.
  - apply IH. intros Hin. apply Hi. simpl. by apply list_elem_of_further.
Qed.

Lemma find_by_id_is_Some x l : x ∈ l -> is_Some (find_by_id id (id x) l).
Proof.
  induction l as [|y l IH]; intros Hx; [by apply elem_of_nil in Hx|].
  unfold find_by_id in *. simpl.
  destruct (String.eqb_spec (id y) (id x)) as [Heq|Hne]; [eauto|].
  apply IH. apply elem_of_cons in Hx as [->|Hx]; [done|done].
Qed.

Lemma find_by_id_NoDup x l :
  NoDup (map id l) -> x ∈ l -> find_by_id id (id x) l = Some x.
Proof.
  induction l as [|y l IH]; intros Hnd Hx; [by apply elem_of_nil in Hx|].
  simpl in Hnd. apply NoDup_cons in Hnd as [Hy Hnd].
  unfold find_by_id in *. simpl.
  apply elem_of_cons in Hx as [->|Hx].
  - by rewrite String.eqb_refl.
  - destruct (String.eqb_spec (id y) (id x)) as [Heq|Hne]; [|by apply IH].
    exfalso. apply Hy. rewrite Heq. apply list_elem_of_fmap. by exists x.
Qed.

(** No record of a collection is new with respect to a collection that has
    all its records. *)
Lemma newItems_subset newL oldL :
  (forall x, x ∈ newL -> x ∈ oldL) -> newItems id newL oldL = [].
Proof.
  intros Hsub. apply filter_none. intros x Hx.
  rewrite bool_decide_true; [done|]. by apply find_by_id_is_Some, Hsub.
Qed.

Lemma removedItems_subset newL oldL :
  (forall x, x ∈ oldL -> x ∈ newL) -> removedItems id newL oldL = [].
Proof.
  intros Hsub. apply filter_none. intros x Hx.
  rewrite bool_decide_true; [done|]. by apply find_by_id_is_Some, Hsub.
Qed.

(** With ids that identify the old records, a record that is among the old
    ones as it was sent before, or whose id is not, is not updated. *)
Lemma updatedItems_unchanged newL oldL :
  NoDup (map id oldL) ->
  (forall x, x ∈ newL -> x ∈ oldL \/ id x ∉ map id oldL) ->
  updatedItems id stringify newL oldL = [].
Proof.
  intros Hnd Hsub. apply filter_none. intros x Hx.
  destruct (Hsub x Hx) as [Hin|Hout].
  - rewrite find_by_id_NoDup by done. by rewrite String.eqb_refl.
  - by rewrite find_by_id_None.
Qed.

Lemma newItems_insert l1 l2 e :
  id e ∉ map id (l1 ++ l2) -> newItems id (l1 ++ e :: l2) (l1 ++ l2) = [e].
Proof.
  intros He. unfold newItems. rewrite List.filter_app. simpl.
  rewrite (find_by_id_None (id e)) by done.
  rewrite bool_decide_false by (intros [? ?]; done). simpl.
  rewrite !filter_none; [done| |].
  - intros x Hx. rewrite bool_decide_true; [done|].
    apply find_by_id_is_Some, elem_of_app. by right.
  - intros x Hx. rewrite bool_decide_true; [done|].
    apply find_by_id_is_Some, elem_of_app. by left.
Qed.

End DiffFacts.

Section Scenario.
Implicit Types (newData oldData : ServerData.t).

(** The classifications of two snapshots that differ by one new engineer. *)
Lemma one_new_engineer_classified e newData oldData :
  keyed_by_id oldData ->
  one_new_engineer e newData oldData ->
  newItems (received_id Engineer.id) (ServerData.engineers newData)
    (ServerData.engineers oldData) = [e]
  /\ newItems (received_id Project.id) (ServerData.projects newData)
    (ServerData.projects oldData) = []
  /\ newItems (received_id Assignment.id) (ServerData.assignments newData)
       (ServerData.assignments oldData) = []
  /\ removedItems (received_id Engineer.id) (ServerData.engineers newData)
       (ServerData.engineers oldData) = []
  /\ removedItems (received_id Project.id) (ServerData.projects newData)
       (ServerData.projects oldData) = []
  /\ removedItems (received_id Assignment.id) (ServerData.assignments newData)
       (ServerData.assignments oldData) = []
  /\ updatedItems (received_id Engineer.id) Received.text (ServerData.engineers newData)
       (ServerData.engineers oldData) = []
  /\ updatedItems (received_id Project.id) Received.text (ServerData.projects newData)
       (ServerData.projects oldData) = []
  /\ updatedItems (received_id Assignment.id) Received.text (ServerData.assignments newData)
       (ServerData.assignments oldData) = [].
Proof.
  intros (Hke & Hkp & Hka) (l1 & l2 & Ho & Hn & He & Hp & Ha).
  rewrite Hn, Hp, Ha. rewrite Ho in He, Hke |- *.
  repeat split.
  - by apply newItems_insert.
  - by apply newItems_subset.
  - by apply newItems_subset.
  - apply removedItems_subset. intros x Hx.
    apply elem_of_app in Hx as [Hx|Hx]; apply elem_of_app; [by left|right].
    by apply list_elem_of_further.
  - by apply removedItems_subset.
  - by apply removedItems_subset.
  - apply updatedItems_unchanged; [done|]. intros x Hx.
    apply elem_of_app in Hx as [Hx|Hx].
    + left. apply elem_of_app. by left.
    + apply elem_of_cons in Hx as [->|Hx]; [by right|].
      left. apply elem_of_app. by right.
  - apply updatedItems_unchanged; [done|]. intros x Hx. by left.
  - apply updatedItems_unchanged; [done|]. intros x Hx. by left.
Qed.

Lemma one_new_engineer_diff t e newData oldData :
  keyed_by_id oldData ->
  one_new_engineer e newData oldData ->
  diff_events t newData oldData
  = [ {| ev_type := "external:engineer:added";
         ev_payload := PEngineer (Received.value e);
         ev_timestamp := t; ev_source := server |};
      aggregate_event t one_added ].
Proof.
  intros Hk Hone.
  destruct (one_new_engineer_classified e newData oldData Hk Hone)
    as (H1 & H2 & H3 & H4 & H5 & H6 & H7 & H8 & H9).
  unfold diff_events, per_record_events, change_counts.
  rewrite H1, H2, H3, H4, H5, H6, H7, H8, H9. reflexivity.
Qed.

End Scenario.

(** ** The events of a sync, by type *)

Lemma events_of_type_app type evs1 evs2 :
  events_of_type type (evs1 ++ evs2) = events_of_type type evs1 ++ events_of_type type evs2.
Proof. apply List.filter_app. Qed.

Lemma events_of_type_record {A} type t type' (wrap : A -> Payload) (l : list A) :
  events_of_type type (record_events t type' wrap l)
  = if String.eqb type' type then record_events t type' wrap l else [].
Proof.
  unfold events_of_type, record_events.
  induction l as [|x l IH]; simpl; [by destruct (String.eqb type' type)|].
  rewrite IH. by destruct (String.eqb type' type).
Qed.

Lemma filter_external_record {A} t type (wrap : A -> Payload) (l : list A) :
  List.filter external (record_events t type wrap l)
  = if String.prefix "external:" type then record_events t type wrap l else [].
Proof.
  unfold record_events, external.
  induction l as [|x l IH]; simpl; [by destruct (String.prefix _ type)|].
  rewrite IH. by destruct (String.prefix _ type).
Qed.

Lemma length_record_events {A} t type (wrap : A -> Payload) (l : list A) :
  length (record_events t type wrap l) = length l.
Proof. apply length_map. Qed.

Lemma filter_external_diff t newData oldData :
  List.filter external (diff_events t newData oldData) = diff_events t newData oldData.
Proof.
  unfold diff_events, per_record_events.
  rewrite !List.filter_app, !filter_external_record. cbn [String.prefix].
  f_equal. repeat f_equal. by destruct (any_change _).
Qed.

Lemma events_of_type_aggregate type (b : bool) t c :
  events_of_type type (if b then [aggregate_event t c] else [])
  = if String.eqb "external:changes-detected" type && b then [aggregate_event t c] else [].
Proof.
  destruct b; unfold events_of_type; cbn [List.filter aggregate_event ev_type];
    by destruct (String.eqb "external:changes-detected" type).
Qed.

Lemma sync_events_diff_step t newData oldData (b : bool) localData :
  diff_step_sound t newData oldData
    ([sync_start_event t] ++ diff_events t newData oldData
     ++ (if b then [conflict_event t newData localData] else [])
     ++ [sync_complete_event t newData]).
Proof.
  unfold diff_step_sound. split.
  { rewrite !List.filter_app, filter_external_diff. destruct b; simpl; by rewrite app_nil_r. }
  unfold diff_events, per_record_events.
  rewrite !events_of_type_app, !events_of_type_record, !events_of_type_aggregate.
  destruct b; cbn [events_of_type List.filter sync_start_event sync_complete_event
                   conflict_event ev_type String.eqb Ascii.eqb Bool.eqb app andb];
    rewrite ?app_nil_r, ?length_record_events;
    repeat split; try reflexivity;
    by destruct (any_change (change_counts newData oldData)).
Qed.

Lemma events_of_type_diff_foreign type t newData oldData :
  String.prefix "external:" type = false ->
  events_of_type type (diff_events t newData oldData) = [].
Proof.
  intros Hty.
  rewrite <- filter_external_diff.
  apply filter_none. intros ev Hev.
  apply list_elem_of_In, filter_In in Hev as [_ Hext].
  destruct (String.eqb_spec (ev_type ev) type) as [<-|]; [|done].
  unfold external in Hext. congruence.
Qed.

(** C7.  When the fetch of a sync fails, whatever the failure (and so also
    for a [forceSync] while offline), the sync returns normally, has emitted
    [sync:start] and then [sync:error] with the message of the error and no
    other event, and has changed neither the store nor the retained snapshot
    nor the tracker. *)
Theorem failed_fetch_keeps_state :
  forall app net s t,
    session_active app ->
    fetchServerData app net = inl t ->
    failed_sync_keeps_state app net s t.
Proof.
  intros app net s t Hsession Hfetch. unfold failed_sync_keeps_state, sync_events, forceSync.
  rewrite (performSync_failure app net s t Hsession Hfetch).
  cbn [fst snd hook sync_add set_hook lastSyncDataRef]. fields.
  repeat split. apply events_since_app.
  by rewrite !events_app, !events_emit_obs.
Qed.

Lemma failed_fetch_keeps_state_witness :
  failed_sync_keeps_state (sample_store []) unreachable
    (sample_sync (sample_hook false) (Some (snapshot [sample_engineer "e1" "Ada"])))
    (ErrorObject "Failed to fetch").
Proof.
  apply (failed_fetch_keeps_state (sample_store []) unreachable).
  - split; [by eexists|reflexivity].
  - reflexivity.
Defined.

Lemma events_of_type_external_foreign type t newData last :
  String.prefix "external:" type = false ->
  events_of_type type (external_events t newData last) = [].
Proof.
  intros Hty. destruct last as [oldData|]; [|done].
  by apply events_of_type_diff_foreign.
Qed.

Lemma nonzero_length {A} (l : list A) : l ≠ [] -> nonzero (length l) = true.
Proof. by destruct l. Qed.

(** C4 (amended).  When a sync succeeds while the tracker has at least one
    pending entry, the server wins: the sync returns normally, the three
    collections of the store are those of the fetched snapshot, the snapshot
    is retained, and exactly one [sync:conflict-resolved] event is emitted.
    It carries the strategy name, the server data and, as local data, the
    three collections of the application state that the sync was started
    with; it does not carry the pending entries. *)
Theorem conflict_resolved_server_wins :
  forall app net s serverData,
    session_active app ->
    fetchServerData app net = inr serverData ->
    getPendingUpdates (hook s) ≠ [] ->
    server_wins app net s serverData.
Proof.
  intros app net s serverData Hsession Hfetch Hpending.
  destruct (performSync_success app net s serverData Hsession Hfetch)
    as (s' & Heq & Henv & Hlast & _ & _ & Hev).
  unfold server_wins, sync_events. rewrite Heq. cbn [fst snd].
  repeat split; try done.
  rewrite (events_since_app _ _ _ Hev), (nonzero_length _ Hpending).
  rewrite !events_of_type_app, events_of_type_external_foreign by reflexivity.
  reflexivity.
Qed.

Lemma conflict_resolved_server_wins_witness :
  server_wins (sample_store [sample_engineer "e1" "Ada"])
    (answers [sample_engineer "e2" "Eve"])
    (sample_sync sample_hook_pending None)
    (snapshot [sample_engineer "e2" "Eve"]).
Proof.
  apply (conflict_resolved_server_wins (sample_store [sample_engineer "e1" "Ada"])
           (answers [sample_engineer "e2" "Eve"])).
  - split; [by eexists|reflexivity].
  - reflexivity.
  - vm_compute. discriminate.
Defined.

(** C4, as the specification states it, fails: the local data of the event
    is the object with the three collections, not the pending entries. *)
Lemma conflict_reports_pending_entries_fails : ~ conflict_reports_pending_entries.
Proof.
  intros H.
  destruct (H (sample_store [sample_engineer "e1" "Ada"])
              (answers [sample_engineer "e2" "Eve"])
              (sample_sync sample_hook_pending None)
              (snapshot [sample_engineer "e2" "Eve"])) as [render Hrender].
  - split; [by eexists|reflexivity].
  - reflexivity.
  - vm_compute. discriminate.
  - vm_compute in Hrender. discriminate.
Qed.

(** C3 (amended).  In a successful sync that has a previous snapshot, the
    external events are exactly those of the diff: one per-record event per
    classified record, then one [external:changes-detected] event, present
    only if something was classified, whose nine counts are the numbers of
    per-record events of their categories.  The per-record events are named
    after the entity in the singular.  For two snapshots keyed by id that
    differ only by one new engineer, every other record being there as it was
    sent before, with the same [JSON.stringify] text, the external events are
    exactly one [external:engineer:added] and the aggregate with
    [added.engineers = 1] and every other count [0]. *)
Theorem diff_step_events :
  forall app net s newData oldData,
    session_active app ->
    fetchServerData app net = inr newData ->
    lastSyncDataRef s = Some oldData ->
    diff_step_sound (now (hook s)) newData oldData (sync_events app net s)
    /\ (forall e,
          keyed_by_id oldData ->
          one_new_engineer e newData oldData ->
          List.filter external (sync_events app net s)
          = [ {| ev_type := "external:engineer:added";
                 ev_payload := PEngineer (Received.value e);
                 ev_timestamp := now (hook s); ev_source := server |};
              aggregate_event (now (hook s)) one_added ]).
Proof.
  intros app net s newData oldData Hsession Hfetch Hlast.
  destruct (performSync_success app net s newData Hsession Hfetch)
    as (s' & Heq & _ & _ & _ & _ & Hev).
  assert (diff_step_sound (now (hook s)) newData oldData (sync_events app net s)) as Hsound.
  { unfold sync_events. rewrite Heq. cbn [fst].
    rewrite (events_since_app _ _ _ Hev), Hlast. apply sync_events_diff_step. }
  split; [done|]. intros e Hk Hone.
  destruct Hsound as [-> _]. by apply one_new_engineer_diff.
Qed.

Lemma diff_step_events_witness :
  let app := sample_store [sample_engineer "e1" "Ada"] in
  let net := answers [sample_engineer "e1" "Ada"; sample_engineer "e2" "Eve"] in
  let s := sample_sync (sample_hook true) (Some (snapshot [sample_engineer "e1" "Ada"])) in
  diff_step_sound 0
    (snapshot [sample_engineer "e1" "Ada"; sample_engineer "e2" "Eve"])
    (snapshot [sample_engineer "e1" "Ada"]) (sync_events app net s)
  /\ List.filter external (sync_events app net s)
     = [ {| ev_type := "external:engineer:added";
            ev_payload := PEngineer (sample_engineer "e2" "Eve");
            ev_timestamp := 0; ev_source := server |};
         aggregate_event 0 one_added ].
Proof.
  intros app net s.
  destruct (diff_step_events app net s
              (snapshot [sample_engineer "e1" "Ada"; sample_engineer "e2" "Eve"])
              (snapshot [sample_engineer "e1" "Ada"])) as [Hsound Hone].
  - split; [by eexists|reflexivity].
  - reflexivity.
  - reflexivity.
  - split; [exact Hsound|]. apply (Hone (sent_engineer (sample_engineer "e2" "Eve"))).
    + repeat split; simpl; repeat constructor; by intros ?%elem_of_nil.
    + exists [sent_engineer (sample_engineer "e1" "Ada")], []. repeat split.
      simpl. intros Hin. apply list_elem_of_singleton in Hin. discriminate.
Defined.

(** C3, as the specification states it, fails on the name of the event: for
    one new engineer no event named [external:engineers:added] is emitted. *)
Lemma one_new_engineer_emits_plural_fails : ~ one_new_engineer_emits_plural.
Proof.
  intros H.
  specialize (H (sample_store [sample_engineer "e1" "Ada"])
                (answers [sample_engineer "e1" "Ada"; sample_engineer "e2" "Eve"])
                (sample_sync (sample_hook true) (Some (snapshot [sample_engineer "e1" "Ada"])))
                (snapshot [sample_engineer "e1" "Ada"; sample_engineer "e2" "Eve"])
                (snapshot [sample_engineer "e1" "Ada"])
                (sent_engineer (sample_engineer "e2" "Eve"))).
  assert (session_active (sample_store [sample_engineer "e1" "Ada"])) as Hs
    by (split; [by eexists|reflexivity]).
  specialize (H Hs eq_refl eq_refl).
  assert (keyed_by_id (snapshot [sample_engineer "e1" "Ada"])) as Hk.
  { repeat split; simpl; repeat constructor; by intros ?%elem_of_nil. }
  assert (one_new_engineer (sent_engineer (sample_engineer "e2" "Eve"))
            (snapshot [sample_engineer "e1" "Ada"; sample_engineer "e2" "Eve"])
            (snapshot [sample_engineer "e1" "Ada"])) as Hone.
  { exists [sent_engineer (sample_engineer "e1" "Ada")], []. repeat split.
    simpl. intros Hin. apply list_elem_of_singleton in Hin. discriminate. }
  specialize (H Hk Hone). vm_compute in H. discriminate.
Qed.

(** ** Derived workload *)

Lemma reduce_sum {A} (f : A -> Z) (l : list A) (acc : Z) :
  fold_left (fun total a => total + f a) l acc = acc + foldr Z.add 0 (map f l).
Proof.
  revert acc. induction l as [|x l IH]; intros acc; simpl; [lia|].
  rewrite IH. lia.
Qed.

(** On assignments that all refer to their engineer by a bare id, the
    workload of the store is the derived workload. *)
Lemma getEngineerWorkload_bare_ids state engineerId :
  Forall (fun a => exists i, Assignment.engineerId a = EngineerIdString i)
    (assignments state) ->
  getEngineerWorkload state engineerId = derivedWorkload (assignments state) engineerId.
Proof.
  unfold getEngineerWorkload, derivedWorkload. intros Hbare.
  rewrite reduce_sum, Z.add_0_l. do 2 f_equal.
  induction Hbare as [|a l [i Ha] _ IH]; [done|].
  cbn [List.filter]. rewrite Ha. cbn [engineerId_strict_eq resolveEngineerId].
  by rewrite IH.
Qed.

(** C1.  The workload that the store reports leaves out the assignments whose
    [engineerId] arrives as a populated object: with one such assignment of
    40% and one bare-id assignment of 70% for the same engineer, it reports
    70, where the derived workload is 110. *)
Theorem getEngineerWorkload_misses_populated_reference :
  getEngineerWorkload sample_workload_store "e1" = 70
  /\ derivedWorkload (assignments sample_workload_store) "e1" = 110.
Proof. split; reflexivity. Qed.

(** ** Compensations of the optimistic adds *)

(** The compensation of [addAssignment] removes the temporary record from
    the store as it is when the compensation runs. *)
Lemma addAssignment_compensation_exact tempId (st : AppState) :
  assignments (fst (dispatch_closure (REMOVE_ASSIGNMENT tempId) st))
  = filter (fun a => Assignment.id a ≠ tempId) (assignments st).
Proof. reflexivity. Qed.

(** The compensation of [addEngineer] puts back the engineers of the render
    in which the add was started, whatever the store holds by then. *)
Lemma addEngineer_compensation_stale tempId (captured st : AppState) :
  engineers (fst (dispatch_closure
    (SET_ENGINEERS (filter (fun e => Engineer.id e ≠ tempId) (engineers captured))) st))
  = filter (fun e => Engineer.id e ≠ tempId) (engineers captured).
Proof. reflexivity. Qed.

(** C8.  Reverting an optimistic add of an engineer, by an explicit revert or
    by its timeout, also removes an engineer that came into the store after
    the add was registered: the store goes from [e1; temp-1000; e2] to [e1].
    The same happens to a project that came in after an optimistic add of a
    project.  The revert of an optimistic add of an assignment removes the
    temporary record only. *)
Theorem addEngineer_revert_drops_later_records :
  map Engineer.id (engineers (env sample_add_then_other)) = ["e1"; "temp-1000"; "e2"]
  /\ map Engineer.id
       (engineers (env (fst (Realtime.revertOptimisticUpdate "temp-1000"
                               sample_add_then_other))))
     = ["e1"]
  /\ map Engineer.id (engineers (env (Realtime.elapse 10000 sample_add_then_other)))
     = ["e1"]
  /\ map Project.id (projects (env sample_project_then_other)) = ["temp-1000"; "p2"]
  /\ map Project.id
       (projects (env (fst (Realtime.revertOptimisticUpdate "temp-1000"
                              sample_project_then_other))))
     = []
  /\ map Assignment.id (assignments (env sample_assign_then_other)) = ["temp-1000"; "a2"]
  /\ map Assignment.id
       (assignments (env (fst (Realtime.revertOptimisticUpdate "temp-1000"
                                 sample_assign_then_other))))
     = ["a2"].
Proof. vm_compute. repeat split. Qed.

(** ** Subscribing and unsubscribing *)

Section Registry.
Context {W : Type}.
Implicit Types (s : HookState W) (l : Listener) (ls : list Listener).

Lemma subscribe_eq type l s :
  subscribe type l s
  = (set_listeners <[type := set_add l (default [] (listeners s !! type))]> s, Ok tt).
Proof.
  unfold subscribe, modify. f_equal. destruct s as [m p ls' o q n w tr].
  unfold set_listeners; cbn [listeners]. f_equal.
  apply map_eq. intros k. destruct (m !! type) as [ls|] eqn:Hm; cbn [default].
  - destruct (decide (type = k)) as [<-|Hne].
    + by rewrite lookup_alter_eq, lookup_insert_eq, Hm.
    + by rewrite lookup_alter_ne, lookup_insert_ne.
  - destruct (decide (type = k)) as [<-|Hne].
    + by rewrite lookup_alter_eq, !lookup_insert_eq.
    + by rewrite lookup_alter_ne, !lookup_insert_ne.
Qed.

Lemma set_add_registered l ls : registered l (set_add l ls).
Proof.
  unfold registered, set_add.
  destruct (existsb _ ls) eqn:Hex.
  - apply existsb_exists in Hex as (l' & Hin & Heq).
    apply Nat.eqb_eq in Heq.
    apply list_elem_of_fmap. exists l'. split; [done|by apply list_elem_of_In].
  - rewrite map_app. apply elem_of_app. right. apply list_elem_of_here.
Qed.

Lemma set_add_fresh l ls : ¬ registered l ls -> set_add l ls = ls ++ [l].
Proof.
  intros Hl. unfold set_add. destruct (existsb _ ls) eqn:Hex; [|done].
  exfalso. apply Hl. apply existsb_exists in Hex as (l' & Hin & Heq).
  apply Nat.eqb_eq in Heq.
  apply list_elem_of_fmap. exists l'. split; [done|by apply list_elem_of_In].
Qed.

Lemma set_add_present l ls : registered l ls -> set_add l ls = ls.
Proof.
  intros Hl. unfold set_add. destruct (existsb _ ls) eqn:Hex; [done|].
  exfalso. apply list_elem_of_fmap in Hl as (l' & Heq & Hin).
  assert (existsb (fun l'0 => Nat.eqb (listener_ref l'0) (listener_ref l)) ls = true)
    as Ht; [|congruence].
  apply existsb_exists. exists l'. split; [by apply list_elem_of_In|].
  apply Nat.eqb_eq. done.
Qed.

Lemma set_delete_fresh l ls : ¬ registered l ls -> set_delete l ls = ls.
Proof.
  unfold registered, set_delete. induction ls as [|l' ls IH]; intros Hl; [done|].
  cbn [List.filter]. destruct (Nat.eqb_spec (listener_ref l') (listener_ref l)) as [Heq|Hne].
  - exfalso. apply Hl. cbn. rewrite Heq. apply list_elem_of_here.
  - cbn [negb]. f_equal. apply IH. intros Hin. apply Hl. cbn.
    by apply list_elem_of_further.
Qed.

Lemma set_delete_unregistered l ls : ¬ registered l (set_delete l ls).
Proof.
  unfold registered, set_delete. intros Hin.
  apply list_elem_of_fmap in Hin as (l' & Heq & Hin).
  apply list_elem_of_In, filter_In in Hin as [_ Hne].
  apply negb_true_iff, Nat.eqb_neq in Hne. done.
Qed.

Lemma set_delete_app l ls1 ls2 :
  set_delete l (ls1 ++ ls2) = set_delete l ls1 ++ set_delete l ls2.
Proof. apply List.filter_app. Qed.

Lemma set_delete_self l : set_delete l [l] = [].
Proof. unfold set_delete; cbn. by rewrite Nat.eqb_refl. Qed.

End Registry.

Section RegistryTheorems.
Context {W : Type}.
Implicit Types (s : HookState W) (l : Listener) (ls : list Listener).

Lemma notify_obs_invoked label l ls event :
  registered l ls -> Invoked (listener_ref l) event ∈ notify_obs label ls event.
Proof.
  unfold registered. induction ls as [|l' ls IH]; intros Hl.
  - by apply elem_of_nil in Hl.
  - rewrite notify_obs_cons. apply elem_of_app. cbn in Hl.
    apply elem_of_cons in Hl as [Heq|Hl].
    + left. unfold notify_obs; cbn. rewrite Heq. apply list_elem_of_here.
    + right. by apply IH.
Qed.

Lemma unsubscribe_listeners type l s :
  listeners (fst (unsubscribe type l s))
  = match listeners s !! type with
    | Some ls =>
        if Nat.eqb (length (set_delete l ls)) 0 then delete type (listeners s)
        else <[type := set_delete l ls]> (listeners s)
    | None => listeners s
    end.
Proof. reflexivity. Qed.

Lemma unsubscribe_state type l s :
  fst (unsubscribe type l s)
  = set_listeners (fun _ => listeners (fst (unsubscribe type l s))) s.
Proof. reflexivity. Qed.

Lemma set_listeners_same s (m : gmap string (list Listener)) :
  m = listeners s -> set_listeners (fun _ => m) s = s.
Proof. intros ->. by destruct s. Qed.

Lemma set_delete_idem l ls : set_delete l (set_delete l ls) = set_delete l ls.
Proof. apply set_delete_fresh, set_delete_unregistered. Qed.

End RegistryTheorems.

(** X1.  A function subscribed for a type is invoked by the next [emit] of
    that type on a hook that broadcasts, whatever was registered before. *)
Theorem subscribe_then_emit_invokes :
  forall (W : Type) (s : HookState W) type l payload source,
    let s1 := fst (subscribe type l s) in
    Invoked (listener_ref l)
      {| ev_type := type; ev_payload := payload;
         ev_timestamp := now s; ev_source := source |}
    ∈ trace (fst (emit true type payload source s1)).
Proof.
  intros W s type l payload source s1. subst s1.
  rewrite subscribe_eq, emit_true_eq. fields.
  apply elem_of_app. right. unfold emit_obs. fields.
  apply list_elem_of_further, elem_of_app. left.
  rewrite lookup_insert_eq. cbn [default].
  apply notify_obs_invoked, set_add_registered.
Qed.

(** X2.  Where no type is mapped to an empty set: unsubscribing a function
    that is not registered for the type changes nothing, and subscribing
    such a function and unsubscribing it again gives back the hook as it was
    (the set of a type that had no listener is removed again). *)
Theorem subscribe_unsubscribe_round_trip :
  forall (W : Type) (s : HookState W) type l,
    listeners s !! type ≠ Some [] ->
    ¬ registered l (default [] (listeners s !! type)) ->
    fst (unsubscribe type l s) = s
    /\ fst (unsubscribe type l (fst (subscribe type l s))) = s.
Proof.
  intros W s type l Hne Hl. split.
  - rewrite unsubscribe_state. apply set_listeners_same.
    rewrite unsubscribe_listeners.
    destruct (listeners s !! type) as [ls|] eqn:Hm; [|done]. cbn [default] in Hl.
    rewrite set_delete_fresh by done.
    destruct ls as [|l' ls]; [done|]. cbn [length Nat.eqb]. by apply insert_id.
  - rewrite unsubscribe_state, subscribe_eq. cbn [fst]. rewrite unsubscribe_listeners.
    fields. rewrite lookup_insert_eq, set_add_fresh by done.
    rewrite set_delete_app, set_delete_fresh, set_delete_self, app_nil_r by done.
    destruct s as [m p ls' o q n w tr]. unfold set_listeners; cbn [listeners] in *.
    f_equal. destruct (m !! type) as [ls|] eqn:Hm; cbn [default].
    + destruct ls as [|l' ls]; [done|]. cbn [length Nat.eqb].
      rewrite insert_insert_eq. by apply insert_id.
    + cbn [length Nat.eqb]. rewrite delete_insert_eq. by apply delete_id.
Qed.

Lemma subscribe_unsubscribe_round_trip_witness :
  let s := run_op true (OpSubscribe "sync:start" (quiet_listener 1))
             (freshHook tt 0 true) in
  fst (unsubscribe "sync:start" (quiet_listener 2) s) = s
  /\ fst (unsubscribe "sync:start" (quiet_listener 2)
            (fst (subscribe "sync:start" (quiet_listener 2) s))) = s.
Proof.
  intros s.
  apply (subscribe_unsubscribe_round_trip unit s "sync:start" (quiet_listener 2)).
  - vm_compute. discriminate.
  - vm_compute. intros Hin. apply list_elem_of_singleton in Hin. discriminate.
Defined.

(** X3.  Unsubscribing is idempotent, leaves no function with the reference
    of the unsubscribed one in the set of the type, and does not touch the
    sets of the other types. *)
Theorem unsubscribe_idempotent_and_local :
  forall (W : Type) (s : HookState W) type l,
    let s' := fst (unsubscribe type l s) in
    fst (unsubscribe type l s') = s'
    /\ ¬ registered l (default [] (listeners s' !! type))
    /\ delete type (listeners s') = delete type (listeners s).
Proof.
  intros W s type l s'. subst s'. split; [|split].
  - rewrite (unsubscribe_state type l (fst (unsubscribe type l s))).
    apply set_listeners_same.
    rewrite (unsubscribe_listeners type l (fst (unsubscribe type l s))).
    rewrite unsubscribe_listeners.
    destruct (listeners s !! type) as [ls|] eqn:Hm; [|by rewrite Hm].
    destruct (Nat.eqb (length (set_delete l ls)) 0) eqn:Hlen.
    + by rewrite lookup_delete_eq.
    + by rewrite lookup_insert_eq, set_delete_idem, Hlen, insert_insert_eq.
  - rewrite unsubscribe_listeners.
    destruct (listeners s !! type) as [ls|] eqn:Hm.
    + destruct (Nat.eqb (length (set_delete l ls)) 0) eqn:Hlen.
      * rewrite lookup_delete_eq. cbn. unfold registered. cbn. apply not_elem_of_nil.
      * rewrite lookup_insert_eq. cbn [default]. apply set_delete_unregistered.
    + rewrite Hm. unfold registered. cbn. apply not_elem_of_nil.
  - rewrite unsubscribe_listeners.
    destruct (listeners s !! type) as [ls|] eqn:Hm; [|done].
    destruct (Nat.eqb (length (set_delete l ls)) 0).
    + by rewrite delete_delete_eq.
    + by rewrite delete_insert_eq.
Qed.

Section RegistryInvariant.
Context {W : Type}.
Implicit Types (s : HookState W) (l : Listener) (ls : list Listener).

Lemma fire_all_listeners eb due s : listeners (fire_all eb due s) = listeners s.
Proof.
  revert s. induction due as [|e due IH]; intros s; [done|].
  rewrite fire_all_cons, IH. by destruct (fire_fields eb e.2 s) as (_ & _ & ->).
Qed.

Lemma revert_listeners eb id s :
  listeners (fst (revertOptimisticUpdate eb id s)) = listeners s.
Proof.
  rewrite revert_eq. destruct (pendingUpdates s !! id) as [u|]; [|done].
  destruct (upd_revert u) as [f|]; [|done]. fields. by destruct (snd (f (env s))).
Qed.

Lemma set_add_NoDup l ls :
  NoDup (map listener_ref ls) -> NoDup (map listener_ref (set_add l ls)).
Proof.
  intros Hnd. destruct (decide (listener_ref l ∈ map listener_ref ls)) as [Hl|Hl].
  - by rewrite set_add_present.
  - rewrite set_add_fresh by done. rewrite map_app. apply NoDup_app. split; [done|].
    split; [|apply NoDup_singleton].
    intros x Hx Hx'. apply list_elem_of_singleton in Hx'. subst x. by apply Hl.
Qed.

Lemma set_add_nonempty l ls : set_add l ls ≠ [].
Proof.
  unfold set_add. destruct (existsb _ ls) eqn:Hex.
  - destruct ls; [discriminate|done].
  - by destruct ls.
Qed.

Lemma set_delete_NoDup l ls :
  NoDup (map listener_ref ls) -> NoDup (map listener_ref (set_delete l ls)).
Proof.
  unfold set_delete. induction ls as [|l' ls IH]; intros Hnd; [done|].
  cbn in Hnd. apply NoDup_cons in Hnd as [Hl' Hnd]. cbn [List.filter].
  destruct (negb _); [|by apply IH]. cbn. apply NoDup_cons. split; [|by apply IH].
  intros Hin. apply Hl'. apply list_elem_of_fmap in Hin as (x & Heq & Hx).
  apply list_elem_of_fmap. exists x. split; [done|].
  apply list_elem_of_In, filter_In in Hx as [Hx _]. by apply list_elem_of_In.
Qed.

Lemma registry_ok_same s s' : listeners s' = listeners s -> registry_ok s -> registry_ok s'.
Proof. unfold registry_ok. by intros ->. Qed.

Lemma registry_ok_run_op eb (op : Op W) s : registry_ok s -> registry_ok (run_op eb op s).
Proof.
  intros Hs. destruct op as [ty p src|ty l|ty l|i ty d rv|i|i|dt]; cbn [run_op].
  - apply (registry_ok_same s); [|done]. by rewrite emit_eq.
  - rewrite subscribe_eq. intros k ls. fields.
    destruct (decide (ty = k)) as [<-|Hne].
    + rewrite lookup_insert_eq. intros [= <-]. split; [apply set_add_nonempty|].
      apply set_add_NoDup. destruct (listeners s !! ty) as [ls0|] eqn:Hm; cbn.
      * by apply (Hs ty).
      * apply NoDup_nil_2.
    + rewrite lookup_insert_ne by done. apply Hs.
  - intros k ls. rewrite unsubscribe_listeners.
    destruct (listeners s !! ty) as [ls0|] eqn:Hm; [|apply Hs].
    destruct (Nat.eqb_spec (length (set_delete l ls0)) 0) as [Hlen|Hlen].
    + intros Hk. apply lookup_delete_Some in Hk as [_ Hk]. by apply (Hs k).
    + destruct (decide (ty = k)) as [<-|Hne].
      * rewrite lookup_insert_eq. intros [= <-]. split.
        -- intros Hnil. by rewrite Hnil in Hlen.
        -- apply set_delete_NoDup. by apply (Hs ty).
      * rewrite lookup_insert_ne by done. apply Hs.
  - apply (registry_ok_same s); [|done]. by rewrite add_eq.
  - apply (registry_ok_same s); [|done]. rewrite confirm_eq.
    by destruct (pendingUpdates s !! i).
  - apply (registry_ok_same s); [|done]. apply revert_listeners.
  - apply (registry_ok_same s); [|done]. unfold elapse. by rewrite fire_all_listeners.
Qed.

End RegistryInvariant.

(** X4.  After every sequence of operations on a fresh hook, no type of the
    registry is mapped to an empty set and no set holds the same function
    twice: a function is invoked at most once per set by an [emit]. *)
Theorem registry_invariant :
  forall (W : Type) (eb : bool) (ops : list (Op W)) (w : W) (t : Z) (online : bool),
    registry_ok (run_ops eb ops (freshHook w t online)).
Proof.
  intros W eb ops w t online.
  assert (registry_ok (freshHook w t online)) as H0.
  { intros k ls Hk. cbn in Hk. by rewrite lookup_empty in Hk. }
  revert H0. generalize (freshHook w t online).
  induction ops as [|op ops IH]; intros s Hs; [done|].
  rewrite run_ops_cons. by apply IH, registry_ok_run_op.
Qed.

(** ** Settling and waiting *)

Section Settling.
Context {W : Type}.
Implicit Types (s : HookState W).

Lemma fire_all_unnamed eb id due s :
  existsb (names id) due = false ->
  pendingUpdates (fire_all eb due s) !! id = pendingUpdates s !! id
  /\ compensations id (trace (fire_all eb due s)) = compensations id (trace s).
Proof.
  revert s. induction due as [|e due IH]; intros s Hex; [done|].
  cbn [existsb] in Hex. apply orb_false_iff in Hex as [He Hex].
  unfold names in He. apply String.eqb_neq in He.
  rewrite fire_all_cons. destruct (IH (run_task (timeoutCallback eb e.2) s) Hex) as [-> ->].
  by apply fire_other.
Qed.

Lemma elapsed_nonneg (ops : list (Op W)) : 0 <= elapsed ops.
Proof.
  induction ops as [|op ops IH]; [done|].
  destruct op; try exact IH.
  change (elapsed (OpElapse dt :: ops)) with (Z.of_N dt + elapsed ops). lia.
Qed.

Lemma run_op_foreign_timers eb id T (op : Op W) s :
  foreign id op = true ->
  (forall dt, op ≠ OpElapse dt) ->
  Forall (fun e => snd e = id -> T <= fst e) (timeouts s) ->
  Forall (fun e => snd e = id -> T <= fst e) (timeouts (run_op eb op s)).
Proof.
  intros Hf Hne Hq. destruct op as [ty p src|ty l|ty l|i ty d rv|i|i|dt]; cbn [run_op].
  - by rewrite emit_eq.
  - done.
  - done.
  - cbn in Hf. apply negb_true_iff, String.eqb_neq in Hf.
    rewrite add_eq. fields. apply Forall_app. split; [done|].
    apply Forall_singleton. cbn. intros Heq. by destruct Hf.
  - rewrite confirm_eq. by destruct (pendingUpdates s !! i).
  - rewrite revert_eq. destruct (pendingUpdates s !! i) as [u|]; [|done].
    destruct (upd_revert u) as [f|]; [|done]. fields. by destruct (snd (f (env s))).
  - by destruct (Hne dt).
Qed.

(** Before its timers are due, an entry is left alone by the operations on
    other ids and by the passing of time. *)
Lemma run_ops_waiting eb id u T (ops : list (Op W)) s :
  pendingUpdates s !! id = Some u ->
  Forall (fun e => snd e = id -> T <= fst e) (timeouts s) ->
  forallb (foreign id) ops = true ->
  now s + elapsed ops < T ->
  pendingUpdates (run_ops eb ops s) !! id = Some u
  /\ compensations id (trace (run_ops eb ops s)) = compensations id (trace s).
Proof.
  revert s. induction ops as [|op ops IH]; intros s Hs Hq Hf Hlt; [done|].
  cbn [forallb] in Hf. apply andb_true_iff in Hf as [Hop Hf].
  rewrite run_ops_cons.
  destruct (is_elapse_dec op) as [[dt ->]|Hne].
  - change (run_op eb (OpElapse dt) s) with (elapse eb dt s).
    change (elapsed (OpElapse dt :: ops)) with (Z.of_N dt + elapsed ops) in Hlt.
    pose proof (elapsed_nonneg ops) as Hpos.
    assert (existsb (names id) (List.filter (is_due (now s + Z.of_N dt)) (timeouts s))
            = false) as Hex.
    { destruct (existsb _ _) eqn:Hex; [|done]. exfalso.
      apply existsb_exists in Hex as (e & Hin & Hname).
      apply filter_In in Hin as [Hin Hdue].
      unfold names in Hname. apply String.eqb_eq in Hname.
      rewrite Forall_forall in Hq. specialize (Hq e (proj2 (list_elem_of_In _ _) Hin) Hname).
      unfold is_due in Hdue. lia. }
    destruct (elapse_fields eb dt s) as [Hnow Hrest].
    assert (pendingUpdates (elapse eb dt s) !! id = Some u
            /\ compensations id (trace (elapse eb dt s)) = compensations id (trace s))
      as [Hp Hc].
    { unfold elapse.
      destruct (fire_all_unnamed eb id _
                  (set_timeouts
                     (fun _ => List.filter (fun e => negb (is_due (now s + Z.of_N dt) e))
                                 (timeouts s))
                     (set_now (now s + Z.of_N dt) s)) Hex) as [Hp Hc].
      split; [by rewrite Hp|by rewrite Hc]. }
    destruct (IH (elapse eb dt s)) as [-> ->]; try done.
    + rewrite Hrest. rewrite Forall_forall in Hq |- *. intros e He. apply Hq.
      apply list_elem_of_In, filter_In in He as [He _]. by apply list_elem_of_In.
    + lia.
  - destruct (run_op_foreign eb id op s Hop Hne) as (Hp & Hc & Hnow & _).
    destruct (IH (run_op eb op s)) as [-> ->]; try done.
    + congruence.
    + by apply run_op_foreign_timers.
    + rewrite Hnow.
      destruct op; try (change (elapsed (_ :: ops)) with (elapsed ops) in Hlt; lia).
      by destruct (Hne dt).
Qed.

End Settling.

(** X5.  An entry that is registered and then confirmed is never compensated:
    right after the two calls the pending map is the one before without the
    id, the environment of the compensations is untouched and the events are
    [optimistic:<kind>] then [confirmed:<kind>]; whatever happens to other ids
    afterwards, and however much time passes, the id stays untracked and its
    compensation is never called. *)
Theorem confirmed_entry_never_compensated :
  forall (W : Type) (eb : bool) (s : HookState W) id type data revertFn ops,
    forallb (foreign id) ops = true ->
    let s1 := run_ops eb [OpAdd id type data revertFn; OpConfirm id] s in
    let s2 := run_ops eb ops s1 in
    pendingUpdates s1 = delete id (pendingUpdates s)
    /\ env s1 = env s
    /\ events (trace s1)
       = events (trace s)
         ++ (if eb then
               [ {| ev_type := "optimistic:" +:+ type; ev_payload := PIdData id data;
                    ev_timestamp := now s; ev_source := local |};
                 {| ev_type := "confirmed:" +:+ type; ev_payload := PIdData id data;
                    ev_timestamp := now s; ev_source := server |} ]
             else [])
    /\ pendingUpdates s2 !! id = None
    /\ compensations id (trace s2) = compensations id (trace s).
Proof.
  intros W eb s id type data revertFn ops Hf s1 s2.
  assert (pendingUpdates s1 = delete id (pendingUpdates s)
          /\ env s1 = env s
          /\ trace s1
             = trace s
               ++ (if eb then emit_obs ("optimistic:" +:+ type) (PIdData id data) local
                                (set_pendingUpdates
                                   <[id := {| upd_id := id; upd_type := type;
                                              upd_data := data; upd_timestamp := now s;
                                              upd_revert := revertFn |}]> s)
                   else [])
               ++ (if eb then emit_obs ("confirmed:" +:+ type) (PIdData id data) server s
                   else [])) as (Hp & He & Ht).
  { subst s1. unfold run_ops. cbn [fold_left run_op].
    rewrite add_eq. cbn [fst]. rewrite confirm_eq. fields.
    rewrite lookup_insert_eq. fields. rewrite delete_insert_eq.
    repeat split. by rewrite <- app_assoc. }
  split; [done|]. split; [done|]. split.
  { rewrite Ht, !events_app. destruct eb; [|by rewrite !app_nil_r].
    by rewrite !events_emit_obs. }
  destruct (run_ops_absent eb id ops s1) as [Hgone Hc]; [|done|].
  { rewrite Hp. apply lookup_delete_eq. }
  split; [exact Hgone|]. subst s2. rewrite Hc, Ht, !compensations_app.
  rewrite !compensations_emit_obs. lia.
Qed.

Lemma confirmed_entry_never_compensated_witness :
  let s := freshHook initialState 0 true in
  let s2 := run_ops true [OpElapse 10000; OpRevert "temp-1"; OpElapse 10000]
              (run_ops true
                 [OpAdd "temp-0" "assignment:add" PEmpty
                    (Some (dispatch_closure (REMOVE_ASSIGNMENT "temp-0")));
                  OpConfirm "temp-0"] s) in
  pendingUpdates s2 !! "temp-0" = None
  /\ compensations "temp-0" (trace s2) = compensations "temp-0" (trace s).
Proof.
  intros s s2.
  apply (confirmed_entry_never_compensated AppState true s "temp-0" "assignment:add"
           PEmpty (Some (dispatch_closure (REMOVE_ASSIGNMENT "temp-0")))
           [OpElapse 10000; OpRevert "temp-1"; OpElapse 10000]).
  reflexivity.
Defined.

(** X6.  Settling is idempotent: after a confirm, or after a revert whose
    compensation (if any) returned normally, a further confirm or revert of
    the same id changes nothing, emits nothing and calls no compensation. *)
Theorem settle_twice_is_settle_once :
  forall (W : Type) (eb : bool) (s : HookState W) id,
    match pendingUpdates s !! id with
    | Some u => returns_normally (upd_revert u)
    | None => True
    end ->
    let c := fst (confirmOptimisticUpdate eb id s) in
    let r := fst (revertOptimisticUpdate eb id s) in
    confirmOptimisticUpdate eb id c = (c, Ok tt)
    /\ revertOptimisticUpdate eb id c = (c, Ok tt)
    /\ confirmOptimisticUpdate eb id r = (r, Ok tt)
    /\ revertOptimisticUpdate eb id r = (r, Ok tt).
Proof.
  intros W eb s id Hok c r.
  assert (pendingUpdates c !! id = None) as Hc.
  { subst c. rewrite confirm_eq. destruct (pendingUpdates s !! id) eqn:Hs; [|done].
    fields. apply lookup_delete_eq. }
  assert (pendingUpdates r !! id = None) as Hr.
  { subst r. rewrite revert_eq. destruct (pendingUpdates s !! id) as [u|] eqn:Hs; [|done].
    destruct (upd_revert u) as [f|]; fields.
    - cbn in Hok. rewrite Hok. fields. apply lookup_delete_eq.
    - apply lookup_delete_eq. }
  destruct (absent_is_noop eb id c Hc) as (-> & -> & _).
  destruct (absent_is_noop eb id r Hr) as (-> & -> & _). done.
Qed.

Lemma settle_twice_is_settle_once_witness :
  let s := run_op true
             (OpAdd "temp-0" "assignment:add" PEmpty
                (Some (dispatch_closure (REMOVE_ASSIGNMENT "temp-0"))))
             (freshHook initialState 0 true) in
  let c := fst (confirmOptimisticUpdate true "temp-0" s) in
  let r := fst (revertOptimisticUpdate true "temp-0" s) in
  confirmOptimisticUpdate true "temp-0" c = (c, Ok tt)
  /\ revertOptimisticUpdate true "temp-0" c = (c, Ok tt)
  /\ confirmOptimisticUpdate true "temp-0" r = (r, Ok tt)
  /\ revertOptimisticUpdate true "temp-0" r = (r, Ok tt).
Proof.
  intros s.
  apply (settle_twice_is_settle_once AppState true s "temp-0").
  vm_compute. intros w. reflexivity.
Defined.

(** X7.  The timeout does not fire early: an entry registered while no timer
    for its id is queued is still tracked, with the registration it was given
    and its compensation not called, as long as less than ten seconds have
    passed and nobody has confirmed, reverted or registered its id again. *)
Theorem entry_waits_ten_seconds :
  forall (W : Type) (eb : bool) (s : HookState W) id type data revertFn ops,
    Forall (fun e => snd e ≠ id) (timeouts s) ->
    forallb (foreign id) ops = true ->
    elapsed ops < 10000 ->
    let s2 := run_ops eb ops (run_op eb (OpAdd id type data revertFn) s) in
    pendingUpdates s2 !! id
    = Some {| upd_id := id; upd_type := type; upd_data := data;
              upd_timestamp := now s; upd_revert := revertFn |}
    /\ compensations id (trace s2) = compensations id (trace s).
Proof.
  intros W eb s id type data revertFn ops Hq Hf Hlt s2. subst s2.
  destruct (add_arms eb id type data revertFn s) as (Hp & _ & Hnow & Hc).
  destruct (run_ops_waiting eb id _ (now s + 10000) ops _ Hp) as [Hp' Hc']; try done.
  - cbn [run_op]. rewrite add_eq. fields. apply Forall_app. split.
    + eapply Forall_impl; [exact Hq|]. intros e He Heq. by destruct He.
    + apply Forall_singleton. cbn. lia.
  - rewrite Hnow. lia.
  - split; [exact Hp'|]. by rewrite Hc', Hc.
Qed.

Lemma entry_waits_ten_seconds_witness :
  let s := freshHook initialState 0 true in
  let s2 := run_ops true [OpElapse 4000; OpConfirm "temp-1"; OpElapse 5999]
              (run_op true
                 (OpAdd "temp-0" "assignment:add" PEmpty
                    (Some (dispatch_closure (REMOVE_ASSIGNMENT "temp-0")))) s) in
  pendingUpdates s2 !! "temp-0"
  = Some {| upd_id := "temp-0"; upd_type := "assignment:add"; upd_data := PEmpty;
            upd_timestamp := 0;
            upd_revert := Some (dispatch_closure (REMOVE_ASSIGNMENT "temp-0")) |}
  /\ compensations "temp-0" (trace s2) = compensations "temp-0" (trace s).
Proof.
  intros s s2.
  apply (entry_waits_ten_seconds AppState true s "temp-0" "assignment:add" PEmpty
           (Some (dispatch_closure (REMOVE_ASSIGNMENT "temp-0")))
           [OpElapse 4000; OpConfirm "temp-1"; OpElapse 5999]).
  - apply Forall_nil_2.
  - reflexivity.
  - vm_compute. reflexivity.
Defined.

(** ** The reducer *)

Lemma filter_id_fresh {A} (id : A -> string) (i : string) (l : list A) :
  i ∉ map id l -> filter (fun a => id a ≠ i) l = l.
Proof.
  induction l as [|a l IH]; intros Hi; [done|].
  rewrite filter_cons. destruct (decide (id a ≠ i)) as [Hne|Heq].
  - f_equal. apply IH. intros Hin. apply Hi. cbn. by apply list_elem_of_further.
  - exfalso. apply Hi. apply dec_stable in Heq. rewrite <- Heq. cbn. apply list_elem_of_here.
Qed.

Lemma filter_id_idem {A} (id : A -> string) (i : string) (l : list A) :
  filter (fun a => id a ≠ i) (filter (fun a => id a ≠ i) l)
  = filter (fun a => id a ≠ i) l.
Proof.
  apply filter_id_fresh. intros Hin.
  apply list_elem_of_fmap in Hin as (a & Heq & Ha).
  apply list_elem_of_filter in Ha as [Hne _]. done.
Qed.

(** X8.  [REMOVE_ASSIGNMENT] leaves no assignment with the id, keeps the
    others in their order and is idempotent: the assignments after it are
    exactly those with another id, in the order they had, so that removing
    the only record of an id from between others leaves the others side by
    side, and nothing else of the store changes; on a store that has no
    assignment with the id of [a], adding [a] and removing it again gives
    the store back. *)
Theorem add_remove_assignment_round_trip :
  forall (st : AppState) (a : Assignment.t),
    Assignment.id a ∉ map Assignment.id (assignments st) ->
    appReducer (appReducer st (ADD_ASSIGNMENT a)) (REMOVE_ASSIGNMENT (Assignment.id a)) = st
    /\ appReducer st (REMOVE_ASSIGNMENT (Assignment.id a)) = st
    /\ (forall i,
          let st' := appReducer st (REMOVE_ASSIGNMENT i) in
          (i ∉ map Assignment.id (assignments st'))
          /\ appReducer st' (REMOVE_ASSIGNMENT i) = st')
    /\ (forall i,
          let st' := appReducer st (REMOVE_ASSIGNMENT i) in
          assignments st' = filter (fun x => Assignment.id x ≠ i) (assignments st)
          /\ engineers st' = engineers st /\ projects st' = projects st
          /\ currentUser st' = currentUser st /\ token st' = token st
          /\ isLoading st' = isLoading st)
    /\ (forall i l1 x l2,
          assignments st = l1 ++ x :: l2 ->
          Assignment.id x = i ->
          (i ∉ map Assignment.id l1) ->
          (i ∉ map Assignment.id l2) ->
          assignments (appReducer st (REMOVE_ASSIGNMENT i)) = l1 ++ l2).
Proof.
  intros st a Hfresh. destruct st as [u es ps asg ld tk]. cbn in Hfresh.
  unfold appReducer; cbn. split; [|split; [|split; [|split]]].
  - f_equal. rewrite filter_app, filter_id_fresh by done.
    rewrite filter_cons. destruct (decide (Assignment.id a ≠ Assignment.id a)); [done|].
    by rewrite filter_nil, app_nil_r.
  - f_equal. by apply filter_id_fresh.
  - intros i. split.
    + intros Hin. apply list_elem_of_fmap in Hin as (x & Heq & Hx).
      apply list_elem_of_filter in Hx as [Hne _]. done.
    + f_equal. apply filter_id_idem.
  - intros i. by repeat split.
  - intros i l1 x l2 -> Hid H1 H2. rewrite filter_app, filter_cons.
    destruct (decide (Assignment.id x ≠ i)) as [Hne|_]; [done|].
    by rewrite !filter_id_fresh.
Qed.

Lemma add_remove_assignment_round_trip_witness :
  let a := sample_assignment "a3" (EngineerIdString "e1") 30 in
  appReducer (appReducer sample_workload_store (ADD_ASSIGNMENT a)) (REMOVE_ASSIGNMENT "a3")
  = sample_workload_store
  /\ map Assignment.id
       (assignments (appReducer (appReducer sample_workload_store (ADD_ASSIGNMENT a))
                       (REMOVE_ASSIGNMENT "a2")))
     = ["a1"; "a3"].
Proof.
  intros a.
  assert (Assignment.id a ∉ map Assignment.id (assignments sample_workload_store))
    as Hfresh.
  { cbn. intros Hin. repeat (apply elem_of_cons in Hin as [Hin|Hin]; [discriminate|]).
    by apply elem_of_nil in Hin. }
  split; [by apply (add_remove_assignment_round_trip sample_workload_store a)|].
  assert (Assignment.id (sample_assignment "a4" (EngineerIdString "e1") 10)
          ∉ map Assignment.id
              (assignments (appReducer sample_workload_store (ADD_ASSIGNMENT a))))
    as Hfresh'.
  { cbn. intros Hin. repeat (apply elem_of_cons in Hin as [Hin|Hin]; [discriminate|]).
    by apply elem_of_nil in Hin. }
  destruct (add_remove_assignment_round_trip
              (appReducer sample_workload_store (ADD_ASSIGNMENT a))
              (sample_assignment "a4" (EngineerIdString "e1") 10) Hfresh')
    as (_ & _ & _ & _ & Hmid).
  rewrite (Hmid "a2"
             [sample_assignment "a1"
                (EngineerPopulated {| PopulatedEngineer._id := "e1";
                                      PopulatedEngineer.name := "Ada";
                                      PopulatedEngineer.email := "eng@example.com" |}) 40]
             (sample_assignment "a2" (EngineerIdString "e1") 70) [a]).
  - reflexivity.
  - reflexivity.
  - reflexivity.
  - cbn. intros Hin. apply list_elem_of_singleton in Hin. discriminate.
  - cbn. intros Hin. apply list_elem_of_singleton in Hin. discriminate.
Defined.

Lemma map_id_ext {A} (f : A -> A) (l : list A) :
  (forall x, x ∈ l -> f x = x) -> map f l = l.
Proof.
  induction l as [|x l IH]; intros Hf; [done|]. cbn.
  rewrite (Hf x) by apply list_elem_of_here. f_equal. apply IH.
  intros y Hy. apply Hf. by apply list_elem_of_further.
Qed.

(** X9.  An update of a record that the store does not hold changes
    nothing: [UPDATE_ENGINEER] and [UPDATE_PROJECT] with an id that no record
    has return the store as it is, whatever the patch. *)
Theorem update_of_missing_id_is_identity :
  forall (st : AppState) (i : string) (pe : PartialEngineer.t) (pp : PartialProject.t),
    i ∉ map Engineer.id (engineers st) ->
    i ∉ map Project.id (projects st) ->
    appReducer st (UPDATE_ENGINEER i pe) = st
    /\ appReducer st (UPDATE_PROJECT i pp) = st.
Proof.
  intros st i pe pp He Hp. destruct st as [u es ps asg ld tk]. cbn in He, Hp.
  unfold appReducer; cbn. split; f_equal.
  - apply map_id_ext. intros e Hin.
    destruct (String.eqb_spec (Engineer.id e) i) as [Heq|]; [|done].
    exfalso. apply He. rewrite <- Heq. apply list_elem_of_fmap. by exists e.
  - apply map_id_ext. intros p Hin.
    destruct (String.eqb_spec (Project.id p) i) as [Heq|]; [|done].
    exfalso. apply Hp. rewrite <- Heq. apply list_elem_of_fmap. by exists p.
Qed.

Lemma update_of_missing_id_is_identity_witness :
  let pe := asPartialEngineer (sample_engineer "e9" "Zed") in
  let pp := PartialProject.mk None (Some "Atlas") None None None None None None None
              None None in
  appReducer sample_workload_store (UPDATE_ENGINEER "e9" pe) = sample_workload_store
  /\ appReducer sample_workload_store (UPDATE_PROJECT "e9" pp) = sample_workload_store.
Proof.
  intros pe pp.
  apply (update_of_missing_id_is_identity sample_workload_store "e9" pe pp).
  - cbn. intros Hin. apply list_elem_of_singleton in Hin. discriminate.
  - cbn. apply not_elem_of_nil.
Defined.

(** X10.  The workload is additive: adding an assignment raises the workload
    of the engineer it names by a bare id by its percentage and leaves every
    other workload as it was; an assignment that carries a populated
    engineer raises no workload at all. *)
Theorem workload_after_add_assignment :
  forall (st : AppState) (a : Assignment.t) (engineerId : string),
    getEngineerWorkload (appReducer st (ADD_ASSIGNMENT a)) engineerId
    = getEngineerWorkload st engineerId
      + match Assignment.engineerId a with
        | EngineerIdString i =>
            if String.eqb i engineerId then Assignment.allocationPercentage a else 0
        | EngineerPopulated _ => 0
        end.
Proof.
  intros st a engineerId. unfold getEngineerWorkload. cbn [appReducer assignments].
  rewrite List.filter_app, fold_left_app. cbn [List.filter].
  destruct (Assignment.engineerId a) as [i|p]; cbn [engineerId_strict_eq].
  - destruct (String.eqb i engineerId); cbn [fold_left]; lia.
  - cbn [fold_left]. lia.
Qed.

(** ** The optimistic flows, end to end *)

Section FlowFacts.
Implicit Types (w : AppWorld).

Lemma Realtime_emit_eq type payload source w :
  Realtime.emit type payload source w = (add_trace (emit_obs type payload source w) w, Ok tt).
Proof. apply emit_true_eq. Qed.

Lemma Realtime_add_eq id type data revertFn w :
  Realtime.addOptimisticUpdate id type data revertFn w
  = let u := {| upd_id := id; upd_type := type; upd_data := data;
                upd_timestamp := now w; upd_revert := revertFn |} in
    let w1 := set_pendingUpdates <[id := u]> w in
    (set_timeouts (fun q => q ++ [(now w + 10000, id)])
       (add_trace (emit_obs ("optimistic:" +:+ type) (PIdData id data) local w1) w1),
     Ok tt).
Proof. apply (add_eq true). Qed.

Lemma Realtime_confirm_present id u w :
  pendingUpdates w !! id = Some u ->
  Realtime.confirmOptimisticUpdate id w
  = (add_trace (emit_obs ("confirmed:" +:+ upd_type u) (PIdData id (upd_data u)) server
                  (set_pendingUpdates (delete id) w))
       (set_pendingUpdates (delete id) w), Ok tt).
Proof.
  intros Hu. unfold Realtime.confirmOptimisticUpdate.
  change (enableBroadcast providerOptions) with true. by rewrite confirm_eq, Hu.
Qed.

Lemma Realtime_revert_present id u f w :
  pendingUpdates w !! id = Some u ->
  upd_revert u = Some f ->
  snd (f (env w)) = None ->
  Realtime.revertOptimisticUpdate id w
  = (let w1 := set_pendingUpdates (delete id)
                 (set_env (fst (f (env w))) (add_trace [Compensated id] w)) in
     add_trace (emit_obs ("reverted:" +:+ upd_type u) (PIdData id (upd_data u)) local w1) w1,
     Ok tt).
Proof.
  intros Hu Hf Hok. unfold Realtime.revertOptimisticUpdate.
  change (enableBroadcast providerOptions) with true.
  by rewrite revert_eq, Hu, Hf, Hok.
Qed.

Lemma Realtime_revert_absent id w :
  pendingUpdates w !! id = None ->
  Realtime.revertOptimisticUpdate id w = (w, Ok tt).
Proof.
  intros Hu. unfold Realtime.revertOptimisticUpdate. by rewrite revert_eq, Hu.
Qed.

Lemma dispatch_eq action w :
  dispatch action w = (set_env (appReducer (env w) action) w, Ok tt).
Proof. reflexivity. Qed.

Lemma handleError_eq error w :
  handleError error w = (add_trace [ConsoleError "Error handled:" error] w, Ok tt).
Proof. reflexivity. Qed.

Lemma addAssignment_begin_eq state data isoNow w :
  addAssignment_begin state data isoNow w
  = let tempId := temp_id (now w) in
    let optimistic := optimisticAssignment data tempId isoNow state in
    let u := {| upd_id := tempId; upd_type := "assignment:add";
                upd_data := PAssignment optimistic; upd_timestamp := now w;
                upd_revert := Some (dispatch_closure (REMOVE_ASSIGNMENT tempId)) |} in
    let w1 := set_pendingUpdates <[tempId := u]>
                (set_env (appReducer (env w) (ADD_ASSIGNMENT optimistic)) w) in
    let w2 := set_timeouts (fun q => q ++ [(now w + 10000, tempId)])
                (add_trace (emit_obs "optimistic:assignment:add"
                              (PIdData tempId (PAssignment optimistic)) local w1) w1) in
    (add_trace (emit_obs "assignment:added" (PAssignment optimistic) local w2) w2,
     Ok tempId).
Proof.
  unfold addAssignment_begin, bind, gets, ret.
  rewrite dispatch_eq. cbv beta iota. rewrite Realtime_add_eq. cbv beta iota zeta.
  rewrite Realtime_emit_eq. reflexivity.
Qed.

End FlowFacts.
Lemma events_Compensated i : events [Compensated i] = [].
Proof. reflexivity. Qed.

Lemma events_ConsoleError label t : events [ConsoleError label t] = [].
Proof. reflexivity. Qed.

Lemma compensations_ConsoleError id label t : compensations id [ConsoleError label t] = 0%nat.
Proof. reflexivity. Qed.

(** The events of a flow, as one list after those of the world it started in. *)
Ltac flow_events w :=
  rewrite !events_app, !events_emit_obs; fields;
  rewrite ?events_Compensated, ?events_ConsoleError, ?app_nil_r;
  repeat (rewrite <- (app_assoc (events (trace w))); cbn [app]);
  f_equal.

Ltac flow_compensations :=
  rewrite !compensations_app, !(compensations_emit_obs _ true),
    ?compensations_single, ?compensations_ConsoleError, ?String.eqb_refl;
  cbn [Nat.b2n]; lia.

Lemma remove_added_assignment (st : AppState) (a : Assignment.t) :
  Assignment.id a ∉ map Assignment.id (assignments st) ->
  appReducer (appReducer st (ADD_ASSIGNMENT a)) (REMOVE_ASSIGNMENT (Assignment.id a)) = st.
Proof.
  intros Hfresh. destruct st as [u es ps asg ld tk]. cbn in Hfresh.
  unfold appReducer; cbn. f_equal. rewrite filter_app, filter_id_fresh by done.
  rewrite filter_cons. destruct (decide (Assignment.id a ≠ Assignment.id a)); [done|].
  by rewrite filter_nil, app_nil_r.
Qed.


Lemma addAssignment_settle_failure tempId (res : Awaited Assignment.t) t (w : AppWorld) :
  await_failure res = Some t ->
  addAssignment_settle tempId res w
  = (Realtime.revertOptimisticUpdate tempId;;
     handleError t;;
     Realtime.emit "assignment:error" (PError (message_or "Unknown error" t)) local;;
     throw t)%js w.
Proof.
  intros Hres. unfold addAssignment_settle, try_catch.
  destruct res as [ok [t'|a]|t']; cbn in Hres; try discriminate;
    injection Hres as ->; reflexivity.
Qed.

Lemma addAssignment_begin_fields state data isoNow (w : AppWorld) :
  let tempId := temp_id (now w) in
  let optimistic := optimisticAssignment data tempId isoNow state in
  let u := {| upd_id := tempId; upd_type := "assignment:add";
              upd_data := PAssignment optimistic; upd_timestamp := now w;
              upd_revert := Some (dispatch_closure (REMOVE_ASSIGNMENT tempId)) |} in
  let b := addAssignment_begin state data isoNow w in
  snd b = Ok tempId
  /\ env (fst b) = appReducer (env w) (ADD_ASSIGNMENT optimistic)
  /\ pendingUpdates (fst b) = <[tempId := u]> (pendingUpdates w)
  /\ now (fst b) = now w
  /\ (forall i, compensations i (trace (fst b)) = compensations i (trace w))
  /\ events (trace (fst b))
     = events (trace w)
       ++ [ {| ev_type := "optimistic:assignment:add";
               ev_payload := PIdData tempId (PAssignment optimistic);
               ev_timestamp := now w; ev_source := local |};
            {| ev_type := "assignment:added"; ev_payload := PAssignment optimistic;
               ev_timestamp := now w; ev_source := local |} ].
Proof.
  intros tempId optimistic u b. subst b. rewrite addAssignment_begin_eq.
  cbv zeta. cbn [fst snd]. fold tempId optimistic u. clearbody u optimistic tempId.
  fields. repeat split.
  - intros i. flow_compensations.
  - flow_events w.
Qed.

Lemma addAssignment_settle_failed tempId (res : Awaited Assignment.t) t (x : AppWorld) u f :
  pendingUpdates x !! tempId = Some u ->
  upd_revert u = Some f ->
  snd (f (env x)) = None ->
  await_failure res = Some t ->
  let r := addAssignment_settle tempId res x in
  snd r = Throw t
  /\ env (fst r) = fst (f (env x))
  /\ pendingUpdates (fst r) = delete tempId (pendingUpdates x)
  /\ compensations tempId (trace (fst r)) = S (compensations tempId (trace x))
  /\ events (trace (fst r))
     = events (trace x)
       ++ [ reverted_event u tempId (now x);
            {| ev_type := "assignment:error";
               ev_payload := PError (message_or "Unknown error" t);
               ev_timestamp := now x; ev_source := local |} ].
Proof.
  intros Hu Hf Hok Hres r. subst r.
  destruct (addAssignment_settle tempId res x) as [w' res'] eqn:Hr.
  rewrite (addAssignment_settle_failure _ _ t) in Hr by done.
  unfold bind at 1 in Hr. rewrite (Realtime_revert_present tempId u f) in Hr by done.
  cbv zeta beta iota in Hr. unfold bind at 1 in Hr. rewrite handleError_eq in Hr.
  cbv beta iota in Hr. unfold bind at 1 in Hr. rewrite Realtime_emit_eq in Hr.
  cbv beta iota in Hr. unfold throw in Hr. injection Hr as <- <-.
  cbn [fst snd]. fields. repeat split.
  - flow_compensations.
  - flow_events x.
Qed.

(** X11.  A failed optimistic add of an assignment leaves the store as it was:
    when the store held no assignment with the temporary id, then after the
    add and a remote call that is rejected or whose body cannot be read, the
    whole store is the one before the add, the entry is no longer tracked,
    its compensation ran once, the error is thrown again to the caller, and
    the events are [optimistic:assignment:add], [assignment:added],
    [reverted:assignment:add] and [assignment:error] with the message. *)
Theorem failed_assignment_add_restores_store :
  forall (state : AppState) (data : Assignment.t) (isoNow : string)
         (res : Awaited Assignment.t) (t : Thrown) (w : AppWorld),
    temp_id (now w) ∉ map Assignment.id (assignments (env w)) ->
    await_failure res = Some t ->
    let tempId := temp_id (now w) in
    let optimistic := optimisticAssignment data tempId isoNow state in
    let b := addAssignment_begin state data isoNow w in
    let r := addAssignment_settle tempId res (fst b) in
    snd b = Ok tempId
    /\ snd r = Throw t
    /\ env (fst r) = env w
    /\ pendingUpdates (fst r) = delete tempId (pendingUpdates w)
    /\ compensations tempId (trace (fst r)) = S (compensations tempId (trace w))
    /\ events (trace (fst r))
       = events (trace w)
         ++ [ {| ev_type := "optimistic:assignment:add";
                 ev_payload := PIdData tempId (PAssignment optimistic);
                 ev_timestamp := now w; ev_source := local |};
              {| ev_type := "assignment:added"; ev_payload := PAssignment optimistic;
                 ev_timestamp := now w; ev_source := local |};
              {| ev_type := "reverted:assignment:add";
                 ev_payload := PIdData tempId (PAssignment optimistic);
                 ev_timestamp := now w; ev_source := local |};
              {| ev_type := "assignment:error";
                 ev_payload := PError (message_or "Unknown error" t);
                 ev_timestamp := now w; ev_source := local |} ].
Proof.
  intros state data isoNow res t w Hfresh Hres tempId optimistic b r.
  destruct (addAssignment_begin_fields state data isoNow w)
    as (Hb & Henv & Hpend & Hnow & Hcomp & Hev).
  fold tempId optimistic b in Hb, Henv, Hpend, Hnow, Hcomp, Hev.
  fold tempId in Hfresh. clearbody tempId.
  assert (Assignment.id optimistic = tempId) as Hid by reflexivity.
  clearbody optimistic. subst r. clearbody b.
  destruct (addAssignment_settle_failed tempId res t (fst b) _
              (dispatch_closure (REMOVE_ASSIGNMENT tempId))
              ltac:(rewrite Hpend; apply lookup_insert_eq) eq_refl eq_refl Hres)
    as (Hr & Henv' & Hpend' & Hcomp' & Hev').
  split; [done|]. split; [done|]. split.
  { rewrite Henv'. cbn [dispatch_closure fst]. rewrite Henv, <- Hid.
    apply remove_added_assignment. by rewrite Hid. }
  split; [by rewrite Hpend', Hpend, delete_insert_eq|].
  split; [by rewrite Hcomp', Hcomp|].
  rewrite Hev', Hev, Hnow, <- app_assoc. reflexivity.
Qed.

Lemma failed_assignment_add_restores_store_witness :
  let w := sample_hook true in
  let b := addAssignment_begin (env w) (sample_assignment "" (EngineerIdString "e1") 60)
             "2024-01-01T00:00:00.000Z" w in
  let r := addAssignment_settle "temp-0" (Rejected (ErrorObject "Failed to fetch")) (fst b) in
  snd r = Throw (ErrorObject "Failed to fetch") /\ env (fst r) = env w.
Proof.
  intros w.
  destruct (failed_assignment_add_restores_store (env w)
              (sample_assignment "" (EngineerIdString "e1") 60)
              "2024-01-01T00:00:00.000Z" (Rejected (ErrorObject "Failed to fetch"))
              (ErrorObject "Failed to fetch") w) as (_ & Hr & He & _).
  - cbn. apply not_elem_of_nil.
  - reflexivity.
  - split; [exact Hr|exact He].
Defined.

Lemma addAssignment_settle_confirmed tempId (ok : bool) (assignment : Assignment.t)
    (x : AppWorld) u :
  pendingUpdates x !! tempId = Some u ->
  let r := addAssignment_settle tempId (Fulfilled ok (inr assignment)) x in
  snd r = Ok tt
  /\ env (fst r)
     = appReducer (appReducer (env x) (REMOVE_ASSIGNMENT tempId)) (ADD_ASSIGNMENT assignment)
  /\ pendingUpdates (fst r) = delete tempId (pendingUpdates x)
  /\ (forall i, compensations i (trace (fst r)) = compensations i (trace x))
  /\ events (trace (fst r))
     = events (trace x)
       ++ [ {| ev_type := "confirmed:" +:+ upd_type u;
               ev_payload := PIdData tempId (upd_data u);
               ev_timestamp := now x; ev_source := server |};
            {| ev_type := "assignment:confirmed"; ev_payload := PAssignment assignment;
               ev_timestamp := now x; ev_source := local |} ].
Proof.
  intros Hu r. subst r.
  destruct (addAssignment_settle tempId (Fulfilled ok (inr assignment)) x)
    as [w' res'] eqn:Hr.
  unfold addAssignment_settle, try_catch, await_json, ret in Hr.
  unfold bind at 1 in Hr. unfold bind at 1 in Hr.
  rewrite (Realtime_confirm_present tempId u) in Hr by done.
  cbv beta iota in Hr. unfold bind at 1 in Hr. rewrite dispatch_eq in Hr.
  cbv beta iota in Hr. unfold bind at 1 in Hr. rewrite dispatch_eq in Hr.
  cbv beta iota in Hr. rewrite Realtime_emit_eq in Hr. injection Hr as <- <-.
  cbn [fst snd]. fields. repeat split.
  - intros i. flow_compensations.
  - flow_events x.
Qed.

(** X12.  A confirmed optimistic add of an assignment replaces the temporary
    record by the record of the server: afterwards the assignments are those
    from before the add without any record of the temporary id, followed by
    the server's record; the entry is no longer tracked, no compensation has
    run, and the events are [optimistic:assignment:add], [assignment:added],
    [confirmed:assignment:add] and [assignment:confirmed]. *)
Theorem confirmed_assignment_add_replaces_temporary :
  forall (state : AppState) (data : Assignment.t) (isoNow : string) (ok : bool)
         (assignment : Assignment.t) (w : AppWorld),
    let tempId := temp_id (now w) in
    let optimistic := optimisticAssignment data tempId isoNow state in
    let b := addAssignment_begin state data isoNow w in
    let r := addAssignment_settle tempId (Fulfilled ok (inr assignment)) (fst b) in
    snd r = Ok tt
    /\ assignments (env (fst r))
       = filter (fun a => Assignment.id a ≠ tempId) (assignments (env w)) ++ [assignment]
    /\ engineers (env (fst r)) = engineers (env w)
    /\ projects (env (fst r)) = projects (env w)
    /\ pendingUpdates (fst r) = delete tempId (pendingUpdates w)
    /\ compensations tempId (trace (fst r)) = compensations tempId (trace w)
    /\ events (trace (fst r))
       = events (trace w)
         ++ [ {| ev_type := "optimistic:assignment:add";
                 ev_payload := PIdData tempId (PAssignment optimistic);
                 ev_timestamp := now w; ev_source := local |};
              {| ev_type := "assignment:added"; ev_payload := PAssignment optimistic;
                 ev_timestamp := now w; ev_source := local |};
              {| ev_type := "confirmed:assignment:add";
                 ev_payload := PIdData tempId (PAssignment optimistic);
                 ev_timestamp := now w; ev_source := server |};
              {| ev_type := "assignment:confirmed"; ev_payload := PAssignment assignment;
                 ev_timestamp := now w; ev_source := local |} ].
Proof.
  intros state data isoNow ok assignment w tempId optimistic b r.
  destruct (addAssignment_begin_fields state data isoNow w)
    as (Hb & Henv & Hpend & Hnow & Hcomp & Hev).
  fold tempId optimistic b in Hb, Henv, Hpend, Hnow, Hcomp, Hev.
  clearbody tempId.
  assert (Assignment.id optimistic = tempId) as Hid by reflexivity.
  clearbody optimistic. subst r. clearbody b.
  destruct (addAssignment_settle_confirmed tempId ok assignment (fst b) _
              ltac:(rewrite Hpend; apply lookup_insert_eq))
    as (Hr & Henv' & Hpend' & Hcomp' & Hev').
  split; [done|]. rewrite Henv', Henv.
  destruct (env w) as [cu es ps asg ld tk]. cbn [appReducer assignments engineers projects].
  split.
  { rewrite filter_app, filter_cons.
    destruct (decide (Assignment.id optimistic ≠ tempId)) as [Hne|_]; [by destruct Hne|].
    by rewrite filter_nil, app_nil_r. }
  split; [done|]. split; [done|].
  split; [by rewrite Hpend', Hpend, delete_insert_eq|].
  split; [by rewrite Hcomp', Hcomp|].
  rewrite Hev', Hev, Hnow, <- app_assoc. reflexivity.
Qed.

Lemma addEngineer_settle_failed :
  forall (tempId : string) (res : Awaited PartialEngineer.t) (t : Thrown)
         (w : AppWorld) (u : OptimisticUpdate AppState) (f : Closure AppState),
    pendingUpdates w !! tempId = Some u ->
    upd_revert u = Some f ->
    snd (f (env w)) = None ->
    addEngineer_failure res = Some t ->
    let r := addEngineer_settle tempId res w in
    snd r = Throw t
    /\ env (fst r) = fst (f (env w))
    /\ pendingUpdates (fst r) = delete tempId (pendingUpdates w)
    /\ compensations tempId (trace (fst r)) = S (compensations tempId (trace w))
    /\ events (trace (fst r))
       = events (trace w)
         ++ [ reverted_event u tempId (now w);
              {| ev_type := "engineer:error";
                 ev_payload := PError (message_or "Unknown error" t);
                 ev_timestamp := now w; ev_source := local |} ].
Proof.
  intros tempId res t w u f Hu Hf Hok Hres r. subst r.
  destruct (addEngineer_settle tempId res w) as [w' res'] eqn:Hr.
  unfold addEngineer_settle, try_catch in Hr.
  destruct res as [[|] [t'|a]|t']; cbn in Hres; try discriminate; injection Hres as <-.
  - (* the body cannot be read *)
    unfold await_json, bind at 1, throw at 1 in Hr. cbv beta iota in Hr.
    unfold bind at 1 in Hr.
    rewrite (Realtime_revert_present tempId u f) in Hr by done.
    cbv zeta beta iota in Hr. unfold bind at 1 in Hr. rewrite Realtime_emit_eq in Hr.
    cbv beta iota in Hr. unfold throw in Hr. injection Hr as <- <-.
    cbn [fst snd]. fields. repeat split; try done.
    + flow_compensations.
    + flow_events w.
  - (* the response is not ok: reverted in the try block and again in catch *)
    unfold bind at 1 in Hr.
    rewrite (Realtime_revert_present tempId u f) in Hr by done.
    cbv zeta beta iota in Hr. unfold throw at 1 in Hr. cbv beta iota in Hr.
    unfold bind at 1 in Hr.
    rewrite Realtime_revert_absent in Hr by (fields; apply lookup_delete_eq).
    cbv beta iota in Hr. unfold bind at 1 in Hr. rewrite Realtime_emit_eq in Hr.
    cbv beta iota in Hr. unfold throw in Hr. injection Hr as <- <-.
    cbn [fst snd]. fields. repeat split; try done.
    + flow_compensations.
    + flow_events w.
  - unfold bind at 1 in Hr.
    rewrite (Realtime_revert_present tempId u f) in Hr by done.
    cbv zeta beta iota in Hr. unfold throw at 1 in Hr. cbv beta iota in Hr.
    unfold bind at 1 in Hr.
    rewrite Realtime_revert_absent in Hr by (fields; apply lookup_delete_eq).
    cbv beta iota in Hr. unfold bind at 1 in Hr. rewrite Realtime_emit_eq in Hr.
    cbv beta iota in Hr. unfold throw in Hr. injection Hr as <- <-.
    cbn [fst snd]. fields. repeat split; try done.
    + flow_compensations.
    + flow_events w.
  - (* the call is rejected *)
    unfold throw at 1 in Hr. cbv beta iota in Hr.
    unfold bind at 1 in Hr.
    rewrite (Realtime_revert_present tempId u f) in Hr by done.
    cbv zeta beta iota in Hr. unfold bind at 1 in Hr. rewrite Realtime_emit_eq in Hr.
    cbv beta iota in Hr. unfold throw in Hr. injection Hr as <- <-.
    cbn [fst snd]. fields. repeat split; try done.
    + flow_compensations.
    + flow_events w.
Qed.

(** X13.  However [addEngineer] fails once its entry is tracked (the call is
    rejected, the response is not ok, or its body cannot be read), the entry
    is reverted exactly once, also on the path that calls
    [revertOptimisticUpdate] twice; the events are [reverted:<kind>] and then
    [engineer:error] with the message of the error, and the error is thrown
    again to the caller. *)
Theorem failed_addEngineer_reverts_once :
  forall (tempId : string) (res : Awaited PartialEngineer.t) (t : Thrown)
         (w : AppWorld) (u : OptimisticUpdate AppState) (f : Closure AppState),
    pendingUpdates w !! tempId = Some u ->
    upd_revert u = Some f ->
    snd (f (env w)) = None ->
    addEngineer_failure res = Some t ->
    let r := addEngineer_settle tempId res w in
    snd r = Throw t
    /\ env (fst r) = fst (f (env w))
    /\ pendingUpdates (fst r) = delete tempId (pendingUpdates w)
    /\ compensations tempId (trace (fst r)) = S (compensations tempId (trace w))
    /\ events (trace (fst r))
       = events (trace w)
         ++ [ reverted_event u tempId (now w);
              {| ev_type := "engineer:error";
                 ev_payload := PError (message_or "Unknown error" t);
                 ev_timestamp := now w; ev_source := local |} ].
Proof.
  intros tempId res t w u f Hu Hf Hok Hres.
  exact (addEngineer_settle_failed tempId res t w u f Hu Hf Hok Hres).
Qed.

Lemma failed_addEngineer_reverts_once_witness :
  let w := sample_add_then_other in
  let r := addEngineer_settle "temp-1000" (Fulfilled false (inl NonError)) w in
  snd r = Throw (ErrorObject "Failed to add engineer")
  /\ compensations "temp-1000" (trace (fst r)) = 1%nat.
Proof.
  intros w.
  destruct (failed_addEngineer_reverts_once "temp-1000"
              (Fulfilled false (inl NonError)) (ErrorObject "Failed to add engineer") w
              {| upd_id := "temp-1000"; upd_type := "engineer:add";
                 upd_data := PEngineer (sample_engineer "temp-1000" "Bob");
                 upd_timestamp := 1000;
                 upd_revert := Some (dispatch_closure
                   (SET_ENGINEERS
                      (filter (fun e => Engineer.id e <> "temp-1000")
                         (engineers (sample_store [sample_engineer "e1" "Ada"]))))) |}
              (dispatch_closure
                   (SET_ENGINEERS
                      (filter (fun e => Engineer.id e <> "temp-1000")
                         (engineers (sample_store [sample_engineer "e1" "Ada"]))))))
    as (Hr & _ & _ & Hc & _).
  - vm_compute. reflexivity.
  - reflexivity.
  - reflexivity.
  - reflexivity.
  - split; [exact Hr|]. rewrite Hc. vm_compute. reflexivity.
Defined.



Lemma updateEngineer_begin_fields (state : AppState) (i : string)
    (patch : PartialEngineer.t) (e : Engineer.t) (w : AppWorld) :
  List.find (fun x => String.eqb (Engineer.id x) i) (engineers state) = Some e ->
  let updateId := update_id i (now w) in
  let u := {| upd_id := updateId; upd_type := "engineer:update";
              upd_data := PIdData i (PEngineerJson patch); upd_timestamp := now w;
              upd_revert := Some (dispatch_closure
                                    (UPDATE_ENGINEER i (asPartialEngineer e))) |} in
  let b := updateEngineer_begin state i patch w in
  snd b = Ok (Some updateId)
  /\ env (fst b) = appReducer (env w) (UPDATE_ENGINEER i patch)
  /\ pendingUpdates (fst b) = <[updateId := u]> (pendingUpdates w)
  /\ timeouts (fst b) = timeouts w ++ [(now w + 10000, updateId)]
  /\ now (fst b) = now w
  /\ (forall j, compensations j (trace (fst b)) = compensations j (trace w))
  /\ events (trace (fst b))
     = events (trace w)
       ++ [ {| ev_type := "optimistic:engineer:update";
               ev_payload := PIdData updateId (PIdData i (PEngineerJson patch));
               ev_timestamp := now w; ev_source := local |};
            {| ev_type := "engineer:updated";
               ev_payload := PIdData i (PEngineerJson patch);
               ev_timestamp := now w; ev_source := local |} ].
Proof.
  intros Hfind updateId u b. subst b.
  destruct (updateEngineer_begin state i patch w) as [w' res'] eqn:Hr.
  unfold updateEngineer_begin in Hr. rewrite Hfind in Hr.
  unfold bind at 1, gets at 1 in Hr. cbv beta iota zeta in Hr.
  fold updateId in Hr. clearbody updateId.
  unfold bind at 1 in Hr. rewrite dispatch_eq in Hr. cbv beta iota in Hr.
  unfold bind at 1 in Hr. rewrite Realtime_add_eq in Hr. cbv beta iota zeta in Hr.
  unfold bind at 1 in Hr. rewrite Realtime_emit_eq in Hr. cbv beta iota in Hr.
  unfold ret in Hr. injection Hr as <- <-.
  cbn [fst snd]. subst u. fields. repeat split.
  - intros j. flow_compensations.
  - flow_events w.
Qed.

Lemma updateEngineer_settle_failed (i updateId : string) (res : Awaited PartialEngineer.t)
    t (x : AppWorld) u f :
  pendingUpdates x !! updateId = Some u ->
  upd_revert u = Some f ->
  snd (f (env x)) = None ->
  await_failure res = Some t ->
  let r := updateEngineer_settle i updateId res x in
  snd r = Throw t
  /\ env (fst r) = fst (f (env x))
  /\ pendingUpdates (fst r) = delete updateId (pendingUpdates x)
  /\ compensations updateId (trace (fst r)) = S (compensations updateId (trace x))
  /\ events (trace (fst r))
     = events (trace x)
       ++ [ reverted_event u updateId (now x);
            {| ev_type := "engineer:error";
               ev_payload := PError (message_or "Unknown error" t);
               ev_timestamp := now x; ev_source := local |} ].
Proof.
  intros Hu Hf Hok Hres r. subst r.
  destruct (updateEngineer_settle i updateId res x) as [w' res'] eqn:Hr.
  assert (updateEngineer_settle i updateId res x
          = (Realtime.revertOptimisticUpdate updateId;;
             handleError t;;
             Realtime.emit "engineer:error" (PError (message_or "Unknown error" t)) local;;
             throw t)%js x) as Hfail.
  { unfold updateEngineer_settle, try_catch.
    destruct res as [ok [t'|a]|t']; cbn in Hres; try discriminate;
      injection Hres as ->; reflexivity. }
  rewrite Hfail in Hr. clear Hfail.
  unfold bind at 1 in Hr. rewrite (Realtime_revert_present updateId u f) in Hr by done.
  cbv zeta beta iota in Hr. unfold bind at 1 in Hr. rewrite handleError_eq in Hr.
  cbv beta iota in Hr. unfold bind at 1 in Hr. rewrite Realtime_emit_eq in Hr.
  cbv beta iota in Hr. unfold throw in Hr. injection Hr as <- <-.
  cbn [fst snd]. fields. repeat split.
  - flow_compensations.
  - flow_events x.
Qed.



(** X15.  The compensation of [updateEngineer] is a patch with the engineer
    from before, so it cannot take a field away: when the engineer had no
    avatar and the patch sets one, then after the failed update the engineer
    found under the id still carries the new avatar, and the store is not
    the one before the update. *)
Theorem failed_engineer_update_keeps_new_avatar :
  forall (i : string) (patch : PartialEngineer.t) (e : Engineer.t) (a : string)
         (res : Awaited PartialEngineer.t) (t : Thrown) (w : AppWorld),
    List.find (fun x => String.eqb (Engineer.id x) i) (engineers (env w)) = Some e ->
    default i (PartialEngineer.id patch) = i ->
    Engineer.avatar e = None ->
    PartialEngineer.avatar patch = Some a ->
    await_failure res = Some t ->
    let updateId := update_id i (now w) in
    let b := updateEngineer_begin (env w) i patch w in
    let r := updateEngineer_settle i updateId res (fst b) in
    snd r = Throw t
    /\ (exists e',
          List.find (fun x => String.eqb (Engineer.id x) i) (engineers (env (fst r)))
          = Some e'
          /\ Engineer.avatar e' = Some a)
    /\ env (fst r) <> env w.
Proof.
  intros i patch e a res t w Hfind Hid Hav Hpa Hres updateId b r.
  destruct (updateEngineer_begin_fields (env w) i patch e w Hfind)
    as (Hb & Henv & Hpend & _ & Hnow & Hcomp & Hev).
  fold updateId b in Hb, Henv, Hpend, Hnow, Hcomp, Hev.
  clearbody updateId. subst r. clearbody b.
  destruct (updateEngineer_settle_failed i updateId res t (fst b) _
              (dispatch_closure (UPDATE_ENGINEER i (asPartialEngineer e)))
              ltac:(rewrite Hpend; apply lookup_insert_eq) eq_refl eq_refl Hres)
    as (Hr & Henv' & _).
  split; [done|].
  assert (exists e',
            List.find (fun x => String.eqb (Engineer.id x) i) (engineers (env (fst
              (updateEngineer_settle i updateId res (fst b))))) = Some e'
            /\ Engineer.avatar e' = Some a) as Hex.
  { rewrite Henv'. cbn [dispatch_closure fst]. rewrite Henv.
    destruct (env w) as [cu es ps asg ld tk]. cbn in Hfind.
    cbn [appReducer engineers]. rewrite map_map.
    exists (spreadEngineer (spreadEngineer e patch) (asPartialEngineer e)).
    split.
    - clear -Hfind Hid. induction es as [|y es IH]; [discriminate|].
      cbn in Hfind. cbn [map List.find].
      destruct (String.eqb_spec (Engineer.id y) i) as [Hyi|Hyi].
      + injection Hfind as ->.
        assert (Engineer.id (spreadEngineer e patch) = i) as Hsp.
        { unfold spreadEngineer; cbn. by rewrite Hyi. }
        rewrite Hsp, String.eqb_refl.
        assert (Engineer.id (spreadEngineer (spreadEngineer e patch) (asPartialEngineer e)) = i)
          as -> by (by cbn).
        by rewrite String.eqb_refl.
      + apply String.eqb_neq in Hyi. rewrite Hyi, Hyi. by apply IH.
    - unfold spreadEngineer, asPartialEngineer; cbn. by rewrite Hav, Hpa. }
  split; [exact Hex|].
  intros Heq. destruct Hex as (e' & Hf' & Ha'). rewrite Heq, Hfind in Hf'.
  injection Hf' as <-. congruence.
Qed.

Lemma failed_engineer_update_keeps_new_avatar_witness :
  let w := sample_hook true in
  let patch := PartialEngineer.mk None None None None None None None None
                 (Some "avatar.png") None None in
  let b := updateEngineer_begin (env w) "e1" patch w in
  let r := updateEngineer_settle "e1" "update-e1-0"
             (Rejected (ErrorObject "Failed to fetch")) (fst b) in
  env (fst r) <> env w.
Proof.
  intros w patch.
  destruct (failed_engineer_update_keeps_new_avatar "e1" patch
              (sample_engineer "e1" "Ada") "avatar.png"
              (Rejected (ErrorObject "Failed to fetch"))
              (ErrorObject "Failed to fetch") w) as (_ & _ & Hne);
    [reflexivity|reflexivity|reflexivity|reflexivity|reflexivity|exact Hne].
Defined.
Lemma addEngineer_begin_fields (state : AppState) (data : Engineer.t) (w : AppWorld) :
  let tempId := temp_id (now w) in
  let optimistic := with_engineer_id data tempId in
  let u := {| upd_id := tempId; upd_type := "engineer:add";
              upd_data := PEngineer optimistic; upd_timestamp := now w;
              upd_revert := Some (dispatch_closure
                (SET_ENGINEERS
                   (filter (fun e => Engineer.id e ≠ tempId) (engineers state)))) |} in
  let b := addEngineer_begin state data w in
  snd b = Ok tempId
  /\ env (fst b) = appReducer (env w) (ADD_ENGINEER optimistic)
  /\ pendingUpdates (fst b) = <[tempId := u]> (pendingUpdates w)
  /\ timeouts (fst b) = timeouts w ++ [(now w + 10000, tempId)]
  /\ now (fst b) = now w
  /\ (forall i, compensations i (trace (fst b)) = compensations i (trace w))
  /\ events (trace (fst b))
     = events (trace w)
       ++ [ {| ev_type := "optimistic:engineer:add";
               ev_payload := PIdData tempId (PEngineer optimistic);
               ev_timestamp := now w; ev_source := local |};
            {| ev_type := "engineer:added"; ev_payload := PEngineer optimistic;
               ev_timestamp := now w; ev_source := local |} ].
Proof.
  intros tempId optimistic u b. subst b.
  destruct (addEngineer_begin state data w) as [w' res'] eqn:Hr.
  unfold addEngineer_begin in Hr.
  unfold bind at 1, gets at 1 in Hr. cbv beta iota zeta in Hr.
  fold tempId in Hr. fold optimistic in Hr. clearbody optimistic. clearbody tempId.
  unfold bind at 1 in Hr. rewrite dispatch_eq in Hr. cbv beta iota in Hr.
  unfold bind at 1 in Hr. rewrite Realtime_add_eq in Hr. cbv beta iota zeta in Hr.
  unfold bind at 1 in Hr. rewrite Realtime_emit_eq in Hr. cbv beta iota in Hr.
  unfold ret in Hr. injection Hr as <- <-.
  cbn [fst snd]. subst u. fields. repeat split.
  - intros j. flow_compensations.
  - flow_events w.
Qed.

Lemma addProject_begin_fields (state : AppState) (data : Project.t) (isoNow : string)
    (w : AppWorld) :
  let tempId := temp_id (now w) in
  let optimistic := optimisticProject data tempId isoNow state in
  let u := {| upd_id := tempId; upd_type := "project:add";
              upd_data := PProject optimistic; upd_timestamp := now w;
              upd_revert := Some (dispatch_closure
                (SET_PROJECTS
                   (filter (fun p => Project.id p ≠ tempId) (projects state)))) |} in
  let b := addProject_begin state data isoNow w in
  snd b = Ok tempId
  /\ env (fst b) = appReducer (env w) (ADD_PROJECT optimistic)
  /\ pendingUpdates (fst b) = <[tempId := u]> (pendingUpdates w)
  /\ timeouts (fst b) = timeouts w ++ [(now w + 10000, tempId)]
  /\ now (fst b) = now w
  /\ (forall i, compensations i (trace (fst b)) = compensations i (trace w))
  /\ events (trace (fst b))
     = events (trace w)
       ++ [ {| ev_type := "optimistic:project:add";
               ev_payload := PIdData tempId (PProject optimistic);
               ev_timestamp := now w; ev_source := local |};
            {| ev_type := "project:added"; ev_payload := PProject optimistic;
               ev_timestamp := now w; ev_source := local |} ].
Proof.
  intros tempId optimistic u b. subst b.
  destruct (addProject_begin state data isoNow w) as [w' res'] eqn:Hr.
  unfold addProject_begin in Hr.
  unfold bind at 1, gets at 1 in Hr. cbv beta iota zeta in Hr.
  fold tempId in Hr. fold optimistic in Hr. clearbody optimistic. clearbody tempId.
  unfold bind at 1 in Hr. rewrite dispatch_eq in Hr. cbv beta iota in Hr.
  unfold bind at 1 in Hr. rewrite Realtime_add_eq in Hr. cbv beta iota zeta in Hr.
  unfold bind at 1 in Hr. rewrite Realtime_emit_eq in Hr. cbv beta iota in Hr.
  unfold ret in Hr. injection Hr as <- <-.
  cbn [fst snd]. subst u. fields. repeat split.
  - intros j. flow_compensations.
  - flow_events w.
Qed.

(** X16.  Temporary ids are made from the clock alone, so two adds in the
    same millisecond share one: after [addEngineer] and [addProject] have
    both started at the same clock value, both return the same id, the map
    of pending updates tracks one entry under it, that of the project, and
    two timers are queued for it.  When the engineer's call then fails, the
    revert runs the compensation of the project: the projects become those
    captured by [addProject], the optimistic engineer stays in the store,
    and nothing is tracked under the id any more. *)
Theorem same_tick_adds_share_one_entry :
  forall (state : AppState) (e : Engineer.t) (p : Project.t) (isoNow : string)
         (res : Awaited PartialEngineer.t) (t : Thrown) (w : AppWorld),
    addEngineer_failure res = Some t ->
    let tempId := temp_id (now w) in
    let b1 := addEngineer_begin state e w in
    let b2 := addProject_begin state p isoNow (fst b1) in
    let r := addEngineer_settle tempId res (fst b2) in
    snd b1 = Ok tempId
    /\ snd b2 = Ok tempId
    /\ upd_type <$> pendingUpdates (fst b2) !! tempId = Some "project:add"
    /\ delete tempId (pendingUpdates (fst b2)) = delete tempId (pendingUpdates w)
    /\ timeouts (fst b2)
       = timeouts w ++ [(now w + 10000, tempId); (now w + 10000, tempId)]
    /\ snd r = Throw t
    /\ engineers (env (fst r)) = engineers (env w) ++ [with_engineer_id e tempId]
    /\ projects (env (fst r))
       = filter (fun q => Project.id q ≠ tempId) (projects state)
    /\ pendingUpdates (fst r) = delete tempId (pendingUpdates w)
    /\ compensations tempId (trace (fst r)) = S (compensations tempId (trace w)).
Proof.
  intros state e p isoNow res t w Hres tempId b1 b2 r.
  destruct (addEngineer_begin_fields state e w)
    as (Hb1 & Henv1 & Hpend1 & Htm1 & Hnow1 & Hcomp1 & _).
  fold tempId b1 in Hb1, Henv1, Hpend1, Htm1, Hnow1, Hcomp1.
  destruct (addProject_begin_fields state p isoNow (fst b1))
    as (Hb2 & Henv2 & Hpend2 & Htm2 & Hnow2 & Hcomp2 & _).
  rewrite Hnow1 in Hb2, Henv2, Hpend2, Htm2, Hnow2.
  fold tempId b2 in Hb2, Henv2, Hpend2, Htm2, Hnow2, Hcomp2.
  clearbody tempId. subst r. clearbody b2. clearbody b1.
  destruct (addEngineer_settle_failed tempId res t (fst b2) _
              (dispatch_closure
                 (SET_PROJECTS (filter (fun q => Project.id q ≠ tempId) (projects state))))
              ltac:(rewrite Hpend2; apply lookup_insert_eq) eq_refl eq_refl Hres)
    as (Hr & Henv' & Hpend' & Hcomp' & _).
  split; [done|]. split; [done|].
  split; [by rewrite Hpend2, lookup_insert_eq|].
  split; [by rewrite Hpend2, Hpend1, !delete_insert_eq|].
  split; [by rewrite Htm2, Htm1, <- app_assoc|].
  split; [done|].
  rewrite Henv'. cbn [dispatch_closure fst]. rewrite Henv2, Henv1.
  split; [reflexivity|]. split; [reflexivity|].
  split; [by rewrite Hpend', Hpend2, Hpend1, !delete_insert_eq|].
  by rewrite Hcomp', Hcomp2, Hcomp1.
Qed.

Lemma same_tick_adds_share_one_entry_witness :
  let w := sample_hook true in
  let b1 := addEngineer_begin (env w) (sample_engineer "" "Bob") w in
  let b2 := addProject_begin (env w) (sample_project "" "Atlas")
              "2024-01-01T00:00:00.000Z" (fst b1) in
  let r := addEngineer_settle "temp-0" (Rejected (ErrorObject "Failed to fetch")) (fst b2) in
  map Engineer.id (engineers (env (fst r))) = ["e1"; "temp-0"]
  /\ projects (env (fst r)) = [].
Proof.
  intros w.
  destruct (same_tick_adds_share_one_entry (env w) (sample_engineer "" "Bob")
              (sample_project "" "Atlas") "2024-01-01T00:00:00.000Z"
              (Rejected (ErrorObject "Failed to fetch"))
              (ErrorObject "Failed to fetch") w eq_refl)
    as (_ & _ & _ & _ & _ & _ & He & Hp & _).
  split; [exact (f_equal (map Engineer.id) He)|exact Hp].
Defined.
Section SyncFrame.
Implicit Types (s : SyncState) (os : list Obs).

Lemma compensations_each {A} i type (wrap : A -> Payload) (l : list A) (h : AppWorld) :
  compensations i (flat_map (fun x => emit_obs type (wrap x) server h) l) = 0%nat.
Proof.
  induction l as [|x l IH]; [done|].
  cbn [flat_map]. rewrite compensations_app, (compensations_emit_obs _ true), IH. done.
Qed.

Lemma checkForChanges_quiet newData oldData s :
  exists os,
    checkForChanges newData (Some oldData) s = (sync_add os s, Ok tt)
    /\ forall i, compensations i os = 0%nat.
Proof.
  unfold checkForChanges, bind.
  repeat (rewrite emit_each_eq; cbv iota beta).
  match goal with |- context [if ?b then _ else _] => destruct b end.
  - rewrite in_hook_emit_eq, !sync_add_app. eexists. split; [reflexivity|].
    intros i. rewrite !compensations_app, !compensations_each,
      (compensations_emit_obs _ true). done.
  - unfold ret. rewrite !sync_add_app. eexists. split; [reflexivity|].
    intros i. rewrite !compensations_app, !compensations_each. done.
Qed.

Lemma performSync_frame app net s :
  exists s',
    performSync app net s = (s', Ok tt)
    /\ pendingUpdates (hook s') = pendingUpdates (hook s)
    /\ timeouts (hook s') = timeouts (hook s)
    /\ listeners (hook s') = listeners (hook s)
    /\ now (hook s') = now (hook s)
    /\ isOnline (hook s') = isOnline (hook s)
    /\ isAutoSyncEnabledRef s' = isAutoSyncEnabledRef s
    /\ currentUser (env (hook s')) = currentUser (env (hook s))
    /\ token (env (hook s')) = token (env (hook s))
    /\ isLoading (env (hook s')) = isLoading (env (hook s))
    /\ (forall i, compensations i (trace (hook s')) = compensations i (trace (hook s))).
Proof.
  unfold performSync.
  destruct (negb (bool_decide (is_Some (currentUser app))) || falsy_string (token app))
    eqn:Hact.
  { exists s. by repeat split. }
  apply orb_false_iff in Hact as [Huser Htok].
  apply negb_false_iff, bool_decide_eq_true in Huser.
  destruct (fetchServerData app net) as [t|sd] eqn:Hfetch.
  - unfold try_catch, bind at 1. rewrite in_hook_emit_eq.
    unfold bind at 1. unfold throw, bind.
    rewrite in_hook_observe_eq; cbv beta iota.
    rewrite in_hook_emit_eq. rewrite !sync_add_app.
    eexists. split; [reflexivity|].
    cbn [hook sync_add set_hook lastSyncDataRef isAutoSyncEnabledRef]. fields.
    repeat split. intros i.
    rewrite !compensations_app, !(compensations_emit_obs _ true). cbn. lia.
  - unfold try_catch, bind at 1. rewrite in_hook_emit_eq.
    unfold bind at 1. unfold ret at 1.
    unfold bind at 1. unfold bind at 1. unfold gets at 1.
    assert (exists os,
      (match lastSyncDataRef (sync_add (emit_obs "sync:start" PEmpty local (hook s)) s) with
       | Some _ => checkForChanges sd (lastSyncDataRef (sync_add (emit_obs "sync:start" PEmpty local (hook s)) s))
       | None => ret tt
       end) (sync_add (emit_obs "sync:start" PEmpty local (hook s)) s)
      = (sync_add os (sync_add (emit_obs "sync:start" PEmpty local (hook s)) s), Ok tt)
      /\ forall i, compensations i os = 0%nat) as (os & -> & Hos).
    { cbn [lastSyncDataRef sync_add set_hook]. destruct (lastSyncDataRef s) as [old|].
      - apply checkForChanges_quiet.
      - exists []. by rewrite sync_add_nil. }
    rewrite sync_add_app.
    unfold bind at 1. unfold gets at 1. unfold bind at 1.
    change (getPendingUpdates (hook (sync_add ?o s))) with (getPendingUpdates (hook s)).
    destruct (nonzero (length (getPendingUpdates (hook s)))).
    + unfold resolveConflicts, commit, bind, modify, ret.
      repeat (first [rewrite in_hook_emit_eq | rewrite in_hook_observe_eq
                    | rewrite in_hook_dispatch_eq]; cbv beta iota).
      eexists. split; [reflexivity|].
      cbn [hook sync_add set_hook set_lastSyncDataRef lastSyncDataRef isAutoSyncEnabledRef].
      fields. repeat split. intros i.
      rewrite !compensations_app, !(compensations_emit_obs _ true), Hos. cbn. lia.
    + unfold commit, bind, modify, ret.
      repeat (first [rewrite in_hook_emit_eq | rewrite in_hook_observe_eq
                    | rewrite in_hook_dispatch_eq]; cbv beta iota).
      eexists. split; [reflexivity|].
      cbn [hook sync_add set_hook set_lastSyncDataRef lastSyncDataRef isAutoSyncEnabledRef].
      fields. repeat split. intros i.
      rewrite !compensations_app, !(compensations_emit_obs _ true), Hos. cbn. lia.
Qed.

End SyncFrame.

(** X17.  A sync never throws and never settles anything: whatever the
    session and whatever the remote authority answers, [performSync] returns
    normally; the pending updates, their timers, the listeners, the clock,
    the online flag and the auto-sync flag are as before, no compensation is
    called, and of the store only the three collections can have changed:
    user, token and loading flag are kept. *)
Theorem performSync_never_throws_nor_settles :
  forall (app : AppState) (net : Network) (s : SyncState),
    let r := performSync app net s in
    snd r = Ok tt
    /\ pendingUpdates (hook (fst r)) = pendingUpdates (hook s)
    /\ timeouts (hook (fst r)) = timeouts (hook s)
    /\ listeners (hook (fst r)) = listeners (hook s)
    /\ now (hook (fst r)) = now (hook s)
    /\ isOnline (hook (fst r)) = isOnline (hook s)
    /\ isAutoSyncEnabledRef (fst r) = isAutoSyncEnabledRef s
    /\ currentUser (env (hook (fst r))) = currentUser (env (hook s))
    /\ token (env (hook (fst r))) = token (env (hook s))
    /\ isLoading (env (hook (fst r))) = isLoading (env (hook s))
    /\ (forall i, compensations i (trace (hook (fst r)))
                  = compensations i (trace (hook s))).
Proof.
  intros app net s r. subst r.
  destruct (performSync_frame app net s) as (s' & -> & H). exact (conj eq_refl H).
Qed.

(** X18.  [fetchServerData] is all or nothing: it returns a snapshot exactly
    when there is a token and each of the three requests was answered with an
    ok response whose body could be read, and the snapshot then holds the
    three bodies; without a token it fails with [No authentication token]
    whatever the answers are, and with a token and three responses of which
    one is not ok it fails with [Failed to fetch server data] whatever the
    bodies are. *)
Theorem fetchServerData_all_or_nothing :
  forall (app : AppState) (net : Network),
    (forall d,
       fetchServerData app net = inr d
       <-> falsy_string (token app) = false
           /\ net_engineers net = FetchResponse true (inr (ServerData.engineers d))
           /\ net_projects net = FetchResponse true (inr (ServerData.projects d))
           /\ net_assignments net = FetchResponse true (inr (ServerData.assignments d)))
    /\ (falsy_string (token app) = true
        -> fetchServerData app net = inl (ErrorObject "No authentication token"))
    /\ (forall ok1 j1 ok2 j2 ok3 j3,
          falsy_string (token app) = false ->
          net = {| net_engineers := FetchResponse ok1 j1;
                   net_projects := FetchResponse ok2 j2;
                   net_assignments := FetchResponse ok3 j3 |} ->
          ok1 && ok2 && ok3 = false ->
          fetchServerData app net = inl (ErrorObject "Failed to fetch server data")).
Proof.
  intros app net. split; [|split].
  - intros d. unfold fetchServerData. split.
    + destruct (falsy_string (token app)); [discriminate|].
      destruct net as [[t1|ok1 [t1|es]] [t2|ok2 [t2|ps]] [t3|ok3 [t3|asg]]];
        cbn; try discriminate;
        destruct ok1, ok2, ok3; cbn; try discriminate;
        intros [= <-]; done.
    + intros (-> & He & Hp & Ha). destruct net as [ne np na]. cbn in He, Hp, Ha.
      subst. cbn. by destruct d.
  - intros Htok. unfold fetchServerData. by rewrite Htok.
  - intros ok1 j1 ok2 j2 ok3 j3 Htok -> Hok. unfold fetchServerData. rewrite Htok. cbn.
    destruct ok1, ok2, ok3; cbn in *; try discriminate; reflexivity.
Qed.

Lemma fetchServerData_all_or_nothing_witness :
  fetchServerData (sample_store []) (answers [sample_engineer "e1" "Ada"])
  = inr (snapshot [sample_engineer "e1" "Ada"])
  /\ fetchServerData (sample_store [])
       {| net_engineers := FetchResponse true (inr []);
          net_projects := FetchResponse false (inr []);
          net_assignments := FetchResponse true (inl NonError) |}
     = inl (ErrorObject "Failed to fetch server data").
Proof.
  destruct (fetchServerData_all_or_nothing (sample_store [])
              (answers [sample_engineer "e1" "Ada"])) as (Hiff & _ & _).
  destruct (fetchServerData_all_or_nothing (sample_store [])
              {| net_engineers := FetchResponse true (inr []);
                 net_projects := FetchResponse false (inr []);
                 net_assignments := FetchResponse true (inl NonError) |}) as (_ & _ & Hnok).
  split.
  - apply Hiff. repeat split; reflexivity.
  - apply (Hnok true (inr []) false (inr []) true (inl NonError));
      reflexivity.
Defined.

Section DiffCounts.
Context {A : Type} (id : A -> string) (stringify : A -> string).
Implicit Types (x e : A) (l k : list A).

Lemma find_by_id_elem i l : is_Some (find_by_id id i l) <-> i ∈ map id l.
Proof.
  split.
  - intros [x Hx]. unfold find_by_id in Hx. apply List.find_some in Hx as [Hin Heq].
    apply String.eqb_eq in Heq. subst i. apply list_elem_of_fmap. exists x.
    split; [done|]. by apply list_elem_of_In.
  - intros Hin. apply list_elem_of_fmap in Hin as (x & -> & Hx).
    by apply find_by_id_is_Some.
Qed.

Lemma find_by_id_Some_id i l x : find_by_id id i l = Some x -> x ∈ l /\ id x = i.
Proof.
  intros Hx. unfold find_by_id in Hx. apply List.find_some in Hx as [Hin Heq].
  apply String.eqb_eq in Heq. split; [by apply list_elem_of_In|done].
Qed.

Lemma list_filter_elem (f : A -> bool) l x : x ∈ List.filter f l <-> x ∈ l /\ f x = true.
Proof. rewrite !list_elem_of_In. apply List.filter_In. Qed.

Lemma list_filter_split (f : A -> bool) l :
  (length (List.filter f l) + length (List.filter (fun x => negb (f x)) l))%nat = length l.
Proof.
  induction l as [|x l IH]; [done|]. cbn [List.filter].
  destruct (f x); cbn [negb length]; lia.
Qed.

Lemma NoDup_ids_filter (f : A -> bool) l :
  NoDup (map id l) -> NoDup (map id (List.filter f l)).
Proof.
  induction l as [|x l IH]; intros Hnd; [done|].
  cbn in Hnd. apply NoDup_cons in Hnd as [Hx Hnd]. cbn [List.filter].
  destruct (f x); [|by apply IH]. cbn. apply NoDup_cons. split; [|by apply IH].
  intros Hin. apply Hx. apply list_elem_of_fmap in Hin as (y & -> & Hy).
  apply list_filter_elem in Hy as [Hy _]. apply list_elem_of_fmap. by exists y.
Qed.

(** The records whose id both collections have are as many on either side. *)
Lemma common_ids_length l k :
  NoDup (map id l) -> NoDup (map id k) ->
  length (List.filter (fun e => bool_decide (is_Some (find_by_id id (id e) k))) l)
  = length (List.filter (fun e => bool_decide (is_Some (find_by_id id (id e) l))) k).
Proof.
  intros Hl Hk.
  rewrite <- (length_map id (List.filter _ l)), <- (length_map id (List.filter _ k)).
  apply Permutation_length, NoDup_Permutation; [by apply NoDup_ids_filter..|].
  intros i. split; intros Hin; apply list_elem_of_fmap in Hin as (x & -> & Hx);
    apply list_filter_elem in Hx as [Hx Hf]; apply bool_decide_eq_true in Hf;
    apply find_by_id_elem in Hf; apply list_elem_of_fmap in Hf as (y & Hid & Hy);
    apply list_elem_of_fmap; exists y; (split; [done|]);
    apply list_filter_elem; (split; [done|]); apply bool_decide_eq_true;
    rewrite <- Hid; by apply find_by_id_is_Some.
Qed.

Lemma diff_count newL oldL :
  NoDup (map id newL) -> NoDup (map id oldL) ->
  (length newL + length (removedItems id newL oldL))%nat
  = (length oldL + length (newItems id newL oldL))%nat.
Proof.
  intros Hn Ho. unfold removedItems, newItems.
  pose proof (list_filter_split
    (fun e => bool_decide (is_Some (find_by_id id (id e) oldL))) newL) as H1.
  pose proof (list_filter_split
    (fun e => bool_decide (is_Some (find_by_id id (id e) newL))) oldL) as H2.
  pose proof (common_ids_length newL oldL Hn Ho) as H3. cbv beta in H1, H2. lia.
Qed.

Lemma find_by_id_unique_old i l x old :
  NoDup (map id l) -> find_by_id id i l = Some x -> old ∈ l -> id old = i -> old = x.
Proof.
  intros Hnd Hfind Hold Hid. subst i.
  rewrite (find_by_id_NoDup id old l Hnd Hold) in Hfind. congruence.
Qed.

Lemma diff_classes newL oldL x :
  NoDup (map id oldL) -> x ∈ newL ->
  (x ∈ newItems id newL oldL <-> id x ∉ map id oldL)
  /\ (x ∈ updatedItems id stringify newL oldL
      <-> exists old, old ∈ oldL /\ id old = id x /\ stringify old <> stringify x)
  /\ ((x ∉ newItems id newL oldL) /\ (x ∉ updatedItems id stringify newL oldL)
      <-> exists old, old ∈ oldL /\ id old = id x /\ stringify old = stringify x).
Proof.
  intros Ho Hx.
  assert (x ∈ newItems id newL oldL <-> id x ∉ map id oldL) as Hnew.
  { unfold newItems. rewrite list_filter_elem, negb_true_iff, bool_decide_eq_false,
      find_by_id_elem. tauto. }
  assert (x ∈ updatedItems id stringify newL oldL
          <-> exists old, old ∈ oldL /\ id old = id x /\ stringify old <> stringify x)
    as Hupd.
  { unfold updatedItems. rewrite list_filter_elem. split.
    - intros [_ Hf]. destruct (find_by_id id (id x) oldL) as [old|] eqn:Hfind; [|done].
      apply negb_true_iff, String.eqb_neq in Hf.
      apply find_by_id_Some_id in Hfind as [Hin Hid]. by exists old.
    - intros (old & Hin & Hid & Hne). split; [done|].
      rewrite <- Hid, (find_by_id_NoDup id old oldL Ho Hin).
      by apply negb_true_iff, String.eqb_neq. }
  split; [exact Hnew|]. split; [exact Hupd|].
  rewrite Hnew, Hupd. split.
  - intros [H1 H2]. destruct (find_by_id id (id x) oldL) as [old|] eqn:Hfind.
    + apply find_by_id_Some_id in Hfind as [Hin Hid]. exists old.
      split; [done|]. split; [done|].
      destruct (String.eqb_spec (stringify old) (stringify x)) as [|Hne]; [done|].
      exfalso. apply H2. by exists old.
    + exfalso. apply H1. intros Hin. apply find_by_id_elem in Hin as [? Hin].
      congruence.
  - intros (old & Hin & Hid & Heq). split.
    + intros Hout. apply Hout. rewrite <- Hid. apply list_elem_of_fmap. by exists old.
    + intros (old' & Hin' & Hid' & Hne). apply Hne.
      assert (old' = old) as ->; [|done].
      apply (find_by_id_unique_old (id x) oldL); try done.
      rewrite <- Hid. by apply find_by_id_NoDup.
Qed.

End DiffCounts.

(** X19.  With ids that identify the old records, the diff of
    [checkForChanges] classifies every record of the new collection in exactly
    one way, by its id and by its [JSON.stringify] text: it is new exactly
    when its id is not among the old ids, updated exactly when the old record
    of its id has another text, and in neither class exactly when the old
    record of its id has the same text.  The fields are not compared: a
    record that comes back with the same fields and another text is
    updated. *)
Theorem diff_classifies_every_record :
  forall (A : Type) (id stringify : A -> string) (newL oldL : list A) (x : A),
    NoDup (map id oldL) ->
    x ∈ newL ->
    (x ∈ newItems id newL oldL <-> id x ∉ map id oldL)
    /\ (x ∈ updatedItems id stringify newL oldL
        <-> exists old, old ∈ oldL /\ id old = id x /\ stringify old <> stringify x)
    /\ ((x ∉ newItems id newL oldL) /\ (x ∉ updatedItems id stringify newL oldL)
        <-> exists old, old ∈ oldL /\ id old = id x /\ stringify old = stringify x).
Proof.
  intros A id stringify newL oldL x Hnd Hx.
  exact (diff_classes id stringify newL oldL x Hnd Hx).
Qed.

Lemma diff_classifies_every_record_witness :
  let ada := sample_engineer "e1" "Ada" in
  let old := [sent_engineer ada] in
  let reordered := {| Received.value := ada; Received.text := "Ada engineer e1" |} in
  let new := [reordered; sent_engineer (sample_engineer "e2" "Eve")] in
  reordered ∈ updatedItems (received_id Engineer.id) Received.text new old
  /\ sent_engineer (sample_engineer "e2" "Eve") ∈ newItems (received_id Engineer.id) new old.
Proof.
  intros ada old reordered new. split.
  - apply (diff_classifies_every_record _ (received_id Engineer.id) Received.text
             new old reordered).
    + cbn. apply NoDup_singleton.
    + apply list_elem_of_here.
    + exists (sent_engineer ada). split; [apply list_elem_of_here|].
      split; [reflexivity|]. cbn. discriminate.
  - apply (diff_classifies_every_record _ (received_id Engineer.id) Received.text
             new old (sent_engineer (sample_engineer "e2" "Eve"))).
    + cbn. apply NoDup_singleton.
    + apply list_elem_of_further, list_elem_of_here.
    + cbn. intros Hin. apply list_elem_of_singleton in Hin. discriminate.
Defined.

(** X20.  The counts of the aggregate event account for the sizes: between
    two snapshots whose ids identify their records, each new collection has
    as many records as the old one, plus those counted as added, minus those
    counted as removed. *)
Theorem change_counts_account_for_sizes :
  forall (newData oldData : ServerData.t),
    keyed_by_id newData ->
    keyed_by_id oldData ->
    let c := change_counts newData oldData in
    (length (ServerData.engineers newData) + Counts.engineers (removed c)
     = length (ServerData.engineers oldData) + Counts.engineers (added c))%nat
    /\ (length (ServerData.projects newData) + Counts.projects (removed c)
        = length (ServerData.projects oldData) + Counts.projects (added c))%nat
    /\ (length (ServerData.assignments newData) + Counts.assignments (removed c)
        = length (ServerData.assignments oldData) + Counts.assignments (added c))%nat.
Proof.
  intros newData oldData (Hne & Hnp & Hna) (Hoe & Hop & Hoa) c. subst c.
  cbn [change_counts added removed Counts.engineers Counts.projects Counts.assignments].
  split; [by apply diff_count|]. split; by apply diff_count.
Qed.

Lemma change_counts_account_for_sizes_witness :
  let old := snapshot [sample_engineer "e1" "Ada"; sample_engineer "e3" "Kay"] in
  let new := snapshot [sample_engineer "e1" "Grace"; sample_engineer "e2" "Eve"] in
  (2 + Counts.engineers (removed (change_counts new old))
   = 2 + Counts.engineers (added (change_counts new old)))%nat.
Proof.
  intros old new.
  destruct (change_counts_account_for_sizes new old) as (He & _).
  - repeat split; cbn; by apply (bool_decide_unpack _).
  - repeat split; cbn; by apply (bool_decide_unpack _).
  - exact He.
Defined.

Lemma diff_events_same t d : keyed_by_id d -> diff_events t d d = [].
Proof.
  intros (He & Hp & Ha).
  assert (forall {A} (id stringify : A -> string) (l : list A),
            NoDup (map id l) ->
            newItems id l l = [] /\ removedItems id l l = []
            /\ updatedItems id stringify l l = [])
    as Hsame.
  { intros A id stringify l Hnd. split; [by apply newItems_subset|].
    split; [by apply removedItems_subset|].
    apply updatedItems_unchanged; [done|]. intros x Hx. by left. }
  destruct (Hsame _ (received_id Engineer.id) Received.text _ He) as (E1 & E2 & E3).
  destruct (Hsame _ (received_id Project.id) Received.text _ Hp) as (P1 & P2 & P3).
  destruct (Hsame _ (received_id Assignment.id) Received.text _ Ha) as (A1 & A2 & A3).
  unfold diff_events, per_record_events, change_counts, any_change.
  cbn [added removed updated Counts.engineers Counts.projects Counts.assignments].
  rewrite E1, E2, E3, P1, P2, P3, A1, A2, A3. reflexivity.
Qed.

(** X21.  A sync that fetches the snapshot it already retains reports no
    external change: after a successful sync with a snapshot whose ids
    identify its records, a further successful sync with the same snapshot,
    each record with the [JSON.stringify] text it had, emits [sync:start],
    the conflict event if updates are pending, and [sync:complete], and
    nothing else, and it leaves the store as the first sync left it. *)
Theorem resync_of_same_snapshot_is_silent :
  forall (app app' : AppState) (net net' : Network) (s : SyncState) (sd : ServerData.t),
    session_active app ->
    session_active app' ->
    fetchServerData app net = inr sd ->
    fetchServerData app' net' = inr sd ->
    keyed_by_id sd ->
    let s1 := fst (performSync app net s) in
    sync_events app' net' s1
    = [sync_start_event (now (hook s))]
      ++ (if nonzero (length (getPendingUpdates (hook s)))
          then [conflict_event (now (hook s)) sd (currentData app')] else [])
      ++ [sync_complete_event (now (hook s)) sd]
    /\ env (hook (fst (performSync app' net' s1))) = env (hook s1).
Proof.
  intros app app' net net' s sd Hact Hact' Hfetch Hfetch' Hkeyed s1.
  destruct (performSync_success app net s sd Hact Hfetch)
    as (s' & Heq & Henv & Hlast & Hpend & _ & _).
  destruct (performSync_frame app net s) as (s'' & Heq' & _ & _ & _ & Hnow & _).
  rewrite Heq in Heq'. injection Heq' as <-.
  assert (s1 = s') as -> by (subst s1; by rewrite Heq).
  destruct (performSync_success app' net' s' sd Hact' Hfetch')
    as (s2 & Heq2 & Henv2 & _ & _ & _ & Hev2).
  unfold sync_events. rewrite Heq2. cbn [fst]. split.
  - apply events_since_app. rewrite Hev2, Hlast. cbn [external_events].
    rewrite diff_events_same by done. unfold getPendingUpdates. rewrite Hpend, Hnow.
    reflexivity.
  - rewrite Henv2, Henv. reflexivity.
Qed.

Lemma resync_of_same_snapshot_is_silent_witness :
  let app := sample_store [] in
  let net := answers [sample_engineer "e1" "Ada"; sample_engineer "e2" "Eve"] in
  let s := sample_sync (sample_hook true) None in
  let s1 := fst (performSync app net s) in
  env (hook (fst (performSync app net s1))) = env (hook s1).
Proof.
  intros app net s.
  destruct (resync_of_same_snapshot_is_silent app app net net s
              (snapshot [sample_engineer "e1" "Ada"; sample_engineer "e2" "Eve"]))
    as [_ Henv].
  - split; [by eexists|reflexivity].
  - split; [by eexists|reflexivity].
  - reflexivity.
  - reflexivity.
  - repeat split; cbn; by apply (bool_decide_unpack _).
  - exact Henv.
Defined.

(** X22.  A sync between an optimistic add and its confirmation duplicates
    the record: when [addAssignment] has started, a sync then succeeds with a
    snapshot that already holds the record the server created, and the call
    is then confirmed with that record, the sync has kept the entry pending,
    the confirmation removes the temporary id only, and the store ends up
    with the snapshot's assignments followed by the record once more, so that
    its assignments no longer have distinct ids. *)
Theorem sync_before_confirmation_duplicates_record :
  forall (app state : AppState) (net : Network) (s : SyncState) (sd : ServerData.t)
         (data : Assignment.t) (isoNow : string) (ok : bool) (assignment : Assignment.t),
    session_active app ->
    fetchServerData app net = inr sd ->
    assignment ∈ map Received.value (ServerData.assignments sd) ->
    temp_id (now (hook s))
      ∉ map Assignment.id (map Received.value (ServerData.assignments sd)) ->
    let tempId := temp_id (now (hook s)) in
    let b := addAssignment_begin state data isoNow (hook s) in
    let s1 := fst (performSync app net (set_hook (fst b) s)) in
    let r := addAssignment_settle tempId (Fulfilled ok (inr assignment)) (hook s1) in
    is_Some (pendingUpdates (hook s1) !! tempId)
    /\ snd r = Ok tt
    /\ assignments (env (fst r))
       = map Received.value (ServerData.assignments sd) ++ [assignment]
    /\ ~ NoDup (map Assignment.id (assignments (env (fst r)))).
Proof.
  intros app state net s sd data isoNow ok assignment Hact Hfetch Hin Hfresh tempId b s1 r.
  destruct (addAssignment_begin_fields state data isoNow (hook s))
    as (_ & _ & Hpend & _).
  fold tempId b in Hpend. fold tempId in Hfresh. clearbody tempId. clearbody b.
  destruct (performSync_success app net (set_hook (fst b) s) sd Hact Hfetch)
    as (s' & Heq & Henv & _ & Hpend' & _).
  assert (s1 = s') as -> by (subst s1; by rewrite Heq).
  cbn [hook set_hook] in Henv, Hpend'. rewrite Hpend in Hpend'.
  assert (pendingUpdates (hook s') !! tempId = Some
            {| upd_id := tempId; upd_type := "assignment:add";
               upd_data := PAssignment (optimisticAssignment data tempId isoNow state);
               upd_timestamp := now (hook s);
               upd_revert := Some (dispatch_closure (REMOVE_ASSIGNMENT tempId)) |})
    as Hlook by (rewrite Hpend'; apply lookup_insert_eq).
  split; [by rewrite Hlook|]. subst r.
  destruct (addAssignment_settle_confirmed tempId ok assignment (hook s') _ Hlook)
    as (Hr & Henv' & _).
  split; [done|].
  assert (assignments (env (fst (addAssignment_settle tempId
                                   (Fulfilled ok (inr assignment)) (hook s'))))
          = map Received.value (ServerData.assignments sd) ++ [assignment]) as Hasg.
  { rewrite Henv', Henv. cbn [appReducer assignments with_collections].
    f_equal. apply filter_id_fresh. done. }
  split; [exact Hasg|]. rewrite Hasg, map_app. intros Hnd.
  apply NoDup_app in Hnd as (_ & Hdisj & _).
  apply (Hdisj (Assignment.id assignment)).
  - apply list_elem_of_fmap. by exists assignment.
  - cbn. apply list_elem_of_here.
Qed.

Lemma sync_before_confirmation_duplicates_record_witness :
  let app := sample_store [] in
  let a := sample_assignment "a7" (EngineerIdString "e1") 60 in
  let net := {| net_engineers := FetchResponse true (inr []);
                net_projects := FetchResponse true (inr []);
                net_assignments := FetchResponse true (inr [sent_assignment a]) |} in
  let s := sample_sync (sample_hook true) None in
  let b := addAssignment_begin app (sample_assignment "" (EngineerIdString "e1") 60)
             "2024-01-01T00:00:00.000Z" (hook s) in
  let s1 := fst (performSync app net (set_hook (fst b) s)) in
  let r := addAssignment_settle "temp-0" (Fulfilled true (inr a)) (hook s1) in
  assignments (env (fst r)) = [a; a].
Proof.
  intros app a net s.
  destruct (sync_before_confirmation_duplicates_record app app net s
              {| ServerData.engineers := []; ServerData.projects := [];
                 ServerData.assignments := [sent_assignment a] |}
              (sample_assignment "" (EngineerIdString "e1") 60)
              "2024-01-01T00:00:00.000Z" true a)
    as (_ & _ & Hasg & _).
  - split; [by eexists|reflexivity].
  - reflexivity.
  - cbn. apply list_elem_of_here.
  - cbn. intros Hx. apply list_elem_of_singleton in Hx. discriminate.
  - exact Hasg.
Defined.

Lemma find_assignment_split (i : string) (a : Assignment.t) (l : list Assignment.t) :
  NoDup (map Assignment.id l) ->
  List.find (fun x => String.eqb (Assignment.id x) i) l = Some a ->
  exists l1 l2,
    l = l1 ++ a :: l2 /\ Assignment.id a = i
    /\ (i ∉ map Assignment.id l1) /\ (i ∉ map Assignment.id l2).
Proof.
  induction l as [|y l IH]; intros Hnd Hfind; [discriminate|].
  cbn in Hnd. apply NoDup_cons in Hnd as [Hy Hnd]. cbn in Hfind.
  destruct (String.eqb_spec (Assignment.id y) i) as [Hyi|Hyi].
  - injection Hfind as ->. exists [], l. repeat split; [done|apply not_elem_of_nil|].
    by rewrite <- Hyi.
  - destruct (IH Hnd Hfind) as (l1 & l2 & -> & Hid & H1 & H2).
    exists (y :: l1), l2. repeat split; [done| |done].
    cbn. intros Hin. apply elem_of_cons in Hin as [Hin|Hin]; [by apply Hyi|done].
Qed.

(** X23.  The compensation of [removeAssignment] puts the record back at the
    end: on a store whose assignments have distinct ids, removing the
    assignment found under an id and adding it again leaves the other
    assignments in their order followed by the record; the assignments are
    the former ones in another order, and the store is the one before exactly
    when the record was the last assignment. *)
Theorem remove_then_readd_moves_to_end :
  forall (st : AppState) (i : string) (a : Assignment.t),
    NoDup (map Assignment.id (assignments st)) ->
    List.find (fun x => String.eqb (Assignment.id x) i) (assignments st) = Some a ->
    let st' := appReducer (appReducer st (REMOVE_ASSIGNMENT i)) (ADD_ASSIGNMENT a) in
    assignments st' = filter (fun x => Assignment.id x ≠ i) (assignments st) ++ [a]
    /\ assignments st' ≡ₚ assignments st
    /\ (st' = st <-> last (assignments st) = Some a).
Proof.
  intros st i a Hnd Hfind st'. subst st'. destruct st as [cu es ps asg ld tk].
  cbn in Hnd, Hfind. cbn [appReducer assignments].
  destruct (find_assignment_split i a asg Hnd Hfind) as (l1 & l2 & -> & Hid & H1 & H2).
  assert (filter (fun x => Assignment.id x ≠ i) (l1 ++ a :: l2) = l1 ++ l2) as Hfilter.
  { rewrite filter_app, filter_cons.
    destruct (decide (Assignment.id a ≠ i)) as [Hne|_]; [done|].
    by rewrite !filter_id_fresh. }
  rewrite Hfilter. split; [done|]. split.
  - rewrite <- app_assoc. apply Permutation_app_head.
    symmetry. apply Permutation_cons_append.
  - split.
    + intros Heq. injection Heq as Heq. rewrite <- app_assoc in Heq.
      apply app_inv_head in Heq. destruct l2 as [|b l2]; [by rewrite last_snoc|].
      exfalso. injection Heq as -> _. apply H2. cbn. rewrite Hid. apply list_elem_of_here.
    + intros Hlast. destruct l2 as [|b l2] using rev_ind; [by rewrite app_nil_r|].
      exfalso. clear IHl2. rewrite app_comm_cons, app_assoc, last_snoc in Hlast.
      injection Hlast as ->. apply H2. rewrite map_app, elem_of_app. right. cbn.
      rewrite Hid. apply list_elem_of_here.
Qed.

Lemma remove_then_readd_moves_to_end_witness :
  let st := sample_workload_store in
  let a1 := sample_assignment "a1"
              (EngineerPopulated {| PopulatedEngineer._id := "e1";
                                    PopulatedEngineer.name := "Ada";
                                    PopulatedEngineer.email := "eng@example.com" |}) 40 in
  map Assignment.id
    (assignments (appReducer (appReducer st (REMOVE_ASSIGNMENT "a1")) (ADD_ASSIGNMENT a1)))
  = ["a2"; "a1"].
Proof.
  intros st a1.
  destruct (remove_then_readd_moves_to_end st "a1" a1) as (Hasg & _).
  - cbn. by apply (bool_decide_unpack _).
  - reflexivity.
  - exact (f_equal (map Assignment.id) Hasg).
Defined.

(** ** The error handler *)

Lemma apiError_facts (status : Z) (d : ErrorHandling.ApiError) :
  let error := ErrorHandling.apiError status d in
  (ErrorHandling.isRetryable (ErrorHandling.IsApplicationError error) = true
   <-> 500 <= status)
  /\ ErrorHandling.statusCode error = Some (if Z.eqb status 422 then 400 else status)
  /\ (ErrorHandling.cls error = ErrorHandling.AuthenticationErrorClass <-> status = 401)
  /\ (ErrorHandling.cls error = ErrorHandling.ValidationErrorClass
      <-> status = 400 \/ status = 422)
  /\ ErrorHandling.cls error <> ErrorHandling.NetworkErrorClass.
Proof.
  intros error. subst error. unfold ErrorHandling.apiError. cbv zeta.
  assert (forall c : Z, Z.leb 500 c = true <-> 500 <= c) as Hleb
    by (intros c; apply Z.leb_le).
  destruct (Z.eqb_spec status 401) as [E|N401];
    [rewrite E; cbn; rewrite ?Hleb; intuition (try lia; try discriminate)|].
  destruct (Z.eqb_spec status 422) as [E|N422];
    [rewrite E; cbn; rewrite ?Hleb; intuition (try lia; try discriminate)|].
  destruct (Z.eqb_spec status 400) as [E|N400];
    [rewrite E; cbn; rewrite ?Hleb; intuition (try lia; try discriminate)|].
  cbn [orb].
  destruct (Z.eqb_spec status 429) as [E|N429];
    [rewrite E; cbn; rewrite ?Hleb; intuition (try lia; try discriminate)|].
  destruct (Z.eqb_spec status 500) as [E|N500];
    [rewrite E; cbn; rewrite ?Hleb; intuition (try lia; try discriminate)|].
  destruct (Z.eqb_spec status 502) as [E|N502];
    [rewrite E; cbn; rewrite ?Hleb; intuition (try lia; try discriminate)|].
  destruct (Z.eqb_spec status 503) as [E|N503];
    [rewrite E; cbn; rewrite ?Hleb; intuition (try lia; try discriminate)|].
  destruct (Z.eqb_spec status 504) as [E|N504];
    [rewrite E; cbn; rewrite ?Hleb; intuition (try lia; try discriminate)|].
  cbn. rewrite ?Hleb. intuition (try lia; try discriminate).
Qed.

Lemma apiError_title (status : Z) (d : ErrorHandling.ApiError) :
  ErrorHandling.getErrorTitle
    (ErrorHandling.getSeverity
       (ErrorHandling.IsApplicationError (ErrorHandling.apiError status d)))
  = (if Z.eqb status 401 then "Error"
     else if Z.eqb status 400 || Z.eqb status 422 then "Notice" else "Warning").
Proof.
  unfold ErrorHandling.apiError. cbv zeta.
  destruct (Z.eqb_spec status 401) as [E|N401]; [done|].
  destruct (Z.eqb_spec status 422) as [E|N422]; [by rewrite orb_true_r|].
  destruct (Z.eqb_spec status 400) as [E|N400]; [done|].
  cbn [orb].
  destruct (Z.eqb status 429); [done|].
  destruct (Z.eqb status 500 || Z.eqb status 502 || Z.eqb status 503 || Z.eqb status 504);
    done.
Qed.

(** What [parseApiError] does, by the body: it throws exactly for the body
    [null], and otherwise builds the error of the [switch]. *)
Lemma parseApiError_cases {A} (nullMessage : string) (response : ErrorHandling.Response A) :
  (ErrorHandling.errorData response = inr None
   /\ ErrorHandling.parseApiError nullMessage response
      = inl (ErrorHandling.IsError true "TypeError" nullMessage))
  \/ (ErrorHandling.errorData response <> inr None
      /\ exists d, ErrorHandling.parseApiError nullMessage response
                   = inr (ErrorHandling.apiError (ErrorHandling.status response) d)).
Proof.
  unfold ErrorHandling.parseApiError.
  destruct (ErrorHandling.errorData response) as [t|[d|]].
  - right. split; [discriminate|]. by eexists.
  - right. split; [discriminate|]. by eexists.
  - left. done.
Qed.

(** X24.  [parseApiError] makes an error retryable exactly for the statuses
    from 500 on: of the error it builds for a response, [isRetryable] holds
    exactly when the status is at least 500; the error always carries a status
    code, which is the status of the response except that 422 is recorded as
    400; and it is an [AuthenticationError] exactly for 401 and a
    [ValidationError] exactly for 400 and 422.  It builds an error for every
    response but one whose body is [null]: for that body, and only for it, it
    throws the [TypeError] of reading a property of [null]. *)
Theorem parseApiError_retryable_from_500 :
  forall (A : Type) (nullMessage : string) (response : ErrorHandling.Response A),
    let status := ErrorHandling.status response in
    match ErrorHandling.parseApiError nullMessage response with
    | inr error =>
        (ErrorHandling.isRetryable (ErrorHandling.IsApplicationError error) = true
         <-> 500 <= status)
        /\ ErrorHandling.statusCode error = Some (if Z.eqb status 422 then 400 else status)
        /\ (ErrorHandling.cls error = ErrorHandling.AuthenticationErrorClass
            <-> status = 401)
        /\ (ErrorHandling.cls error = ErrorHandling.ValidationErrorClass
            <-> status = 400 \/ status = 422)
        /\ ErrorHandling.cls error <> ErrorHandling.NetworkErrorClass
        /\ ErrorHandling.errorData response <> inr None
    | inl thrown =>
        thrown = ErrorHandling.IsError true "TypeError" nullMessage
        /\ ErrorHandling.errorData response = inr None
    end.
Proof.
  intros A nullMessage response status. subst status.
  destruct (parseApiError_cases nullMessage response) as [[Hnull ->]|[Hbody [d ->]]].
  - done.
  - destruct (apiError_facts (ErrorHandling.status response) d) as (H1 & H2 & H3 & H4 & H5).
    done.
Qed.

(** X25.  The toast never says [Critical Error]: whatever is handled, a
    toast that [handle] shows is titled [Error], [Warning] or [Notice], its
    text is the user message of the error, its variant is [default] exactly
    for a [ValidationError], and it offers a retry only if a retry action was
    given and the error is retryable.  For the error built from a response
    the title is [Error] for status 401, [Notice] for 400 and 422 and
    [Warning] for every other status, server errors included; for the
    [TypeError] thrown on a [null] body it is [Warning]. *)
Theorem toast_title_never_critical :
  forall (A : Type) (error : ErrorHandling.Caught)
         (options : ErrorHandling.ErrorHandlerOptions)
         (nullMessage : string) (response : ErrorHandling.Response A),
    (forall t d v r,
       ErrorHandling.Toast t d v r ∈ ErrorHandling.handle error options ->
       t ∈ ["Error"; "Warning"; "Notice"]
       /\ d = ErrorHandling.getUserMessage error
       /\ (v = "default" <-> ErrorHandling.getSeverity error = ErrorHandling.LOW)
       /\ r = ErrorHandling.retryAction options && ErrorHandling.isRetryable error)
    /\ match ErrorHandling.parseApiError nullMessage response with
       | inr built =>
           ErrorHandling.getErrorTitle
             (ErrorHandling.getSeverity (ErrorHandling.IsApplicationError built))
           = (if Z.eqb (ErrorHandling.status response) 401 then "Error"
              else if Z.eqb (ErrorHandling.status response) 400
                      || Z.eqb (ErrorHandling.status response) 422
                   then "Notice" else "Warning")
       | inl thrown =>
           ErrorHandling.getErrorTitle (ErrorHandling.getSeverity thrown) = "Warning"
       end.
Proof.
  intros A error options nullMessage response. split.
  - intros t d v r Hin. unfold ErrorHandling.handle, ErrorHandling.showErrorToast in Hin.
    apply elem_of_app in Hin as [Hin|Hin].
    { destruct (default true (ErrorHandling.logError options)).
      - apply list_elem_of_singleton in Hin. discriminate.
      - by apply elem_of_nil in Hin. }
    apply elem_of_app in Hin as [Hin|Hin].
    + destruct (default true (ErrorHandling.showToast options));
        [|by apply elem_of_nil in Hin].
      apply list_elem_of_singleton in Hin. injection Hin as -> -> -> ->.
      destruct (ErrorHandling.getSeverity error) eqn:Hsev; cbn.
      * repeat split; try done. set_solver.
      * repeat split; try done. set_solver.
      * repeat split; try done. set_solver.
      * exfalso. destruct error as [[[] ? ? ? ?]| | |]; discriminate.
    + exfalso. destruct error as [[[] ? ? ? ?]| | |]; cbn in Hin;
        try (by apply elem_of_nil in Hin).
      unfold ErrorHandling.handleAuthError in Hin.
      apply elem_of_cons in Hin as [Hin|Hin]; [discriminate|].
      apply list_elem_of_singleton in Hin. discriminate.
  - destruct (parseApiError_cases nullMessage response) as [[Hnull ->]|[Hbody [d ->]]].
    + reflexivity.
    + apply apiError_title.
Qed.

Lemma handle_removes_token (error : ErrorHandling.Caught)
    (options : ErrorHandling.ErrorHandlerOptions) :
  ErrorHandling.TokenRemoved ∈ ErrorHandling.handle error options
  <-> exists e, error = ErrorHandling.IsApplicationError e
                /\ ErrorHandling.cls e = ErrorHandling.AuthenticationErrorClass.
Proof.
  unfold ErrorHandling.handle, ErrorHandling.showErrorToast,
    ErrorHandling.handleAuthError. split.
  - intros Hin. apply elem_of_app in Hin as [Hin|Hin].
    { destruct (default true (ErrorHandling.logError options)).
      - apply list_elem_of_singleton in Hin. discriminate.
      - by apply elem_of_nil in Hin. }
    apply elem_of_app in Hin as [Hin|Hin].
    { destruct (default true (ErrorHandling.showToast options)).
      - apply list_elem_of_singleton in Hin. discriminate.
      - by apply elem_of_nil in Hin. }
    destruct error as [e| | |]; try (by apply elem_of_nil in Hin).
    exists e. split; [done|].
    destruct (ErrorHandling.cls e); try (by apply elem_of_nil in Hin). done.
  - intros (e & -> & Hcls). rewrite Hcls. rewrite !elem_of_app. right. right.
    apply list_elem_of_here.
Qed.

(** What the [catch] of [fetchWithErrorHandling] makes of a [TypeError]. *)
Lemma fetch_not_ok_eq {A} (nullMessage : string) (response : ErrorHandling.Response A)
    (options : ErrorHandling.ErrorHandlerOptions) :
  ErrorHandling.ok response = false ->
  ErrorHandling.fetchWithErrorHandling nullMessage (ErrorHandling.FetchReturns response)
    options
  = let error :=
      match ErrorHandling.parseApiError nullMessage response with
      | inr built => ErrorHandling.IsApplicationError built
      | inl thrown =>
          if ErrorHandling.includes "fetch" nullMessage
          then ErrorHandling.IsApplicationError
                 (ErrorHandling.NetworkError
                    "Unable to connect to server. Please check your internet connection.")
          else thrown
      end in
    (ErrorHandling.handle error options, inl error).
Proof.
  intros Hok. cbn [ErrorHandling.fetchWithErrorHandling]. rewrite Hok. cbn [negb].
  destruct (parseApiError_cases nullMessage response) as [[Hnull ->]|[Hbody [d ->]]].
  - cbv zeta. destruct (ErrorHandling.includes "fetch" nullMessage); reflexivity.
  - reflexivity.
Qed.

(** X26.  [fetchWithErrorHandling] never returns a response that is not ok:
    a response comes back only if [fetch] returned it with its [ok] flag set,
    and then nothing is logged or shown; a response that is not ok is turned
    into an error that is handled once and thrown: the error of
    [parseApiError], or, when its body is [null], the [TypeError] that
    [parseApiError] throws (a [NetworkError] instead if the message of that
    [TypeError] contains [fetch]); and the token is removed (and the logout
    event dispatched) exactly when [fetch] returned a response that is not ok
    with status 401 whose body is not [null]. *)
Theorem fetchWithErrorHandling_never_returns_failure :
  forall (A : Type) (nullMessage : string) (fetched : ErrorHandling.FetchOutcome A)
         (options : ErrorHandling.ErrorHandlerOptions),
    let r := ErrorHandling.fetchWithErrorHandling nullMessage fetched options in
    (forall response,
       snd r = inr response
       <-> fetched = ErrorHandling.FetchReturns response
           /\ ErrorHandling.ok response = true)
    /\ (forall response, snd r = inr response -> fst r = [])
    /\ (forall response,
          fetched = ErrorHandling.FetchReturns response ->
          ErrorHandling.ok response = false ->
          let error :=
            match ErrorHandling.parseApiError nullMessage response with
            | inr built => ErrorHandling.IsApplicationError built
            | inl thrown =>
                if ErrorHandling.includes "fetch" nullMessage
                then ErrorHandling.IsApplicationError
                       (ErrorHandling.NetworkError
                          "Unable to connect to server. Please check your internet connection.")
                else thrown
            end in
          r = (ErrorHandling.handle error options, inl error))
    /\ (ErrorHandling.TokenRemoved ∈ fst r
        <-> exists response,
              fetched = ErrorHandling.FetchReturns response
              /\ ErrorHandling.ok response = false
              /\ ErrorHandling.status response = 401
              /\ ErrorHandling.errorData response <> inr None).
Proof.
  intros A nullMessage fetched options r. subst r.
  pose proof (fun error => handle_removes_token error options) as Htoken.
  destruct fetched as [error|response].
  - assert (exists effs e,
              ErrorHandling.fetchWithErrorHandling nullMessage
                (ErrorHandling.FetchThrows error) options
              = (effs, inl e)
              /\ ErrorHandling.TokenRemoved ∉ effs) as (effs & e & -> & Hno).
    { destruct error as [e|[] n m| |]; cbn.
      - eexists _, _. split; [reflexivity|]. apply not_elem_of_nil.
      - destruct (ErrorHandling.includes "fetch" m); eexists _, _;
          (split; [reflexivity|]); rewrite Htoken; intros (e & He & Hcls);
          [injection He as <-|]; discriminate.
      - eexists _, _. split; [reflexivity|]. rewrite Htoken.
        intros (e & He & Hcls). discriminate.
      - eexists _, _. split; [reflexivity|]. rewrite Htoken.
        intros (e & He & Hcls). discriminate.
      - eexists _, _. split; [reflexivity|]. rewrite Htoken.
        intros (e & He & Hcls). discriminate. }
    cbn [fst snd]. split; [|split; [|split]].
    + intros response. split; [discriminate|]. intros [Hf _]. discriminate.
    + intros response Hr. discriminate.
    + intros response Hf. discriminate.
    + split; [done|]. intros (response & Hf & _). discriminate.
  - destruct (ErrorHandling.ok response) eqn:Hok.
    + cbn [ErrorHandling.fetchWithErrorHandling]. rewrite Hok. cbn [negb fst snd].
      split; [|split; [|split]].
      * intros response'. split.
        -- intros [= <-]. done.
        -- intros [[= <-] _]. done.
      * done.
      * intros response' [= <-] Hok'. congruence.
      * split.
        -- intros Hin. by apply elem_of_nil in Hin.
        -- intros (response' & [= <-] & Hok' & _). congruence.
    + rewrite (fetch_not_ok_eq nullMessage response options Hok). cbv zeta. cbn [fst snd].
      split; [|split; [|split]].
      * intros response'. split; [discriminate|]. intros [[= <-] Hok']. congruence.
      * intros response' Hr. discriminate.
      * intros response' [= <-] _. reflexivity.
      * destruct (parseApiError_cases nullMessage response) as [[Hnull ->]|[Hbody [d ->]]].
        -- split.
           ++ intros Hin. exfalso. apply Htoken in Hin as (e & He & Hcls).
              destruct (ErrorHandling.includes "fetch" nullMessage); [|discriminate].
              injection He as <-. discriminate.
           ++ intros (response' & [= <-] & _ & _ & Hbody). done.
        -- destruct (apiError_facts (ErrorHandling.status response) d)
             as (_ & _ & Hauth & _).
           split.
           ++ intros Hin. apply Htoken in Hin as (e & [= <-] & Hcls).
              exists response. repeat split; try done. by apply Hauth.
           ++ intros (response' & [= <-] & _ & Hst & _). apply Htoken. eexists.
              split; [done|]. by apply Hauth.
Qed.

Lemma fetchWithErrorHandling_never_returns_failure_witness :
  let complaint := "Cannot read properties of null (reading 'message')" in
  let unauthorized body :=
    ErrorHandling.FetchReturns
      {| ErrorHandling.status := 401; ErrorHandling.ok := false;
         ErrorHandling.json := inl NonError : Thrown + unit;
         ErrorHandling.errorData := body |} in
  let options := ErrorHandling.mkOptions None None None false in
  ErrorHandling.TokenRemoved
    ∈ fst (ErrorHandling.fetchWithErrorHandling complaint
             (unauthorized (inr (Some (ErrorHandling.mkApiError None None None)))) options)
  /\ ErrorHandling.TokenRemoved
     ∉ fst (ErrorHandling.fetchWithErrorHandling complaint (unauthorized (inr None))
              options).
Proof.
  intros complaint unauthorized options. split.
  - apply (fetchWithErrorHandling_never_returns_failure unit complaint).
    eexists. split; [reflexivity|]. split; [reflexivity|]. split; [reflexivity|].
    discriminate.
  - intros Hin.
    apply (fetchWithErrorHandling_never_returns_failure unit complaint) in Hin
      as (response & [= <-] & _ & _ & Hbody).
    by apply Hbody.
Defined.

(** X27.  The branch of [addEngineer] for a response that is not ok cannot
    be reached: what [addEngineer] awaits from [fetchWithErrorHandling] is
    never a response that is not ok, so its errors are those of the other
    operations, and for a response of the server that is not ok the error
    that its [catch] sees does not say [Failed to add engineer] of itself: it
    carries the message of the error that [parseApiError] built, or, when the
    body is [null], the message of the [TypeError] thrown there (that of the
    [NetworkError] if it contains [fetch]). *)
Theorem addEngineer_not_ok_branch_unreachable :
  forall (A : Type) (nullMessage : string) (fetched : ErrorHandling.FetchOutcome A)
         (options : ErrorHandling.ErrorHandlerOptions),
    let res := ErrorHandling.awaited
                 (snd (ErrorHandling.fetchWithErrorHandling nullMessage fetched options)) in
    (forall j, res <> Fulfilled false j)
    /\ addEngineer_failure res = await_failure res
    /\ (forall response,
          fetched = ErrorHandling.FetchReturns response ->
          ErrorHandling.ok response = false ->
          res = Rejected (ErrorObject
                  match ErrorHandling.parseApiError nullMessage response with
                  | inr built => ErrorHandling.message built
                  | inl _ =>
                      if ErrorHandling.includes "fetch" nullMessage
                      then "Unable to connect to server. Please check your internet connection."
                      else nullMessage
                  end)).
Proof.
  intros A nullMessage fetched options res. subst res.
  destruct fetched as [error|response].
  - assert (exists e, snd (ErrorHandling.fetchWithErrorHandling nullMessage
                             (ErrorHandling.FetchThrows error) options)
                      = inl e) as [e ->].
    { destruct error as [e|[] n m| |]; cbn; try (by eexists).
      destruct (ErrorHandling.includes "fetch" m); by eexists. }
    cbn. repeat split; try done.
  - destruct (ErrorHandling.ok response) eqn:Hok.
    + cbn [ErrorHandling.fetchWithErrorHandling]. rewrite Hok. cbn. rewrite Hok.
      repeat split; try done. intros ? [= <-]. congruence.
    + rewrite (fetch_not_ok_eq nullMessage response options Hok). cbv zeta. cbn [snd].
      destruct (parseApiError_cases nullMessage response) as [[Hnull Hp]|[Hbody [d Hp]]];
        rewrite Hp.
      * destruct (ErrorHandling.includes "fetch" nullMessage) eqn:Hinc; cbn;
          repeat split; try done; intros ? [= <-] _; by rewrite Hp, ?Hinc.
      * cbn. repeat split; try done. intros ? [= <-] _. by rewrite Hp.
Qed.

(** ** Records that come back with another text *)

Section Resent.
Context {A : Type} (id : A -> string) (stringify : A -> string).
Implicit Types (l : list A).

Lemma filter_keep_one (f : A -> bool) l1 x l2 :
  (forall y, y ∈ l1 -> f y = false) -> f x = true -> (forall y, y ∈ l2 -> f y = false) ->
  List.filter f (l1 ++ x :: l2) = [x].
Proof.
  intros H1 Hx H2. rewrite List.filter_app. cbn [List.filter]. rewrite Hx.
  by rewrite (filter_none f l1 H1), (filter_none f l2 H2).
Qed.

(** One record comes back under its id with another text; every other record
    is there as it was sent before. *)
Lemma one_resent_classified l1 r r' l2 :
  NoDup (map id (l1 ++ r :: l2)) ->
  id r' = id r ->
  stringify r' <> stringify r ->
  newItems id (l1 ++ r' :: l2) (l1 ++ r :: l2) = []
  /\ removedItems id (l1 ++ r' :: l2) (l1 ++ r :: l2) = []
  /\ updatedItems id stringify (l1 ++ r' :: l2) (l1 ++ r :: l2) = [r'].
Proof.
  intros Hnd Hid Hne.
  assert (forall y, y ∈ l1 ++ r' :: l2 -> id y ∈ map id (l1 ++ r :: l2)) as Hnew.
  { intros y Hy. apply elem_of_app in Hy as [Hy|Hy].
    - apply list_elem_of_fmap. exists y. split; [done|]. apply elem_of_app. by left.
    - apply elem_of_cons in Hy as [->|Hy].
      + rewrite Hid. apply list_elem_of_fmap. exists r. split; [done|].
        apply elem_of_app. right. apply list_elem_of_here.
      + apply list_elem_of_fmap. exists y. split; [done|].
        apply elem_of_app. right. by apply list_elem_of_further. }
  assert (forall y, y ∈ l1 ++ r :: l2 -> id y ∈ map id (l1 ++ r' :: l2)) as Hold.
  { intros y Hy. apply elem_of_app in Hy as [Hy|Hy].
    - apply list_elem_of_fmap. exists y. split; [done|]. apply elem_of_app. by left.
    - apply elem_of_cons in Hy as [->|Hy].
      + rewrite <- Hid. apply list_elem_of_fmap. exists r'. split; [done|].
        apply elem_of_app. right. apply list_elem_of_here.
      + apply list_elem_of_fmap. exists y. split; [done|].
        apply elem_of_app. right. by apply list_elem_of_further. }
  assert (forall y, y ∈ l1 ++ r :: l2 ->
            find_by_id id (id y) (l1 ++ r :: l2) = Some y) as Hfind
    by (intros y Hy; by apply find_by_id_NoDup).
  split; [|split].
  - apply filter_none. intros y Hy. apply negb_false_iff, bool_decide_eq_true.
    by apply find_by_id_elem, Hnew.
  - apply filter_none. intros y Hy. apply negb_false_iff, bool_decide_eq_true.
    by apply find_by_id_elem, Hold.
  - unfold updatedItems. apply filter_keep_one.
    + intros y Hy. rewrite Hfind by (apply elem_of_app; by left).
      by rewrite String.eqb_refl.
    + rewrite Hid, Hfind by (apply elem_of_app; right; apply list_elem_of_here).
      apply negb_true_iff, String.eqb_neq. congruence.
    + intros y Hy.
      rewrite Hfind by (apply elem_of_app; right; by apply list_elem_of_further).
      by rewrite String.eqb_refl.
Qed.

End Resent.

(** X28.  The diff goes by the text and not by the fields: in a successful
    sync whose previous snapshot is keyed by id, when one engineer comes back
    under its id with another [JSON.stringify] text, be its fields the same
    or not, and every other record is there as it was sent before, the
    external events are exactly one [external:engineer:updated] event for the
    record as it came back and the aggregate with [updated.engineers = 1] and
    every other count [0]. *)
Theorem resent_record_with_other_text_is_updated :
  forall (app : AppState) (net : Network) (s : SyncState) (newData oldData : ServerData.t)
         (l1 l2 : list (Received.t Engineer.t)) (r r' : Received.t Engineer.t),
    session_active app ->
    fetchServerData app net = inr newData ->
    lastSyncDataRef s = Some oldData ->
    keyed_by_id oldData ->
    ServerData.engineers oldData = l1 ++ r :: l2 ->
    ServerData.engineers newData = l1 ++ r' :: l2 ->
    received_id Engineer.id r' = received_id Engineer.id r ->
    Received.text r' <> Received.text r ->
    ServerData.projects newData = ServerData.projects oldData ->
    ServerData.assignments newData = ServerData.assignments oldData ->
    List.filter external (sync_events app net s)
    = [ {| ev_type := "external:engineer:updated";
           ev_payload := PEngineer (Received.value r');
           ev_timestamp := now (hook s); ev_source := server |};
        aggregate_event (now (hook s))
          {| added := zero_counts; removed := zero_counts;
             updated := {| Counts.engineers := 1; Counts.projects := 0;
                           Counts.assignments := 0 |} |} ].
Proof.
  intros app net s newData oldData l1 l2 r r' Hsession Hfetch Hlast (Hke & Hkp & Hka)
    Ho Hn Hid Hne Hp Ha.
  destruct (performSync_success app net s newData Hsession Hfetch)
    as (s' & Heq & _ & _ & _ & _ & Hev).
  unfold sync_events. rewrite Heq. cbn [fst].
  rewrite (events_since_app _ _ _ Hev), Hlast. cbn [external_events].
  destruct (sync_events_diff_step (now (hook s)) newData oldData
              (nonzero (length (getPendingUpdates (hook s)))) (currentData app))
    as [-> _].
  rewrite Ho in Hke.
  destruct (one_resent_classified (received_id Engineer.id) Received.text l1 r r' l2
              Hke Hid Hne) as (E1 & E2 & E3).
  unfold diff_events, per_record_events, change_counts.
  rewrite Hn, Ho, Hp, Ha, E1, E2, E3.
  rewrite !newItems_subset, !removedItems_subset by done.
  rewrite !(updatedItems_unchanged _ _ _ _ Hkp), !(updatedItems_unchanged _ _ _ _ Hka)
    by (intros x Hx; by left).
  reflexivity.
Qed.

Lemma resent_record_with_other_text_is_updated_witness :
  let ada := sample_engineer "e1" "Ada" in
  let reordered := {| Received.value := ada; Received.text := "Ada engineer e1" |} in
  let app := sample_store [ada] in
  let net := {| net_engineers := FetchResponse true (inr [reordered]);
                net_projects := FetchResponse true (inr []);
                net_assignments := FetchResponse true (inr []) |} in
  let s := sample_sync (sample_hook true) (Some (snapshot [ada])) in
  List.filter external (sync_events app net s)
  = [ {| ev_type := "external:engineer:updated"; ev_payload := PEngineer ada;
         ev_timestamp := 0; ev_source := server |};
      aggregate_event 0
        {| added := zero_counts; removed := zero_counts;
           updated := {| Counts.engineers := 1; Counts.projects := 0;
                         Counts.assignments := 0 |} |} ].
Proof.
  intros ada reordered app net s.
  apply (resent_record_with_other_text_is_updated app net s
           {| ServerData.engineers := [reordered]; ServerData.projects := [];
              ServerData.assignments := [] |}
           (snapshot [ada]) [] [] (sent_engineer ada) reordered).
  - split; [by eexists|reflexivity].
  - reflexivity.
  - reflexivity.
  - repeat split; cbn; by apply (bool_decide_unpack _).
  - reflexivity.
  - reflexivity.
  - reflexivity.
  - cbn. discriminate.
  - reflexivity.
  - reflexivity.
Defined.
